(** * Resumable chunked download of the Chicago taxi-trips dataset

    A shallow embedding of the two versions of the downloader:
    [download.js] (module [Download]) and the later version with a byte
    budget and an interactive limit negotiation (module [Limited]; its
    source is the second script of the repository, [askUserForLimit],
    [askNewLimit] and [askToExtend] included).

    JavaScript numbers that count records or bytes are [N]; the result
    of [parseInt] is a [jsint] (an integer or NaN); the result of
    [parseFloat] is a [jsnum] (a rational or NaN).  Strings are byte
    strings, so [String.length] is [Buffer.from(s).length].

    The file system, the console and the calls made to the network, the
    terminal and the output stream are explicit: a [World] is threaded
    through every operation by a small state-and-exception monad [M].
    What the outside answers (HTTP responses, what the user types or
    that the input has ended, whether the stream accepts more bytes)
    is an [Env].

    A run of the model is a process that ends on its own: it returns,
    exits at the prompt, or waits there for an answer that never
    comes.  The stream hands its bytes to the file at once.  A process
    killed between two calls, and bytes lost in the buffer of the
    stream, are outside the model; so are state files that parse to
    something else than the record [saveState] writes. *)

From Stdlib Require Import String Ascii List NArith ZArith QArith Qround Bool Lia.
Import ListNotations.
Local Open Scope string_scope.
Local Open Scope N_scope.

(** ** JavaScript values *)

(** [parseInt] yields an integer or NaN. *)
Inductive jsint : Type :=
| NaN
| Int (z : Z).

(** [parseFloat] yields a number or NaN. *)
Inductive jsnum : Type :=
| NaNf
| Num (q : Q).

(** [offset < totalRecords]: any comparison with NaN is false. *)
Definition lt_total (offset : N) (totalRecords : jsint) : bool :=
  match totalRecords with
  | NaN => false
  | Int z => (Z.of_N offset <? z)%Z
  end.

(** [offset >= totalRecords]. *)
Definition ge_total (offset : N) (totalRecords : jsint) : bool :=
  match totalRecords with
  | NaN => false
  | Int z => (z <=? Z.of_N offset)%Z
  end.

(** *** String helpers: [trim], [toUpperCase], [toLowerCase], [parseInt] *)

(** The white space and line terminators that [trim] and [parseInt]
    strip, in the UTF-8 bytes of the strings: the blanks of one byte
    (U+0009 to U+000D, U+0020), of two bytes (U+00A0) and of three
    bytes (U+1680, U+2000 to U+200A, U+2028, U+2029, U+202F, U+205F,
    U+3000, U+FEFF). *)
Definition isWhite (c : ascii) : bool :=
  let n := N_of_ascii c in
  (n =? 32) || ((9 <=? n) && (n <=? 13)).

Definition isWhite2 (c1 c2 : ascii) : bool :=
  (N_of_ascii c1 =? 194) && (N_of_ascii c2 =? 160).

Definition isWhite3 (c1 c2 c3 : ascii) : bool :=
  let n1 := N_of_ascii c1 in
  let n2 := N_of_ascii c2 in
  let n3 := N_of_ascii c3 in
  ((n1 =? 225) && (n2 =? 154) && (n3 =? 128))
  || ((n1 =? 226) && (n2 =? 128)
      && (((128 <=? n3) && (n3 <=? 138))
          || (n3 =? 168) || (n3 =? 169) || (n3 =? 175)))
  || ((n1 =? 226) && (n2 =? 129) && (n3 =? 159))
  || ((n1 =? 227) && (n2 =? 128) && (n3 =? 128))
  || ((n1 =? 239) && (n2 =? 187) && (n3 =? 191)).

(** The string without its leading blanks; with [backwards], the
    string is read from its end, so the bytes of a blank come in
    reverse. *)
Fixpoint stripBlanks (backwards : bool) (s : string) : string :=
  match s with
  | String c1 r1 =>
      if isWhite c1 then stripBlanks backwards r1
      else
        match r1 with
        | String c2 r2 =>
            if (if backwards then isWhite2 c2 c1 else isWhite2 c1 c2)
            then stripBlanks backwards r2
            else
              match r2 with
              | String c3 r3 =>
                  if (if backwards then isWhite3 c3 c2 c1
                      else isWhite3 c1 c2 c3)
                  then stripBlanks backwards r3
                  else s
              | EmptyString => s
              end
        | EmptyString => s
        end
  | EmptyString => s
  end.

Definition trimStart (s : string) : string := stripBlanks false s.

Fixpoint rev_string (s acc : string) : string :=
  match s with
  | String c r => rev_string r (String c acc)
  | EmptyString => acc
  end.

Definition trim (s : string) : string :=
  rev_string
    (stripBlanks true (rev_string (stripBlanks false s) EmptyString))
    EmptyString.

(** The case of the letters of ASCII; the other bytes are kept.  The
    scripts compare the result with [A], [L], [N], [n], [e] and
    [extend] only, and no text with a character outside ASCII has one
    of these for its upper or lower case. *)
Definition upper (c : ascii) : ascii :=
  let n := N_of_ascii c in
  if (97 <=? n) && (n <=? 122) then ascii_of_N (n - 32) else c.

Definition lower (c : ascii) : ascii :=
  let n := N_of_ascii c in
  if (65 <=? n) && (n <=? 90) then ascii_of_N (n + 32) else c.

Fixpoint map_string (f : ascii -> ascii) (s : string) : string :=
  match s with
  | String c r => String (f c) (map_string f r)
  | EmptyString => EmptyString
  end.

Definition toUpperCase : string -> string := map_string upper.
Definition toLowerCase : string -> string := map_string lower.

(** The value of a digit in the given radix (10 or 16). *)
Definition digitVal (radix : N) (c : ascii) : option N :=
  let n := N_of_ascii c in
  if (48 <=? n) && (n <=? 57) then Some (n - 48)
  else if (radix =? 16) && (97 <=? n) && (n <=? 102) then Some (n - 87)
  else if (radix =? 16) && (65 <=? n) && (n <=? 70) then Some (n - 55)
  else None.

(** The longest prefix of digits, as a number; [acc] is [None] until a
    digit has been read. *)
Fixpoint digits (radix : N) (s : string) (acc : option N) : option N :=
  match s with
  | String c r =>
      match digitVal radix c with
      | Some d =>
          digits radix r
            (Some (radix * (match acc with Some a => a | None => 0 end) + d))
      | None => acc
      end
  | EmptyString => acc
  end.

(** [parseInt(s)] without a radix: leading white space, an optional
    sign, an optional [0x] prefix, then the longest prefix of digits;
    NaN when there is none.  The integer is exact; JavaScript rounds
    it to a double above 2^53, far above any count of records. *)
Definition parseInt (s : string) : jsint :=
  let s := trimStart s in
  let '(neg, s) :=
    match s with
    | String "-" r => (true, r)
    | String "+" r => (false, r)
    | _ => (false, s)
    end in
  let '(radix, s) :=
    match s with
    | String "0" (String "x" r) => (16, r)
    | String "0" (String "X" r) => (16, r)
    | _ => (10, s)
    end in
  match digits radix s None with
  | None => NaN
  | Some n => Int (if neg then - Z.of_N n else Z.of_N n)%Z
  end.

(** [Math.floor(gb * 1024 * 1024 * 1024)] for a positive [gb]. *)
Definition gbToBytes (gb : Q) : N :=
  Z.to_N (Qfloor (gb * (1024 # 1) * (1024 # 1) * (1024 # 1))).

(** [isNaN(x) || x <= 0]. *)
Definition notPositive (x : jsnum) : bool :=
  match x with
  | NaNf => true
  | Num q => if Qlt_le_dec 0 q then false else true
  end.

(** ** Constants of both scripts *)

Definition BASE_URL : string :=
  "https://data.cityofchicago.org/resource/wrvz-psew.json".
Definition CHUNK_SIZE : N := 50000.
Definition HARDCODED_TOTAL : Z := 211670894.

(** ** Data *)

(** A row of a response: an opaque JSON object, seen through
    [JSON.stringify(row)] and through its property [count] (a string in
    the answers of the count query, absent otherwise). *)
Record record : Type := mkRecord {
  json : string;
  count : option string
}.

Definition JSON_stringify (r : record) : string := json r.

(** [response.data]: null, or an array of rows. *)
Inductive Data : Type :=
| DNull
| DRows (rows : list record).

(** What [axios.get] does: the promise is rejected with an error
    message (timeout, network error, HTTP error) or resolved. *)
Inductive Response : Type :=
| Rejected (message : string)
| Resolved (data : Data).

Inductive ParamVal : Type :=
| PNum (n : N)
| PStr (s : string).

Record Request : Type := mkRequest {
  url : string;
  params : list (string * ParamVal);
  timeout : N
}.

(** The persisted state record, [{ offset, limitBytes }];
    [limitBytes] is [None] for [null] and for a missing property. *)
Record DownloadState : Type := mkState {
  offset : N;
  limitBytes : option N
}.

(** The content of the state file, as [JSON.parse] sees it: the text
    written by [saveState], or a text on which [JSON.parse] throws.
    Texts that parse to another value ([null], an object without a
    numeric [offset]) are not covered: nothing in the scripts writes
    them, and on them the scripts fail before their [try] block. *)
Inductive StateFileContent : Type :=
| Json (s : DownloadState)
| Garbage (raw : string).

(** The two files under [DATA_DIR]; [None] is a missing file. *)
Record FS : Type := mkFS {
  STATE_FILE : option StateFileContent;
  FILE_PATH : option string
}.

Inductive Flags : Type := flag_w | flag_a.

(** Calls that leave the process, in the order they are made.  [Fsync]
    stands for a synchronous flush of the output file
    ([fs.fsyncSync]). *)
Inductive Event : Type :=
| Get (req : Request)
| Sleep (ms : N)
| Question (prompt : string)
| Open (flags : Flags)
| Write (data : string)
| AwaitDrain
| Fsync
| End_
| SaveState (s : DownloadState)
| Unlink
| ProcessExit (code : N).

(** Lines printed on the console (numbers are not formatted). *)
Inductive Msg : Type :=
| MsgSizeAttempt
| MsgSizeFailed (message : string)
| MsgSizeFallback
| MsgStateError
| MsgStateMissingFile
| MsgRetry (attempt : N) (offset : N)
| MsgLimitReached (limit : N)
| MsgCompleted
| MsgPaused (offset : N)
| MsgInterrupted (message : string)
| MsgProgressSaved (offset : N)
| MsgInfo (text : string).

Record World : Type := mkWorld {
  fs : FS;
  tick : nat;
  trace : list Event;
  console : list Msg
}.

(** What the outside answers; [tick] counts the answers given so far in
    this process.  [answer] is the line the user types, [None] when the
    input has ended: the callback of [rl.question] is then never
    called.  [parseFloat] is the built-in. *)
Record Env : Type := mkEnv {
  axios_get : nat -> Request -> Response;
  answer : nat -> option string;
  canWrite : nat -> bool;
  parseFloat : string -> jsnum
}.

(** A fresh process on a given file system. *)
Definition boot (f : FS) : World :=
  {| fs := f; tick := 0; trace := []; console := [] |}.

(** ** The monad of effects *)

(** How a computation ends: with a value, with an exception, with
    [process.exit], or not at all, on a promise that never settles
    (nothing after it runs in this process). *)
Inductive Res (A : Type) : Type :=
| Ok (a : A)
| Throw (message : string)
| Exit (code : N)
| Pending.
Arguments Ok {A} a.
Arguments Throw {A} message.
Arguments Exit {A} code.
Arguments Pending {A}.

Definition M (A : Type) : Type := World -> Res A * World.

Definition ret {A} (a : A) : M A := fun w => (Ok a, w).

Definition bind {A B} (m : M A) (k : A -> M B) : M B :=
  fun w =>
    match m w with
    | (Ok a, w') => k a w'
    | (Throw e, w') => (Throw e, w')
    | (Exit c, w') => (Exit c, w')
    | (Pending, w') => (Pending, w')
    end.

Notation "x <- m ;; k" := (bind m (fun x => k))
  (at level 61, m at next level, right associativity).
Notation "m ;;; k" := (bind m (fun _ => k))
  (at level 61, right associativity).

(** [try { m } catch (e) { h e }]; [process.exit] is not caught, and
    a promise that never settles never reaches the handler. *)
Definition tryCatch {A} (m : M A) (h : string -> M A) : M A :=
  fun w =>
    match m w with
    | (Throw e, w') => h e w'
    | r => r
    end.

Definition emit (e : Event) : M unit :=
  fun w => (Ok tt, {| fs := fs w; tick := tick w;
                      trace := trace w ++ [e]; console := console w |}).

Definition log (m : Msg) : M unit :=
  fun w => (Ok tt, {| fs := fs w; tick := tick w;
                      trace := trace w; console := console w ++ [m] |}).

Definition getFS : M FS := fun w => (Ok (fs w), w).

Definition putFS (f : FS) : M unit :=
  fun w => (Ok tt, {| fs := f; tick := tick w;
                      trace := trace w; console := console w |}).

(** The next answer of the outside, [f] applied to the current tick. *)
Definition ask {A} (f : nat -> A) : M A :=
  fun w => (Ok (f (tick w)),
            {| fs := fs w; tick := S (tick w);
               trace := trace w; console := console w |}).

(** [process.exit(code)]. *)
Definition process_exit {A} (code : N) : M A :=
  fun w => (Exit code, {| fs := fs w; tick := tick w;
                          trace := trace w ++ [ProcessExit code];
                          console := console w |}).

(** ** Primitives *)

Section Primitives.
Variable env : Env.

(** [await axios.get(...)]: a rejected promise throws. *)
Definition axios_get_ (req : Request) : M Data :=
  emit (Get req) ;;;
  r <- ask (fun t => axios_get env t req) ;;
  match r with
  | Rejected message => fun w => (Throw message, w)
  | Resolved data => ret data
  end.

(** [await new Promise(r => setTimeout(r, ms))]. *)
Definition sleep (ms : N) : M unit := emit (Sleep ms).

(** [rl.question(prompt, cb)]: the answer passed to the callback; at
    the end of the input the callback is never called, so the promise
    that wraps the question never settles. *)
Definition question (prompt : string) : M string :=
  emit (Question prompt) ;;;
  a <- ask (answer env) ;;
  match a with
  | Some line => ret line
  | None => fun w => (Pending, w)
  end.

(** [fs.createWriteStream(FILE_PATH, { flags })]: ['w'] creates or
    truncates the file, ['a'] creates it if it is missing. *)
Definition createWriteStream (flags : Flags) : M unit :=
  emit (Open flags) ;;;
  f <- getFS ;;
  putFS {| STATE_FILE := STATE_FILE f;
           FILE_PATH :=
             match flags, FILE_PATH f with
             | flag_a, Some old => Some old
             | _, _ => Some EmptyString
             end |}.

(** [writer.write(data)]: the bytes are appended to the file; the
    result says whether the stream accepts more.  The bytes reach the
    file at once: the buffer of the stream is not modelled. *)
Definition writer_write (data : string) : M bool :=
  emit (Write data) ;;;
  f <- getFS ;;
  putFS {| STATE_FILE := STATE_FILE f;
           FILE_PATH :=
             Some (match FILE_PATH f with
                   | Some old => old ++ data
                   | None => data
                   end) |} ;;;
  ask (canWrite env).

(** [await new Promise(resolve => writer.once('drain', resolve))]. *)
Definition awaitDrain : M unit := emit AwaitDrain.

Definition writer_end : M unit := emit End_.

(** [fs.existsSync(FILE_PATH)] and [fs.statSync(FILE_PATH).size]. *)
Definition existsFile : M bool :=
  f <- getFS ;; ret (match FILE_PATH f with Some _ => true | None => false end).

Definition statSize : M N :=
  f <- getFS ;;
  ret (match FILE_PATH f with
       | Some s => N.of_nat (String.length s)
       | None => 0
       end).

(** [fs.writeFileSync(STATE_FILE, JSON.stringify(s))]. *)
Definition writeState (s : DownloadState) : M unit :=
  emit (SaveState s) ;;;
  f <- getFS ;;
  putFS {| STATE_FILE := Some (Json s); FILE_PATH := FILE_PATH f |}.

(** [if (fs.existsSync(STATE_FILE)) fs.unlinkSync(STATE_FILE)]. *)
Definition unlinkStateIfExists : M unit :=
  f <- getFS ;;
  match STATE_FILE f with
  | Some _ =>
      emit Unlink ;;;
      putFS {| STATE_FILE := None; FILE_PATH := FILE_PATH f |}
  | None => ret tt
  end.

(** ** Code shared by both scripts *)

(** The count query of [getDatasetSize]. *)
Definition sizeRequest : Request :=
  {| url := BASE_URL ++ "?$select=count(*)"; params := []; timeout := 5000 |}.

(** [getDatasetSize]. *)
Definition getDatasetSize : M jsint :=
  r <- tryCatch
         (log MsgSizeAttempt ;;;
          data <- axios_get_ sizeRequest ;;
          match data with
          | DRows (first :: _) =>
              match count first with
              | Some c =>
                  if (c =? EmptyString)%string then ret None
                  else ret (Some (parseInt c))
              | None => ret None
              end
          | _ => ret None
          end)
         (fun message => log (MsgSizeFailed message) ;;; ret None) ;;
  match r with
  | Some n => ret n
  | None => log MsgSizeFallback ;;; ret (Int HARDCODED_TOTAL)
  end.

(** The body of [readState]; [zero] is the state returned when there is
    nothing to load. *)
Definition readStateOr (zero : DownloadState) : M DownloadState :=
  f <- getFS ;;
  match STATE_FILE f with
  | Some content =>
      r <- tryCatch
             (match content with
              | Json s => ret (Some s)
              | Garbage _ => fun w => (Throw "SyntaxError", w)
              end)
             (fun _ => log MsgStateError ;;; ret None) ;;
      match r with
      | Some s => ret s
      | None => ret zero
      end
  | None => ret zero
  end.

(** The page request of the main loop. *)
Definition pageRequest (timeout : N) (offset : N) : Request :=
  {| url := BASE_URL;
     params := [("$limit", PNum CHUNK_SIZE);
                ("$offset", PNum offset);
                ("$order", PStr ":id")];
     timeout := timeout |}.

(** The inner loop [while (retries > 0) { try { ... break } catch ... }],
    entered with [retries] attempts left; it yields [response.data]. *)
Fixpoint fetchWithRetries (timeout : N) (offset : N) (retries : nat) : M Data :=
  match retries with
  | O => ret (DRows [])
  | S retries' =>
      tryCatch
        (axios_get_ (pageRequest timeout offset))
        (fun e =>
           match retries' with
           | O => fun w => (Throw e, w)
           | S _ =>
               log (MsgRetry (3 - N.of_nat retries') offset) ;;;
               sleep 2000 ;;;
               fetchWithRetries timeout offset retries'
           end)
  end.

(** The [for] loop that builds [chunkData], from index [i] on. *)
Fixpoint chunkDataFrom (isFirstChunk : bool) (i : nat) (records : list record)
    (chunkData : string) : string :=
  match records with
  | [] => chunkData
  | r :: rest =>
      let chunkData :=
        if negb isFirstChunk || (0 <? i)%nat then chunkData ++ ","
        else chunkData in
      chunkDataFrom isFirstChunk (S i) rest (chunkData ++ JSON_stringify r)
  end.

(** The text of a chunk: [chunkData] after the [for] loop. *)
Definition chunkData (isFirstChunk : bool) (records : list record) : string :=
  chunkDataFrom isFirstChunk 0 records EmptyString.

(** [try { m } catch], with the outcome as a value: the message of the
    exception, or the result. *)
Definition attempt {A} (m : M A) : M (string + A) :=
  tryCatch (a <- m ;; ret (inr a)) (fun e => ret (inl e)).

(** The local variables of [downloadDataset] that the main loop
    updates. *)
Record Locals : Type := mkLocals {
  l_offset : N;
  l_downloadedBytes : N;
  l_isFirstChunk : bool
}.

(** How the main loop is left: its condition is false, one of its two
    [break]s, or an exception on its way to the [catch] of
    [downloadDataset].  [OutOfFuel] is not a behaviour of the script:
    it is what the model answers when [fuel] is too small. *)
Inductive LoopExit : Type :=
| CondFalse
| EmptyPage
| LimitHit
| Thrown (message : string)
| OutOfFuel.

(** One turn of [while (offset < totalRecords) { ... }], the loop of
    both scripts: it leaves the loop ([inl]) or goes on with new locals
    ([inr]).  [save] is the script's call of [saveState];
    [sizeLimitBytes] is [None] in [download.js], which has no limit
    check. *)
Definition iteration (timeout : N) (save : N -> M unit) (totalRecords : jsint)
    (sizeLimitBytes : option N) (l : Locals)
    : M (LoopExit * Locals + Locals) :=
  if negb (lt_total (l_offset l) totalRecords) then ret (inl (CondFalse, l))
  else
    r <- attempt (fetchWithRetries timeout (l_offset l) 3) ;;
    match r with
    | inl message => ret (inl (Thrown message, l))
    | inr DNull =>
        (* [records.length] of null *)
        ret (inl (Thrown "TypeError", l))
    | inr (DRows records) =>
        if (length records =? 0)%nat then ret (inl (EmptyPage, l))
        else if match sizeLimitBytes with
                | Some limit => limit <=? l_downloadedBytes l
                | None => false
                end
        then
          log (MsgLimitReached
                 (match sizeLimitBytes with Some b => b | None => 0 end)) ;;;
          ret (inl (LimitHit, l))
        else
          let chunk := chunkData (l_isFirstChunk l) records in
          ok <- writer_write chunk ;;
          let downloadedBytes :=
            l_downloadedBytes l + N.of_nat (String.length chunk) in
          (if ok then ret tt else awaitDrain) ;;;
          let offset := l_offset l + N.of_nat (length records) in
          save offset ;;;
          ret (inr {| l_offset := offset;
                      l_downloadedBytes := downloadedBytes;
                      l_isFirstChunk := false |})
    end.

(** [m], and then [k] unless the loop was left. *)
Definition andThen {X} (m : M (X + Locals)) (k : Locals -> M (X + Locals))
    : M (X + Locals) :=
  r <- m ;;
  match r with
  | inl out => ret (inl out)
  | inr l => k l
  end.

(** At most [p] turns of the loop.  The recursion is on the binary
    number [p], so that running the loop costs the turns it takes,
    whatever the total. *)
Fixpoint turns (timeout : N) (save : N -> M unit) (totalRecords : jsint)
    (sizeLimitBytes : option N) (p : positive) (l : Locals)
    : M (LoopExit * Locals + Locals) :=
  let one := iteration timeout save totalRecords sizeLimitBytes in
  let half := turns timeout save totalRecords sizeLimitBytes in
  match p with
  | xH => one l
  | xO q => andThen (half q l) (half q)
  | xI q => andThen (one l) (fun l1 => andThen (half q l1) (half q))
  end.

(** The loop, as at most [fuel] turns. *)
Definition mainLoop (timeout : N) (save : N -> M unit) (totalRecords : jsint)
    (sizeLimitBytes : option N) (fuel : N) (l : Locals)
    : M (LoopExit * Locals) :=
  match fuel with
  | N0 => ret (OutOfFuel, l)
  | Npos p =>
      r <- turns timeout save totalRecords sizeLimitBytes p l ;;
      match r with
      | inl out => ret out
      | inr l' => ret (OutOfFuel, l')
      end
  end.

(** Turns that are always enough: every turn that does not leave the
    loop adds at least one record to [offset]. *)
Definition fuelFor (totalRecords : jsint) (offset : N) : N :=
  match totalRecords with
  | NaN => 1
  | Int z => N.succ (Z.to_N (z - Z.of_N offset))
  end.

Inductive Outcome : Type := Completed | Paused | Failed.

(** What a run of [downloadDataset] leaves behind in its local
    variables when it returns. *)
Record Summary : Type := mkSummary {
  outcome : Outcome;
  exit : LoopExit;
  startOffset : N;
  startBytes : N;
  finalOffset : N;
  finalBytes : N;
  totalRecords : jsint;
  sizeLimitBytes : option N
}.

End Primitives.

(** ** [download.js] *)

Module Download.
Section Run.
Variable env : Env.

Definition saveState (offset : N) : M unit :=
  writeState {| offset := offset; limitBytes := None |}.

Definition readState : M DownloadState :=
  readStateOr {| offset := 0; limitBytes := None |}.

(** [downloadDataset] up to its main loop: the total, and the local
    variables with which the loop is entered. *)
Definition prepare : M (jsint * Locals) :=
  totalRecords <- getDatasetSize env ;;
  state <- readState ;;
  missing <- (ex <- existsFile ;; ret (negb ex)) ;;
  offset <- (if (0 <? offset state) && missing
             then log MsgStateMissingFile ;;; ret 0
             else ret (offset state)) ;;
  createWriteStream (if offset =? 0 then flag_w else flag_a) ;;;
  ex <- existsFile ;;
  size <- statSize ;;
  let downloadedBytes := if (0 <? offset) && ex then size else 0 in
  downloadedBytes <- (if offset =? 0
                      then writer_write env "[" ;;; ret (downloadedBytes + 1)
                      else ret downloadedBytes) ;;
  ret (totalRecords,
       {| l_offset := offset;
          l_downloadedBytes := downloadedBytes;
          l_isFirstChunk := offset =? 0 |}).

(** [downloadDataset] after its main loop: the end of the [try] block
    when the loop was left normally, the [catch] block otherwise. *)
Definition finish (totalRecords : jsint) (l0 : Locals)
    (r : LoopExit * Locals) : M Summary :=
  let '(exit, l) := r in
  let summary (o : Outcome) :=
    {| outcome := o; exit := exit;
       startOffset := l_offset l0; startBytes := l_downloadedBytes l0;
       finalOffset := l_offset l; finalBytes := l_downloadedBytes l;
       totalRecords := totalRecords; sizeLimitBytes := None |} in
  match exit with
  | Thrown message =>
      log (MsgInterrupted message) ;;;
      log (MsgProgressSaved (l_offset l)) ;;;
      writer_end ;;;
      ret (summary Failed)
  | OutOfFuel => ret (summary Failed)
  | _ =>
      writer_write env "]" ;;;
      writer_end ;;;
      unlinkStateIfExists ;;;
      log MsgCompleted ;;;
      ret (summary Completed)
  end.

Definition downloadDataset : M Summary :=
  p <- prepare ;;
  let '(totalRecords, l0) := p in
  r <- mainLoop env 45000 saveState totalRecords None
         (fuelFor totalRecords (l_offset l0)) l0 ;;
  finish totalRecords l0 r.

End Run.
End Download.

(** ** The version with a byte budget *)

Module Limited.
Section Run.
Variable env : Env.

Definition saveState (offset : N) (limitBytes : option N) : M unit :=
  writeState {| offset := offset; limitBytes := limitBytes |}.

Definition readState : M DownloadState :=
  readStateOr {| offset := 0; limitBytes := None |}.

Definition askNewLimit : M (option N) :=
  a <- question env "Do you want to download (A)ll or set a (L)imit in GB? [A/L]: " ;;
  let choice := toUpperCase (trim a) in
  if (choice =? "L")%string then
    limitInput <- question env "Enter limit in GB (e.g., 5): " ;;
    let limitGB := parseFloat env limitInput in
    if notPositive limitGB then ret None
    else
      match limitGB with
      | Num gb =>
          log (MsgInfo "Download limit set.") ;;;
          ret (Some (gbToBytes gb))
      | NaNf => ret None
      end
  else
    log (MsgInfo "Download set to ALL.") ;;;
    ret None.

Definition extendPrompt : string :=
  "Limit reached. Add more GB? (Enter number, e.g. 1, or 'A' for all, 'N' to exit): ".

(** [currentLimit] is a number at both call sites, so
    [currentLimit || 0] is [currentLimit]. *)
Definition askToExtend (currentLimit : N) : M (option N) :=
  a <- question env extendPrompt ;;
  let choice := toUpperCase (trim a) in
  if (choice =? "N")%string then process_exit 0
  else if (choice =? "A")%string then
    log (MsgInfo "Removing limit. Downloading ALL.") ;;;
    ret None
  else
    let addedGB := parseFloat env choice in
    if notPositive addedGB then
      log (MsgInfo "Invalid input. Exiting.") ;;;
      process_exit 0
    else
      match addedGB with
      | Num gb =>
          let addedBytes := gbToBytes gb in
          let base := currentLimit in
          let newLimit := base + addedBytes in
          log (MsgInfo "Extended limit.") ;;;
          ret (Some newLimit)
      | NaNf => process_exit 0
      end.

Definition askUserForLimit (currentOffset : N) (savedLimitBytes : option N)
    : M (option N) :=
  match savedLimitBytes with
  | Some saved =>
      if currentOffset <? saved then
        log (MsgInfo "Previous limit not reached.") ;;;
        a <- question env "Resume to limit? [Y/n/extend]: " ;;
        let choice := toLowerCase (trim a) in
        if (choice =? "n")%string then askNewLimit
        else if ((choice =? "extend") || (choice =? "e"))%string then
          askToExtend saved
        else
          log (MsgInfo "Resuming with limit.") ;;;
          ret (Some saved)
      else
        log (MsgInfo "Previous limit reached.") ;;;
        askToExtend saved
  | None => askNewLimit
  end.

(** The bytes already on disk, as [downloadDataset] computes them
    before it asks for the limit. *)
Definition bytesOnDisk (offset : N) : M N :=
  ex <- existsFile ;;
  size <- statSize ;;
  ret (if (0 <? offset) && ex then size else 0).

(** [downloadDataset] up to its main loop: the limit, the total, and
    the local variables with which the loop is entered. *)
Definition prepare : M (option N * jsint * Locals) :=
  state <- readState ;;
  let offset := offset state in
  downloadedBytes <- bytesOnDisk offset ;;
  sizeLimitBytes <- askUserForLimit downloadedBytes (limitBytes state) ;;
  totalRecords <- getDatasetSize env ;;
  createWriteStream (if offset =? 0 then flag_w else flag_a) ;;;
  downloadedBytes <- (if offset =? 0
                      then writer_write env "[" ;;; ret (downloadedBytes + 1)
                      else ret downloadedBytes) ;;
  ret (sizeLimitBytes, totalRecords,
       {| l_offset := offset;
          l_downloadedBytes := downloadedBytes;
          l_isFirstChunk := offset =? 0 |}).

(** [downloadDataset] after its main loop: the end of the [try] block
    when the loop was left normally, the [catch] block otherwise. *)
Definition finish (sizeLimitBytes : option N) (totalRecords : jsint)
    (l0 : Locals) (r : LoopExit * Locals) : M Summary :=
  let '(exit, l) := r in
  let summary (o : Outcome) :=
    {| outcome := o; exit := exit;
       startOffset := l_offset l0; startBytes := l_downloadedBytes l0;
       finalOffset := l_offset l; finalBytes := l_downloadedBytes l;
       totalRecords := totalRecords; sizeLimitBytes := sizeLimitBytes |} in
  match exit with
  | Thrown message =>
      log (MsgInterrupted message) ;;;
      log (MsgProgressSaved (l_offset l)) ;;;
      saveState (l_offset l) sizeLimitBytes ;;;
      writer_end ;;;
      ret (summary Failed)
  | OutOfFuel => ret (summary Failed)
  | _ =>
      o <- (if ge_total (l_offset l) totalRecords then
              writer_write env "]" ;;;
              log MsgCompleted ;;;
              unlinkStateIfExists ;;;
              ret Completed
            else
              log (MsgPaused (l_offset l)) ;;;
              ret Paused) ;;
      writer_end ;;;
      ret (summary o)
  end.

Definition downloadDataset : M Summary :=
  p <- prepare ;;
  let '(sizeLimitBytes, totalRecords, l0) := p in
  r <- mainLoop env 60000 (fun o => saveState o sizeLimitBytes)
         totalRecords sizeLimitBytes
         (fuelFor totalRecords (l_offset l0)) l0 ;;
  finish sizeLimitBytes totalRecords l0 r.

End Run.
End Limited.

(** ** Runs *)

Inductive Script : Type := download_js | limited_js.

(** One run of a script in a fresh process on the file system [f]. *)
Definition run (v : Script) (env : Env) (f : FS) : Res Summary * World :=
  match v with
  | download_js => Download.downloadDataset env (boot f)
  | limited_js => Limited.downloadDataset env (boot f)
  end.

(** Successive runs, each on the files the previous one left; the
    summary is that of the last run that returned one. *)
Fixpoint runAll (rs : list (Script * Env)) (f : FS) (last : option Summary)
    : FS * option Summary :=
  match rs with
  | [] => (f, last)
  | (v, env) :: rest =>
      match run v env f with
      | (Ok s, w) => runAll rest (fs w) (Some s)
      | (_, w) => runAll rest (fs w) last
      end
  end.

(** An empty data directory. *)
Definition pristine : FS := {| STATE_FILE := None; FILE_PATH := None |}.

(** The offset a run loads from the state file. *)
Definition resumeOffset (f : FS) : N :=
  match STATE_FILE f with
  | Some (Json s) => offset s
  | _ => 0
  end.

Definition fileSize (f : FS) : N :=
  match FILE_PATH f with
  | Some c => N.of_nat (String.length c)
  | None => 0
  end.

(** ** Vocabulary of the statements *)

(** The top-level pieces of the text between the brackets. *)
Inductive piece : Type :=
| Sep
| Item (r : record).

Definition renderPiece (p : piece) : string :=
  match p with
  | Sep => ","
  | Item r => JSON_stringify r
  end.

Fixpoint render (ps : list piece) : string :=
  match ps with
  | [] => EmptyString
  | p :: rest => renderPiece p ++ render rest
  end.

(** Records with one separator between neighbours. *)
Fixpoint joined (rs : list record) : list piece :=
  match rs with
  | [] => []
  | [r] => [Item r]
  | r :: rest => Item r :: Sep :: joined rest
  end.

(** Records, each after a separator, except that the first has one
    only if [lead]. *)
Fixpoint sepItems (lead : bool) (rs : list record) : list piece :=
  match rs with
  | [] => []
  | r :: rest => (if lead then [Sep] else []) ++ Item r :: sepItems true rest
  end.



(** One accepted chunk: the page, and what [writer.write] returned. *)
Record Iter : Type := mkIter {
  page : list record;
  accepted : bool
}.

Definition stepLocals (l : Locals) (it : Iter) : Locals :=
  {| l_offset := l_offset l + N.of_nat (length (page it));
     l_downloadedBytes :=
       l_downloadedBytes l
       + N.of_nat (String.length (chunkData (l_isFirstChunk l) (page it)));
     l_isFirstChunk := false |}.

Definition stepFS (lim : option N) (l : Locals) (f : FS) (it : Iter) : FS :=
  {| STATE_FILE :=
       Some (Json {| offset := l_offset (stepLocals l it); limitBytes := lim |});
     FILE_PATH :=
       Some (match FILE_PATH f with
             | Some old => old ++ chunkData (l_isFirstChunk l) (page it)
             | None => chunkData (l_isFirstChunk l) (page it)
             end) |}.

Definition iterEvents (lim : option N) (l : Locals) (it : Iter) : list Event :=
  Write (chunkData (l_isFirstChunk l) (page it))
  :: (if accepted it then [] else [AwaitDrain])
  ++ [SaveState {| offset := l_offset (stepLocals l it); limitBytes := lim |}].

(** The records and the text of a sequence of accepted chunks;
    [first] says whether the first of them is the very first chunk. *)
Definition recordsOf (its : list Iter) : list record :=
  flat_map page its.

Fixpoint chunksText (first : bool) (its : list Iter) : string :=
  match its with
  | [] => EmptyString
  | it :: rest => chunkData first (page it) ++ chunksText false rest
  end.

(** Locals, files and events after a sequence of accepted chunks. *)
Fixpoint afterLocals (l : Locals) (its : list Iter) : Locals :=
  match its with
  | [] => l
  | it :: rest => afterLocals (stepLocals l it) rest
  end.

Fixpoint afterFS (lim : option N) (l : Locals) (f : FS) (its : list Iter) : FS :=
  match its with
  | [] => f
  | it :: rest => afterFS lim (stepLocals l it) (stepFS lim l f it) rest
  end.

Fixpoint loopEvents (lim : option N) (l : Locals) (its : list Iter)
    : list Event :=
  match its with
  | [] => []
  | it :: rest => iterEvents lim l it ++ loopEvents lim (stepLocals l it) rest
  end.

(** Calls on the two files and the output stream, as opposed to calls
    to the network, the timers, the terminal and the process. *)
Definition isStorage (e : Event) : bool :=
  match e with
  | Open _ | Write _ | AwaitDrain | Fsync | End_ | SaveState _ | Unlink => true
  | _ => false
  end.

Definition storageEvents (tr : list Event) : list Event :=
  filter isStorage tr.

(** Every accepted chunk was written while the byte count was under
    the limit [B]. *)
Fixpoint allUnder (B : N) (l : Locals) (its : list Iter) : Prop :=
  match its with
  | [] => True
  | it :: rest => l_downloadedBytes l < B /\ allUnder B (stepLocals l it) rest
  end.

(** The offsets committed by [saveState], in order. *)
Fixpoint savedOffsets (tr : list Event) : list N :=
  match tr with
  | [] => []
  | SaveState s :: rest => offset s :: savedOffsets rest
  | _ :: rest => savedOffsets rest
  end.

Fixpoint nondecreasing (xs : list N) : bool :=
  match xs with
  | x :: ((y :: _) as rest) => (x <=? y) && nondecreasing rest
  | _ => true
  end.

(** Every commit of an offset finds the bytes written before it
    flushed: no [Write] since the last [Fsync]. *)
Fixpoint flushedBeforeCommit (dirty : bool) (tr : list Event) : bool :=
  match tr with
  | [] => true
  | Write _ :: rest => flushedBeforeCommit true rest
  | Fsync :: rest => flushedBeforeCommit false rest
  | SaveState _ :: rest => negb dirty && flushedBeforeCommit dirty rest
  | _ :: rest => flushedBeforeCommit dirty rest
  end.

(** *** The shape of a run *)

(** The offset a run starts from: the loaded one, except that
    [download.js] starts from 0 when the output file is missing. *)
Definition startOf (v : Script) (f : FS) : N :=
  match v with
  | download_js =>
      if (0 <? resumeOffset f)
         && match FILE_PATH f with None => true | Some _ => false end
      then 0
      else resumeOffset f
  | limited_js => resumeOffset f
  end.

(** The output file when the loop starts: a lone opening bracket on a
    start from 0, otherwise what was on disk (nothing if the file was
    missing). *)
Definition openedFile (f : FS) (start : N) : string :=
  if start =? 0 then "["
  else match FILE_PATH f with Some c => c | None => EmptyString end.

Definition openedFS (f : FS) (start : N) : FS :=
  {| STATE_FILE := STATE_FILE f; FILE_PATH := Some (openedFile f start) |}.

Definition startLocals (f : FS) (start : N) : Locals :=
  {| l_offset := start;
     l_downloadedBytes := N.of_nat (String.length (openedFile f start));
     l_isFirstChunk := start =? 0 |}.

Definition openEvents (start : N) : list Event :=
  Open (if start =? 0 then flag_w else flag_a)
  :: (if start =? 0 then [Write "["] else []).

Definition outcomeOf (v : Script) (e : LoopExit) (final : N) (total : jsint)
    : Outcome :=
  match e with
  | Thrown _ | OutOfFuel => Failed
  | _ =>
      match v with
      | download_js => Completed
      | limited_js => if ge_total final total then Completed else Paused
      end
  end.

Definition unlinkEvents (g : FS) : list Event :=
  match STATE_FILE g with Some _ => [Unlink] | None => [] end.

(** The files and the storage events after the loop, by outcome; [st]
    is the state at the exit of the loop, [g] the files. *)
Definition closeFS (v : Script) (o : Outcome) (st : DownloadState) (g : FS)
    : FS :=
  match o, v with
  | Completed, _ =>
      {| STATE_FILE := None;
         FILE_PATH :=
           Some (match FILE_PATH g with
                 | Some c => c ++ "]"
                 | None => "]"
                 end) |}
  | Failed, limited_js =>
      {| STATE_FILE := Some (Json st); FILE_PATH := FILE_PATH g |}
  | _, _ => g
  end.

Definition closeEvents (v : Script) (o : Outcome) (st : DownloadState)
    (g : FS) : list Event :=
  match v, o with
  | download_js, Completed => [Write "]"; End_] ++ unlinkEvents g
  | download_js, _ => [End_]
  | limited_js, Completed => [Write "]"] ++ unlinkEvents g ++ [End_]
  | limited_js, Paused => [End_]
  | limited_js, Failed => [SaveState st; End_]
  end.

(** A run that returned [s] in the world [w'] went through the
    accepted chunks [its]. *)
Definition RunFacts (v : Script) (f : FS) (s : Summary) (w' : World)
    (its : list Iter) : Prop :=
  let start := startOf v f in
  let l0 := startLocals f start in
  let l1 := afterLocals l0 its in
  let lim := sizeLimitBytes s in
  let g := afterFS lim l0 (openedFS f start) its in
  let st := {| offset := l_offset l1; limitBytes := lim |} in
  (startOffset s = start
   /\ startBytes s = l_downloadedBytes l0
   /\ finalOffset s = l_offset l1
   /\ finalBytes s = l_downloadedBytes l1)
  /\ outcome s = outcomeOf v (exit s) (l_offset l1) (totalRecords s)
  /\ fs w' = closeFS v (outcome s) st g
  /\ storageEvents (trace w')
     = (openEvents start ++ loopEvents lim l0 its
        ++ closeEvents v (outcome s) st g)%list
  /\ Forall (fun it => page it <> []) its
  /\ (forall B, lim = Some B -> allUnder B l0 its)
  /\ match exit s with
     | CondFalse => lt_total (l_offset l1) (totalRecords s) = false
     | EmptyPage | Thrown _ => lt_total (l_offset l1) (totalRecords s) = true
     | LimitHit =>
         lt_total (l_offset l1) (totalRecords s) = true
         /\ exists B, lim = Some B /\ B <= l_downloadedBytes l1
     | OutOfFuel => False
     end.

(** World updates used in the statements. *)
Definition logged (w : World) (ms : list Msg) : World :=
  {| fs := fs w; tick := tick w; trace := trace w;
     console := console w ++ ms |}.

Definition moved (w : World) (f : FS) (n : nat) (evs : list Event)
    (ms : list Msg) : World :=
  {| fs := f; tick := (tick w + n)%nat; trace := trace w ++ evs;
     console := console w ++ ms |}.

Definition advanced (w : World) (n : nat) (evs : list Event) (ms : list Msg)
    : World :=
  moved w (fs w) n evs ms.

(** ** Mock environments *)

Definition row (text : string) : record := {| json := text; count := None |}.

Definition countRow (c : string) : record := {| json := EmptyString; count := Some c |}.

Definition requestedOffset (req : Request) : N :=
  match params req with
  | [_; (_, PNum o); _] => o
  | _ => 0
  end.

(** A remote dataset [ds] served in pages of [pageSize] rows, whose
    count query answers [cnt]; what the user types at tick [t] is the
    [t]-th of [answers], after which the input ends (in the version
    with a byte budget the questions come before any request), the
    stream always accepts more, and [pf] stands for [parseFloat]. *)
Definition mockEnv (ds : list record) (pageSize : nat) (cnt : Response)
    (answers : list string) (pf : string -> jsnum) : Env :=
  {| axios_get := fun _ req =>
       match params req with
       | [] => cnt
       | _ => Resolved
                (DRows (firstn pageSize
                          (skipn (N.to_nat (requestedOffset req)) ds)))
       end;
     answer := fun t => nth_error answers t;
     canWrite := fun _ => true;
     parseFloat := pf |}.

Definition abc : list record := [row "{a}"; row "{b}"; row "{c}"].

Definition noFloat : string -> jsnum := fun _ => NaNf.

(** ** Vocabulary of the proofs *)

Local Open Scope list_scope.

(** The result of [getDatasetSize] when it falls back, after the
    console lines [ms]. *)
Definition sizeFallback (w : World) (ms : list Msg) : Res jsint * World :=
  (Ok (Int HARDCODED_TOTAL),
   advanced w 1 [Get sizeRequest] (MsgSizeAttempt :: ms ++ [MsgSizeFallback])).

(** The requests and sleeps of a fetch whose first [failures] attempts
    fail. *)
Definition retryEvents (req : Request) (failures : nat) : list Event :=
  match failures with
  | O => [Get req]
  | 1%nat => [Get req; Sleep 2000; Get req]
  | _ => [Get req; Sleep 2000; Get req; Sleep 2000; Get req]
  end.

(** The state [readState] returns on the files [f]. *)
Definition loadedState (f : FS) : DownloadState :=
  match STATE_FILE f with
  | Some (Json s) => s
  | _ => {| offset := 0; limitBytes := None |}
  end.

(** What the exit of the loop says about the locals it leaves. *)
Definition exitFacts (totalRecords : jsint) (sizeLimitBytes : option N)
    (fuel : N) (start : Locals) (e : LoopExit) (l : Locals) : Prop :=
  match e with
  | CondFalse => lt_total (l_offset l) totalRecords = false
  | EmptyPage | Thrown _ => lt_total (l_offset l) totalRecords = true
  | LimitHit =>
      lt_total (l_offset l) totalRecords = true
      /\ exists B, sizeLimitBytes = Some B /\ B <= l_downloadedBytes l
  | OutOfFuel => fuel < fuelFor totalRecords (l_offset start)
  end.

(** [k] turns were taken from offset [o]: each was entered below the
    total and moved the offset. *)
Definition room (totalRecords : jsint) (o k : N) : Prop :=
  match totalRecords with
  | NaN => False
  | Int z => (Z.of_N o + Z.of_N k <= z)%Z
  end.

(** What [p] turns leave: a sequence [its] of accepted chunks, then
    either an exit of the loop, or [p] chunks accepted and room for
    them under the total. *)
Definition TurnsPost (env : Env) (timeout : N) (lim : option N)
    (totalRecords : jsint) (sizeLimitBytes : option N) (k : N)
    (l : Locals) (w : World)
    (res : Res (LoopExit * Locals + Locals) * World) : Prop :=
  exists its n evs ms,
    snd res = moved w (afterFS lim l (fs w) its) n evs ms
    /\ storageEvents evs = loopEvents lim l its
    /\ Forall (fun it => page it <> []) its
    /\ (forall B, sizeLimitBytes = Some B -> allUnder B l its)
    /\ ((exists e,
            fst res = Ok (inl (e, afterLocals l its))
            /\ exitFacts totalRecords sizeLimitBytes 0 l e (afterLocals l its)
            /\ e <> OutOfFuel)
        \/ (fst res = Ok (inr (afterLocals l its))
            /\ N.of_nat (length its) = k
            /\ room totalRecords (l_offset l) k)).

(** A run that stops at the prompt: the user declined, or the input
    ended. *)
Definition atPrompt {A} (r : Res A) : Prop := r = Exit 0 \/ r = Pending.

Definition isNil {A} (xs : list A) : bool :=
  match xs with [] => true | _ => false end.

(** Every [Write] of the trace carries at most [W] bytes. *)
Definition writesAtMost (W : N) (tr : list Event) : bool :=
  forallb (fun e => match e with
                    | Write d => N.of_nat (String.length d) <=? W
                    | _ => true
                    end) tr.

(** The closing bracket of a completed run. *)
Definition closing (o : Outcome) : string :=
  match o with Completed => "]" | _ => EmptyString end.

(** The pages [pages] are pages the outside served, each for its
    offset, the first of them for offset [o]: no page is empty, and
    each was the answer of one of [envs] to a request for the page at
    the number of records before it. *)
Fixpoint assembled (envs : list Env) (o : N) (pages : list (list record))
    : Prop :=
  match pages with
  | [] => True
  | p :: rest =>
      p <> []
      /\ (exists env t timeout,
             In env envs
             /\ axios_get env t (pageRequest timeout o) = Resolved (DRows p))
      /\ assembled envs (o + N.of_nat (length p)) rest
  end.

(** Files a run can resume from: when the state record holds a
    positive offset, the output file is an opening bracket and that
    many joined records. *)
Definition wellFormed (f : FS) : Prop :=
  resumeOffset f = 0
  \/ exists rs,
       FILE_PATH f = Some ("[" ++ render (joined rs))%string
       /\ N.of_nat (length rs) = resumeOffset f.

(** The file left by the run that returned [s]: joined records, as
    many as the final offset, closed if the run completed. *)
Definition fileOf (f : FS) (s : Summary) : Prop :=
  exists rs,
    FILE_PATH f
    = Some ("[" ++ render (joined rs) ++ closing (outcome s))%string
    /\ N.of_nat (length rs) = finalOffset s.



(** ** Mock data *)

(** A mock [parseFloat]: the texts of a table, NaN elsewhere. *)
Fixpoint floatTable (tbl : list (string * Q)) (s : string) : jsnum :=
  match tbl with
  | [] => NaNf
  | (k, q) :: rest => if (s =? k)%string then Num q else floatTable rest s
  end.

(** The dataset of three records, with nothing asked of the user. *)
Definition plainEnv : Env :=
  mockEnv abc 2 (Resolved (DRows [countRow "3"])) [] noFloat.

(** The count query answers 3, every page request is rejected. *)
Definition offlineEnv : Env :=
  {| axios_get := fun _ req =>
       match params req with
       | [] => Resolved (DRows [countRow "3"])
       | _ => Rejected "ECONNRESET"
       end;
     answer := fun _ => Some "A";
     canWrite := fun _ => true;
     parseFloat := noFloat |}.

(** The dataset of three records behind a stream whose buffer is
    always full: every write returns false. *)
Definition fullBuffer : Env :=
  {| axios_get := axios_get plainEnv;
     answer := answer plainEnv;
     canWrite := fun _ => false;
     parseFloat := noFloat |}.

(** The user lifts the limit on the dataset of three records. *)
Definition liftLimit : Env :=
  mockEnv abc 2 (Resolved (DRows [countRow "3"])) ["A"] noFloat.

(** The user answers [n], with blanks around, to the first question. *)
Definition sayNo : Env :=
  mockEnv abc 2 (Resolved (DRows [countRow "3"])) [" n "] noFloat.

(** The user sets a limit of 3 bytes (0.000000003 GB) on a dataset of
    three records served in pages of two. *)
Definition threeByteLimit : Env :=
  mockEnv abc 2 (Resolved (DRows [countRow "3"])) ["L"; "0.000000003"]
    (floatTable [("0.000000003", 3 # 1000000000)]).

(** A dataset of one record, downloaded from scratch with a limit of 2
    bytes. *)
Definition twoByteLimit : Env :=
  mockEnv [row "{a}"] 2 (Resolved (DRows [countRow "1"]))
    ["L"; "0.000000002"] (floatTable [("0.000000002", 2 # 1000000000)]).

(** Three records, two of them nine bytes long. *)
Definition longRows : list record :=
  [row "{aaaaaaa}"; row "{bbbbbbb}"; row "{c}"].

(** An earlier unlimited run left two records, 20 bytes; the user now
    sets a limit of 5 bytes. *)
Definition lateLimit : Env :=
  mockEnv longRows 2 (Resolved (DRows [countRow "3"])) ["L"; "0.000000005"]
    (floatTable [("0.000000005", 5 # 1000000000)]).

(** The files left by an unlimited run that failed after two of the
    long records. *)
Definition twentyBytes : FS :=
  {| STATE_FILE := Some (Json {| offset := 2; limitBytes := None |});
     FILE_PATH := Some "[{aaaaaaa},{bbbbbbb}" |}.

(** The complete file of an earlier run, its state record deleted. *)
Definition completeFile : FS :=
  {| STATE_FILE := None; FILE_PATH := Some "[{a},{b},{c}]" |}.

(** A state record with offset 2 whose output file was removed. *)
Definition orphanState : FS :=
  {| STATE_FILE := Some (Json {| offset := 2; limitBytes := None |});
     FILE_PATH := None |}.

(** Three records on disk beside a state record that counts two: the
    third chunk reached the file, its offset did not reach the state
    file. *)
Definition writtenNotSaved : FS :=
  {| STATE_FILE := Some (Json {| offset := 2; limitBytes := None |});
     FILE_PATH := Some "[{a},{b},{c}" |}.

(** Two records on disk, 9 bytes, saved with a limit of 5 bytes. *)
Definition limitReached : FS :=
  {| STATE_FILE := Some (Json {| offset := 2; limitBytes := Some 5 |});
     FILE_PATH := Some "[{a},{b}" |}.

(** ** Vocabulary of the further properties *)

Definition timeoutOf (v : Script) : N :=
  match v with download_js => 45000 | limited_js => 60000 end.

(** The calls of a turn that accepts the chunk [snd t] after
    [fst t] failed attempts. *)
Definition turnEvents (timeout : N) (lim : option N) (l : Locals)
    (t : nat * Iter) : list Event :=
  retryEvents (pageRequest timeout (l_offset l)) (fst t)
  ++ iterEvents lim l (snd t).

Fixpoint turnsEvents (timeout : N) (lim : option N) (l : Locals)
    (ts : list (nat * Iter)) : list Event :=
  match ts with
  | [] => []
  | t :: rest =>
      turnEvents timeout lim l t
      ++ turnsEvents timeout lim (stepLocals l (snd t)) rest
  end.

(** Every accepted chunk was requested below the total, came after at
    most two failed attempts, and is a page the outside served for the
    offset of its turn. *)
Fixpoint servedTurns (env : Env) (timeout : N) (totalRecords : jsint)
    (l : Locals) (ts : list (nat * Iter)) : Prop :=
  match ts with
  | [] => True
  | t :: rest =>
      lt_total (l_offset l) totalRecords = true
      /\ (fst t <= 2)%nat
      /\ (exists tk,
             axios_get env tk (pageRequest timeout (l_offset l))
             = Resolved (DRows (page (snd t))))
      /\ servedTurns env timeout totalRecords (stepLocals l (snd t)) rest
  end.

(** The calls that take one answer of the outside each. *)
Definition consumesTick (e : Event) : bool :=
  match e with Get _ | Question _ | Write _ => true | _ => false end.

Definition ticksOf (tr : list Event) : nat :=
  length (filter consumesTick tr).

(** The wait for [drain] follows what the stream returned: [t] is the
    tick of the next call and [written] that of the last [Write], as
    long as no request, no question, no wait and no save came after
    it.  A
    wait for [drain] comes only after a write for which the stream
    returned false, and the state is saved after a write only when the
    stream returned true for it, or when [drain] was awaited since. *)
Fixpoint drainAwaited (env : Env) (t : nat) (written : option nat)
    (tr : list Event) : bool :=
  match tr with
  | [] => true
  | Write _ :: rest => drainAwaited env (S t) (Some t) rest
  | Get _ :: rest | Question _ :: rest => drainAwaited env (S t) None rest
  | AwaitDrain :: rest =>
      match written with
      | Some p => negb (canWrite env p)
      | None => false
      end
      && drainAwaited env t None rest
  | SaveState _ :: rest =>
      match written with
      | Some p => canWrite env p
      | None => true
      end
      && drainAwaited env t None rest
  | _ :: rest => drainAwaited env t written rest
  end.

(** The turns [ts], the first of which starts at tick [tk]: in each,
    the failed attempts were rejected, the next answer was the page,
    and the answer after that was what the stream returned for the
    write of the chunk. *)
Fixpoint tickedTurns (env : Env) (timeout : N) (tk : nat) (l : Locals)
    (ts : list (nat * Iter)) : Prop :=
  match ts with
  | [] => True
  | t :: rest =>
      let req := pageRequest timeout (l_offset l) in
      (forall j, (j < fst t)%nat ->
                 exists m, axios_get env (tk + j) req = Rejected m)
      /\ axios_get env (tk + fst t) req = Resolved (DRows (page (snd t)))
      /\ accepted (snd t) = canWrite env (tk + S (fst t))
      /\ tickedTurns env timeout (tk + S (S (fst t)))
           (stepLocals l (snd t)) rest
  end.

(** A request for a page, as opposed to the count query. *)
Definition isPageRequest (e : Event) : bool :=
  match e with Get req => negb (isNil (params req)) | _ => false end.

(** The calls [evs] of the turn that leaves the loop at the locals [l],
    and what was served to it. *)
Definition lastFetch (env : Env) (timeout : N) (l : Locals) (e : LoopExit)
    (evs : list Event) : Prop :=
  let req := pageRequest timeout (l_offset l) in
  let attempts := exists k, (k <= 2)%nat /\ evs = retryEvents req k in
  match e with
  | CondFalse | OutOfFuel => evs = []
  | EmptyPage =>
      attempts /\ exists tk, axios_get env tk req = Resolved (DRows [])
  | LimitHit =>
      attempts
      /\ exists tk rows,
           rows <> [] /\ axios_get env tk req = Resolved (DRows rows)
  | Thrown m =>
      attempts
      /\ exists tk,
           axios_get env tk req = Rejected m
           \/ axios_get env tk req = Resolved DNull
  end.

(** What [k] turns leave, with the requests made. *)
Definition TurnsTrace (env : Env) (timeout : N) (lim : option N)
    (totalRecords : jsint) (sizeLimitBytes : option N) (k : N)
    (l : Locals) (w : World)
    (res : Res (LoopExit * Locals + Locals) * World) : Prop :=
  exists ts n evs ms,
    let its := map snd ts in
    snd res = moved w (afterFS lim l (fs w) its) n evs ms
    /\ Forall (fun it => page it <> []) its
    /\ (forall B, sizeLimitBytes = Some B -> allUnder B l its)
    /\ servedTurns env timeout totalRecords l ts
    /\ tickedTurns env timeout (tick w) l ts
    /\ n = ticksOf evs
    /\ ((exists e last,
            fst res = Ok (inl (e, afterLocals l its))
            /\ evs = turnsEvents timeout lim l ts ++ last
            /\ lastFetch env timeout (afterLocals l its) e last
            /\ exitFacts totalRecords sizeLimitBytes 0 l e (afterLocals l its)
            /\ e <> OutOfFuel)
        \/ (fst res = Ok (inr (afterLocals l its))
            /\ evs = turnsEvents timeout lim l ts
            /\ N.of_nat (length its) = k
            /\ room totalRecords (l_offset l) k)).

Definition isQuestion (e : Event) : bool :=
  match e with Question _ => true | _ => false end.

Definition isPrompt (e : Event) : bool :=
  match e with Question _ | ProcessExit _ => true | _ => false end.

(** What the prompt, started at tick [t0], leaves, by result:
    questions only, all of them answered, when it yields a limit; an
    exit needs a saved limit; it never settles when the input ended at
    the last question it asked. *)
Definition promptPost (env : Env) (t0 : nat) (saved : option N)
    (r : Res (option N)) (evs : list Event) : Prop :=
  match r with
  | Ok _ =>
      forallb isQuestion evs = true /\ (1 <= length evs <= 3)%nat
      /\ forall k, (k < length evs)%nat -> answer env (t0 + k) <> None
  | Exit c =>
      c = 0 /\ saved <> None /\ forallb isPrompt evs = true
      /\ (1 <= length (filter isQuestion evs) <= 2)%nat
  | Pending =>
      forallb isQuestion evs = true /\ (1 <= length evs <= 3)%nat
      /\ answer env (t0 + length evs - 1) = None
  | Throw _ => False
  end.

(** The calls of a run before its loop; [qs] are the questions of the
    prompt. *)
Definition prepareEvents (v : Script) (start : N) (qs : list Event)
    : list Event :=
  match v with
  | download_js => Get sizeRequest :: openEvents start
  | limited_js => qs ++ Get sizeRequest :: openEvents start
  end.

(** A run that returned [s] in the world [w'] went through the turns
    [ts]: the facts of [RunFacts], the pages served, and the whole
    trace. *)
Definition RunTrace (v : Script) (env : Env) (f : FS) (s : Summary)
    (w' : World) (ts : list (nat * Iter)) : Prop :=
  let start := startOf v f in
  let l0 := startLocals f start in
  let its := map snd ts in
  let l1 := afterLocals l0 its in
  let lim := sizeLimitBytes s in
  let g := afterFS lim l0 (openedFS f start) its in
  let st := {| offset := l_offset l1; limitBytes := lim |} in
  RunFacts v f s w' its
  /\ servedTurns env (timeoutOf v) (totalRecords s) l0 ts
  /\ exists qs last,
       forallb isQuestion qs = true
       /\ (length qs <= 3)%nat
       /\ lastFetch env (timeoutOf v) l1 (exit s) last
       /\ trace w'
          = prepareEvents v start qs
            ++ turnsEvents (timeoutOf v) lim l0 ts
            ++ last ++ closeEvents v (outcome s) st g
       /\ tickedTurns env (timeoutOf v)
            (ticksOf (prepareEvents v start qs)) l0 ts.

(** The outside serves the dataset [ds]: a page that comes for offset
    [o] holds the records of [ds] from [o] on, as many as the page size
    of the server allows. *)
Definition serves (env : Env) (ds : list record) : Prop :=
  exists pageSize : nat,
    (0 < pageSize)%nat
    /\ forall t timeout o rows,
         axios_get env t (pageRequest timeout o) = Resolved (DRows rows) ->
         rows = firstn pageSize (skipn (N.to_nat o) ds).

Definition prefixOf (rs ds : list record) : Prop :=
  rs = firstn (length rs) ds.

(** Files a run can resume from, over the dataset [ds]: the records on
    disk are the first ones of [ds], as many as the saved offset. *)
Definition wellFormedOn (ds : list record) (f : FS) : Prop :=
  resumeOffset f = 0
  \/ exists rs,
       prefixOf rs ds
       /\ FILE_PATH f = Some ("[" ++ render (joined rs))%string
       /\ N.of_nat (length rs) = resumeOffset f.

(** The file left by the run that returned [s], over the dataset [ds],
    and what its exit says about the end of the dataset. *)
Definition fileOn (ds : list record) (f : FS) (s : Summary) : Prop :=
  (exists rs,
      prefixOf rs ds
      /\ FILE_PATH f
         = Some ("[" ++ render (joined rs) ++ closing (outcome s))%string
      /\ N.of_nat (length rs) = finalOffset s)
  /\ (outcome s = Completed ->
      exit s = EmptyPage
      \/ lt_total (finalOffset s) (totalRecords s) = false)
  /\ (exit s = EmptyPage -> (length ds <= N.to_nat (finalOffset s))%nat)
  /\ (outcome s = Completed -> STATE_FILE f = None).

(** Nine bytes are on disk under a saved limit of 5 bytes; the user
    adds 3 bytes (0.000000003 GB). *)
Definition addThreeBytes : Env :=
  mockEnv abc 2 (Resolved (DRows [countRow "3"])) [" 0.000000003 "]
    (floatTable [("0.000000003", 3 # 1000000000)]).

(** A download of the three records in three runs: the first stops at
    a limit of 3 bytes, the second finds the network down, the third
    goes to the end. *)
Definition stopAndGo : list (Script * Env) :=
  [(limited_js, threeByteLimit); (download_js, offlineEnv)].

Definition threeRuns : list (Script * Env) :=
  stopAndGo ++ [(download_js, plainEnv)].

(** Four records; the server cuts pages of two. *)
Definition abcd : list record := abc ++ [row "{d}"].

(** The count query reports 3 records while the dataset holds 4. *)
Definition staleCount : Env :=
  mockEnv abcd 2 (Resolved (DRows [countRow "3"])) [] noFloat.

(** Along the trace [tr], every request is the count query or the page
    request for the offset [cur], where [cur] is the offset of the
    latest [saveState] before it (at first, the given one), and every
    sleep lasts 2000 ms. *)
Fixpoint requestsFollowSaves (timeout cur : N) (tr : list Event) : Prop :=
  match tr with
  | [] => True
  | Get req :: rest =>
      (req = sizeRequest \/ req = pageRequest timeout cur)
      /\ requestsFollowSaves timeout cur rest
  | Sleep ms :: rest => ms = 2000 /\ requestsFollowSaves timeout cur rest
  | SaveState st :: rest => requestsFollowSaves timeout (offset st) rest
  | _ :: rest => requestsFollowSaves timeout cur rest
  end.

Fixpoint cursorAfter (cur : N) (tr : list Event) : N :=
  match tr with
  | [] => cur
  | SaveState st :: rest => cursorAfter (offset st) rest
  | _ :: rest => cursorAfter cur rest
  end.

Definition isCountQuery (e : Event) : bool :=
  match e with Get req => isNil (params req) | _ => false end.

(** Three records on disk with the offset 3 saved, the array still
    open. *)
Definition allFetched : FS :=
  {| STATE_FILE := Some (Json {| offset := 3; limitBytes := None |});
     FILE_PATH := Some "[{a},{b},{c}" |}.

(** The user sets a limit of 3 bytes, then every page request is
    rejected. *)
Definition offlineWithLimit : Env :=
  {| axios_get := axios_get offlineEnv;
     answer := fun t => nth_error ["L"; "0.000000003"] t;
     canWrite := fun _ => true;
     parseFloat := floatTable [("0.000000003", 3 # 1000000000)] |}.

(** * Properties *)

(** ** Worlds *)

Lemma world_ext (w1 w2 : World) :
  fs w1 = fs w2 -> tick w1 = tick w2 -> trace w1 = trace w2 ->
  console w1 = console w2 -> w1 = w2.
Proof.
  destruct w1, w2; simpl; intros; subst; reflexivity.
Qed.

Ltac world_eq :=
  apply world_ext; unfold advanced, moved, logged; simpl;
  repeat first [rewrite <- app_assoc | rewrite app_nil_r | progress simpl];
  try reflexivity; try lia.

(** Unfolding of the monad and of the primitives. *)
Ltac munfold :=
  cbv [bind ret tryCatch attempt emit log getFS putFS ask process_exit
       axios_get_ sleep question createWriteStream writer_write awaitDrain
       writer_end existsFile statSize writeState unlinkStateIfExists];
  cbn [fs tick trace console STATE_FILE FILE_PATH].

Lemma advanced_0 (w : World) : advanced w 0 [] [] = w.
Proof. world_eq. Qed.

Lemma advanced_advanced (w : World) n1 n2 e1 e2 m1 m2 :
  advanced (advanced w n1 e1 m1) n2 e2 m2
  = advanced w (n1 + n2) (e1 ++ e2) (m1 ++ m2).
Proof. world_eq. Qed.

(** ** The size oracle *)

(** What [getDatasetSize] returns, by the answer to the count query. *)
Lemma getDatasetSize_cases (env : Env) (w : World) :
  getDatasetSize env w =
  match axios_get env (tick w) sizeRequest with
  | Rejected m => sizeFallback w [MsgSizeFailed m]
  | Resolved (DRows (first :: _)) =>
      match count first with
      | Some c =>
          if (c =? EmptyString)%string then sizeFallback w []
          else (Ok (parseInt c), advanced w 1 [Get sizeRequest] [MsgSizeAttempt])
      | None => sizeFallback w []
      end
  | Resolved _ => sizeFallback w []
  end.
Proof.
  unfold getDatasetSize, sizeFallback; munfold.
  destruct (axios_get env (tick w) sizeRequest) as [m | [ | [ | first rest]]];
    simpl; try solve [f_equal; world_eq].
  destruct (count first) as [c | ]; simpl; try solve [f_equal; world_eq].
  destruct (c =? EmptyString)%string; simpl; f_equal; world_eq.
Qed.

(** The size query never throws, never exits, and touches no file. *)
Lemma getDatasetSize_frame (env : Env) (w : World) :
  exists t ms,
    getDatasetSize env w = (Ok t, advanced w 1 [Get sizeRequest] ms).
Proof.
  rewrite getDatasetSize_cases; unfold sizeFallback.
  destruct (axios_get env (tick w) sizeRequest) as [m | [ | [ | first rest]]];
    try (eexists; eexists; reflexivity).
  destruct (count first) as [c | ]; try (eexists; eexists; reflexivity).
  destruct (c =? EmptyString)%string; eexists; eexists; reflexivity.
Qed.

(** A timeout or network error yields the fallback total. *)
Lemma getDatasetSize_rejected (env : Env) (w : World) (m : string) :
  axios_get env (tick w) sizeRequest = Rejected m ->
  fst (getDatasetSize env w) = Ok (Int HARDCODED_TOTAL).
Proof.
  intros H; rewrite getDatasetSize_cases, H; reflexivity.
Qed.

(** A count that is a decimal numeral is returned as that number. *)
Lemma getDatasetSize_reports_count :
  forall w : World,
    fst (getDatasetSize
           (mockEnv [] 1 (Resolved (DRows [countRow "211670894"])) [] noFloat)
           w)
    = Ok (Int 211670894).
Proof.
  intros w; rewrite getDatasetSize_cases; reflexivity.
Qed.

(** C8, at the failing input: when the count query answers
    [[{"count":"abc"}]], [getDatasetSize] returns NaN (what [parseInt]
    makes of the text), not the fallback total 211670894. *)
Theorem getDatasetSize_non_numeric_count :
  forall w : World,
    getDatasetSize
      (mockEnv [] 1 (Resolved (DRows [countRow "abc"])) [] noFloat) w
    = (Ok NaN, advanced w 1 [Get sizeRequest] [MsgSizeAttempt])
    /\ NaN <> Int HARDCODED_TOTAL.
Proof.
  intros w; split; [ | discriminate].
  rewrite getDatasetSize_cases; reflexivity.
Qed.

(** With a NaN total, [download.js] skips its loop and closes the
    file as complete: resumed at offset 2 of 3 records, it appends the
    closing bracket and deletes the state record. *)
Lemma Download_NaN_total_closes_partial_file :
  exists s w',
    run download_js
      (mockEnv abc 2 (Resolved (DRows [countRow "abc"])) [] noFloat)
      {| STATE_FILE := Some (Json {| offset := 2; limitBytes := None |});
         FILE_PATH := Some "[{a},{b}" |}
    = (Ok s, w')
    /\ totalRecords s = NaN
    /\ outcome s = Completed
    /\ fs w' = {| STATE_FILE := None; FILE_PATH := Some "[{a},{b}]" |}.
Proof.
  do 2 eexists; split; [vm_compute; reflexivity | ].
  repeat split.
Qed.

(** ** Loading the state *)

Lemma readStateOr_cases (zero : DownloadState) (w : World) :
  readStateOr zero w =
  match STATE_FILE (fs w) with
  | None => (Ok zero, w)
  | Some (Garbage _) => (Ok zero, logged w [MsgStateError])
  | Some (Json s) => (Ok s, w)
  end.
Proof.
  unfold readStateOr, logged; munfold.
  destruct (STATE_FILE (fs w)) as [[s | raw] | ]; simpl; try reflexivity.
Qed.

(** C7: [readState] of either script returns the zero-value state
    (offset 0, no limit) when the state file is absent or cannot be
    parsed, in the latter case after logging the corruption; in every
    case it returns a state, it never throws or exits. *)
Theorem readState_zero_when_absent_or_corrupt :
  forall w : World,
    let zero := {| offset := 0; limitBytes := None |} in
    let loaded :=
      match STATE_FILE (fs w) with
      | None => (Ok zero, w)
      | Some (Garbage _) => (Ok zero, logged w [MsgStateError])
      | Some (Json s) => (Ok s, w)
      end in
    Limited.readState w = loaded /\ Download.readState w = loaded.
Proof.
  intros w zero loaded; split; apply readStateOr_cases.
Qed.

(** ** Fetching one page *)

(** The inner loop with three attempts, by the answers to its
    requests. *)
Lemma fetchWithRetries_cases (env : Env) (timeout o : N) (w : World) :
  let req := pageRequest timeout o in
  fetchWithRetries env timeout o 3 w =
  match axios_get env (tick w) req with
  | Resolved d => (Ok d, advanced w 1 (retryEvents req 0) [])
  | Rejected _ =>
      match axios_get env (S (tick w)) req with
      | Resolved d =>
          (Ok d, advanced w 2 (retryEvents req 1) [MsgRetry 1 o])
      | Rejected _ =>
          match axios_get env (S (S (tick w))) req with
          | Resolved d =>
              (Ok d, advanced w 3 (retryEvents req 2)
                       [MsgRetry 1 o; MsgRetry 2 o])
          | Rejected e =>
              (Throw e, advanced w 3 (retryEvents req 2)
                          [MsgRetry 1 o; MsgRetry 2 o])
          end
      end
  end.
Proof.
  intros req.
  unfold fetchWithRetries; munfold; simpl; fold req.
  destruct (axios_get env (tick w) req) as [m1 | d1]; simpl;
    [ | f_equal; world_eq].
  destruct (axios_get env (S (tick w)) req) as [m2 | d2]; simpl;
    [ | f_equal; world_eq].
  destruct (axios_get env (S (S (tick w))) req) as [m3 | d3]; simpl;
    f_equal; world_eq.
Qed.


(** A fetch touches no file, makes only network calls, never exits
    the process, and always settles. *)
Lemma fetch_frame (env : Env) (timeout o : N) (w : World) :
  exists n evs ms,
    snd (fetchWithRetries env timeout o 3 w) = advanced w n evs ms
    /\ storageEvents evs = []
    /\ (forall c, fst (fetchWithRetries env timeout o 3 w) <> Exit c)
    /\ fst (fetchWithRetries env timeout o 3 w) <> Pending.
Proof.
  rewrite fetchWithRetries_cases.
  set (req := pageRequest timeout o).
  destruct (axios_get env (tick w) req);
    [destruct (axios_get env (S (tick w)) req);
     [destruct (axios_get env (S (S (tick w))) req) | ] | ];
    do 3 eexists; simpl; (split; [reflexivity | split; [reflexivity | ]]);
    (split; [intros c | ]); discriminate.
Qed.

(** ** The main loop in closed form *)

Lemma bind_attempt {A B} (m : M A) (k : string + A -> M B) (w : World) :
  bind (attempt m) k w =
  match m w with
  | (Ok a, w') => k (inr a) w'
  | (Throw e, w') => k (inl e) w'
  | (Exit c, w') => (Exit c, w')
  | (Pending, w') => (Pending, w')
  end.
Proof.
  munfold; destruct (m w) as [[a | e | c | ] w']; reflexivity.
Qed.

Lemma storageEvents_app (xs ys : list Event) :
  storageEvents (xs ++ ys) = storageEvents xs ++ storageEvents ys.
Proof. apply filter_app. Qed.

Lemma storageEvents_iter (lim : option N) (l : Locals) (it : Iter) :
  storageEvents (iterEvents lim l it) = iterEvents lim l it.
Proof.
  unfold iterEvents, storageEvents; simpl.
  destruct (accepted it); reflexivity.
Qed.

Lemma moved_moved (w : World) f1 f2 n1 n2 e1 e2 m1 m2 :
  moved (moved w f1 n1 e1 m1) f2 n2 e2 m2
  = moved w f2 (n1 + n2) (e1 ++ e2) (m1 ++ m2).
Proof. world_eq. Qed.

Lemma afterLocals_app (xs ys : list Iter) :
  forall l, afterLocals l (xs ++ ys) = afterLocals (afterLocals l xs) ys.
Proof.
  induction xs as [ | x xs IH]; intros l; [reflexivity | apply IH].
Qed.

Lemma afterFS_app (lim : option N) (xs ys : list Iter) :
  forall l g,
    afterFS lim l g (xs ++ ys)
    = afterFS lim (afterLocals l xs) (afterFS lim l g xs) ys.
Proof.
  induction xs as [ | x xs IH]; intros l g; [reflexivity | apply IH].
Qed.

Lemma loopEvents_app (lim : option N) (xs ys : list Iter) :
  forall l,
    loopEvents lim l (xs ++ ys)
    = loopEvents lim l xs ++ loopEvents lim (afterLocals l xs) ys.
Proof.
  induction xs as [ | x xs IH]; intros l; [reflexivity | ].
  simpl; rewrite IH, <- !app_assoc; reflexivity.
Qed.

Lemma allUnder_app (B : N) (xs ys : list Iter) :
  forall l,
    allUnder B l xs -> allUnder B (afterLocals l xs) ys ->
    allUnder B l (xs ++ ys).
Proof.
  induction xs as [ | x xs IH]; intros l Hx Hy; [exact Hy | ].
  destruct Hx as [H1 H2]; split; [exact H1 | apply IH; assumption].
Qed.

(** One turn: it leaves the loop with the files untouched, or accepts
    one chunk. *)
Lemma iteration_closed (env : Env) (timeout : N) (lim : option N)
    (totalRecords : jsint) (sizeLimitBytes : option N) (l : Locals)
    (w : World) :
  exists n evs ms,
    (exists e,
        iteration env timeout
          (fun o => writeState {| offset := o; limitBytes := lim |})
          totalRecords sizeLimitBytes l w
        = (Ok (inl (e, l)), moved w (fs w) n evs ms)
        /\ storageEvents evs = []
        /\ exitFacts totalRecords sizeLimitBytes 0 l e l
        /\ e <> OutOfFuel)
    \/ (exists it,
           iteration env timeout
             (fun o => writeState {| offset := o; limitBytes := lim |})
             totalRecords sizeLimitBytes l w
           = (Ok (inr (stepLocals l it)),
              moved w (stepFS lim l (fs w) it) n evs ms)
           /\ storageEvents evs = iterEvents lim l it
           /\ page it <> []
           /\ lt_total (l_offset l) totalRecords = true
           /\ (forall B, sizeLimitBytes = Some B -> l_downloadedBytes l < B)).
Proof.
  unfold iteration.
  destruct (lt_total (l_offset l) totalRecords) eqn:Hlt; cbn [negb].
  2:{ exists 0%nat, [], []; left; exists CondFalse; simpl.
      repeat split; auto; [unfold ret; f_equal; world_eq | discriminate]. }
  rewrite bind_attempt.
  destruct (fetch_frame env timeout (l_offset l) w)
    as (n & evs & ms & Hw & Hst & Hex & Hpend).
  destruct (fetchWithRetries env timeout (l_offset l) 3 w)
    as [[d | err | c | ] wf]; simpl in Hw, Hex, Hpend; subst wf.
  4:{ exfalso; apply Hpend; reflexivity. }
  3:{ exfalso; apply (Hex c); reflexivity. }
  2:{ exists n, evs, ms; left; exists (Thrown err); simpl.
      repeat split; auto; discriminate. }
  destruct d as [ | records].
  { exists n, evs, ms; left; exists (Thrown "TypeError"); simpl.
    repeat split; auto; discriminate. }
  destruct records as [ | r records]; cbn [length Nat.eqb].
  { exists n, evs, ms; left; exists EmptyPage; simpl.
    repeat split; auto; discriminate. }
  set (page := r :: records).
  destruct (match sizeLimitBytes with
            | Some limit => limit <=? l_downloadedBytes l
            | None => false
            end) eqn:Hlim.
  { destruct sizeLimitBytes as [B | ]; [ | discriminate].
    exists n, evs, (ms ++ [MsgLimitReached B]); left; exists LimitHit; simpl.
    repeat split; auto; try discriminate.
    - munfold; f_equal; world_eq.
    - exists B; split; auto. apply N.leb_le; exact Hlim. }
  set (it := {| page := page; accepted := canWrite env (tick w + n) |}).
  exists (n + 1)%nat, (evs ++ iterEvents lim l it), ms; right; exists it.
  split; [ | split; [ | split; [ | split]]].
  - munfold. unfold advanced, moved; cbn [fs tick trace console].
    fold page.
    destruct (canWrite env (tick w + n)) eqn:Hcw; munfold;
      f_equal; try reflexivity;
      subst it; unfold stepLocals, stepFS, iterEvents;
      world_eq.
  - rewrite storageEvents_app, Hst, storageEvents_iter; reflexivity.
  - subst it page; simpl; discriminate.
  - reflexivity.
  - intros B HB; rewrite HB in Hlim; apply N.leb_gt in Hlim; exact Hlim.
Qed.

Lemma afterLocals_grows (its : list Iter) :
  Forall (fun it => page it <> []) its ->
  forall l, l_offset l + N.of_nat (length its) <= l_offset (afterLocals l its).
Proof.
  induction 1 as [ | it rest Hp _ IH]; intros l; simpl; [lia | ].
  specialize (IH (stepLocals l it)); cbn [stepLocals l_offset] in IH.
  destruct (page it); [congruence | simpl in IH; lia].
Qed.

Lemma exitFacts_from (t : jsint) (lim : option N) (l l1 l2 : Locals)
    (e : LoopExit) :
  e <> OutOfFuel -> exitFacts t lim 0 l1 e l2 -> exitFacts t lim 0 l e l2.
Proof.
  destruct e; simpl; auto; congruence.
Qed.

Lemma room_add (t : jsint) (its : list Iter) (l : Locals) (k1 k2 : N) :
  Forall (fun it => page it <> []) its ->
  N.of_nat (length its) = k1 ->
  room t (l_offset (afterLocals l its)) k2 ->
  room t (l_offset l) (k1 + k2).
Proof.
  intros Hne Hlen; unfold room; destruct t as [ | z]; [tauto | ].
  pose proof (afterLocals_grows its Hne l); lia.
Qed.

Lemma andThen_post (env : Env) (timeout : N) (lim : option N)
    (totalRecords : jsint) (sizeLimitBytes : option N) (k1 k2 : N)
    (m : M (LoopExit * Locals + Locals))
    (k : Locals -> M (LoopExit * Locals + Locals)) (l : Locals) (w : World) :
  TurnsPost env timeout lim totalRecords sizeLimitBytes k1 l w (m w) ->
  (forall l1 w1,
      TurnsPost env timeout lim totalRecords sizeLimitBytes k2 l1 w1 (k l1 w1)) ->
  TurnsPost env timeout lim totalRecords sizeLimitBytes (k1 + k2) l w
    (andThen m k w).
Proof.
  intros (its & n & evs & ms & Hw & Hst & Hne & Hun & Hres) Hk.
  unfold andThen, bind.
  destruct (m w) as [r w1]; cbn [fst snd] in *; subst w1.
  destruct Hres as [(e & -> & Hex & He) | (-> & Hlen & Hroom)].
  - exists its, n, evs, ms; cbn [fst snd ret].
    repeat split; auto. left; exists e; auto.
  - destruct (Hk (afterLocals l its)
                (moved w (afterFS lim l (fs w) its) n evs ms))
      as (its2 & n2 & evs2 & ms2 & Hw2 & Hst2 & Hne2 & Hun2 & Hres2).
    exists (its ++ its2), (n + n2)%nat, (evs ++ evs2), (ms ++ ms2).
    split; [ | split; [ | split; [ | split]]].
    + rewrite Hw2, moved_moved, afterFS_app; reflexivity.
    + rewrite storageEvents_app, Hst, Hst2, loopEvents_app; reflexivity.
    + apply Forall_app; auto.
    + intros B HB; apply allUnder_app; auto.
    + rewrite afterLocals_app.
      destruct Hres2 as [(e & -> & Hex & He) | (-> & Hlen2 & Hroom2)].
      * left; exists e; repeat split; auto.
        eapply exitFacts_from; eauto.
      * right; repeat split.
        -- rewrite length_app; lia.
        -- apply (room_add totalRecords its l k1 k2); auto.
Qed.

Lemma turns_closed (env : Env) (timeout : N) (lim : option N)
    (totalRecords : jsint) (sizeLimitBytes : option N) (p : positive) :
  forall (l : Locals) (w : World),
    TurnsPost env timeout lim totalRecords sizeLimitBytes (Npos p) l w
      (turns env timeout
         (fun o => writeState {| offset := o; limitBytes := lim |})
         totalRecords sizeLimitBytes p l w).
Proof.
  assert (Hone : forall l w,
             TurnsPost env timeout lim totalRecords sizeLimitBytes 1 l w
               (iteration env timeout
                  (fun o => writeState {| offset := o; limitBytes := lim |})
                  totalRecords sizeLimitBytes l w)).
  { intros l w.
    destruct (iteration_closed env timeout lim totalRecords sizeLimitBytes l w)
      as (n & evs & ms & [(e & Hrun & Hst & Hex & He)
                         | (it & Hrun & Hst & Hp & Hlt & Hun)]);
      rewrite Hrun.
    - exists [], n, evs, ms; cbn [fst snd afterFS afterLocals loopEvents].
      repeat split; auto. left; exists e; auto.
    - exists [it], n, evs, ms; cbn [fst snd afterFS afterLocals loopEvents].
      rewrite app_nil_r.
      repeat split; auto.
      right; repeat split; auto.
      unfold room; destruct totalRecords as [ | z]; [discriminate | ].
      simpl in Hlt; apply Z.ltb_lt in Hlt; lia. }
  induction p as [q IH | q IH | ]; intros l w; cbn [turns].
  - replace (N.pos q~1) with (1 + (N.pos q + N.pos q)) by lia.
    apply andThen_post; [apply Hone | ].
    intros l1 w1; apply andThen_post; [apply IH | apply IH].
  - replace (N.pos q~0) with (N.pos q + N.pos q) by lia.
    apply andThen_post; [apply IH | apply IH].
  - apply Hone.
Qed.

(** The loop returns; it leaves the files, the locals and the storage
    events of a sequence [its] of accepted chunks, each of them written
    while the byte count was under the limit. *)
Lemma mainLoop_closed (env : Env) (timeout : N) (lim : option N)
    (totalRecords : jsint) (sizeLimitBytes : option N) :
  forall (fuel : N) (l : Locals) (w : World),
  exists e its n evs ms,
    mainLoop env timeout
      (fun o => writeState {| offset := o; limitBytes := lim |})
      totalRecords sizeLimitBytes fuel l w
    = (Ok (e, afterLocals l its),
       moved w (afterFS lim l (fs w) its) n evs ms)
    /\ storageEvents evs = loopEvents lim l its
    /\ Forall (fun it => page it <> []) its
    /\ (forall B, sizeLimitBytes = Some B -> allUnder B l its)
    /\ exitFacts totalRecords sizeLimitBytes fuel l e (afterLocals l its).
Proof.
  intros [ | p] l w; cbn [mainLoop].
  - exists OutOfFuel, [], 0%nat, [], []; simpl.
    repeat split; auto.
    + unfold ret; f_equal; world_eq.
    + destruct totalRecords; unfold fuelFor; lia.
  - destruct (turns_closed env timeout lim totalRecords sizeLimitBytes p l w)
      as (its & n & evs & ms & Hw & Hst & Hne & Hun & Hres).
    unfold bind.
    destruct (turns env timeout _ totalRecords sizeLimitBytes p l w)
      as [r w1]; cbn [fst snd] in *; subst w1.
    destruct Hres as [(e & -> & Hex & He) | (-> & Hlen & Hroom)].
    + exists e, its, n, evs, ms; cbn [ret].
      repeat split; auto.
      destruct e; simpl in *; auto; congruence.
    + exists OutOfFuel, its, n, evs, ms; cbn [ret].
      repeat split; auto.
      unfold room in Hroom; destruct totalRecords as [ | z]; [tauto | ].
      simpl; lia.
Qed.

Lemma bind_ok {A B} (m : M A) (k : A -> M B) (w w1 : World) (a : A) :
  m w = (Ok a, w1) -> bind m k w = k a w1.
Proof.
  intros H; unfold bind; rewrite H; reflexivity.
Qed.

Lemma exitFacts_enough (t : jsint) (lim : option N) (l0 l1 : Locals)
    (e : LoopExit) :
  exitFacts t lim (fuelFor t (l_offset l0)) l0 e l1 ->
  match e with
  | CondFalse => lt_total (l_offset l1) t = false
  | EmptyPage | Thrown _ => lt_total (l_offset l1) t = true
  | LimitHit =>
      lt_total (l_offset l1) t = true
      /\ exists B, lim = Some B /\ B <= l_downloadedBytes l1
  | OutOfFuel => False
  end.
Proof.
  destruct e; simpl; auto. intros H; lia.
Qed.

Lemma readStateOr_frame (w : World) :
  exists ms,
    readStateOr {| offset := 0; limitBytes := None |} w
    = (Ok (loadedState (fs w)), logged w ms).
Proof.
  rewrite readStateOr_cases; unfold loadedState.
  destruct (STATE_FILE (fs w)) as [[s | raw] | ].
  - exists []; f_equal; world_eq.
  - exists [MsgStateError]; reflexivity.
  - exists []; f_equal; world_eq.
Qed.

Lemma loadedState_offset (f : FS) : offset (loadedState f) = resumeOffset f.
Proof.
  unfold loadedState, resumeOffset.
  destruct (STATE_FILE f) as [[s | raw] | ]; reflexivity.
Qed.

(** [download.js] up to the loop: it never fails, and enters the loop
    on the opened file with the byte count of that file. *)
Lemma Download_prepare (env : Env) (f : FS) :
  exists t n evs ms,
    Download.prepare env (boot f)
    = (Ok (t, startLocals f (startOf download_js f)),
       moved (boot f) (openedFS f (startOf download_js f)) n evs ms)
    /\ storageEvents evs = openEvents (startOf download_js f).
Proof.
  unfold Download.prepare.
  destruct (getDatasetSize_frame env (boot f)) as (t & ms & Hsz).
  rewrite (bind_ok _ _ _ _ _ Hsz).
  destruct (readStateOr_frame (advanced (boot f) 1 [Get sizeRequest] ms))
    as (ms2 & Hrd).
  unfold Download.readState.
  rewrite (bind_ok _ _ _ _ _ Hrd).
  rewrite loadedState_offset.
  unfold startLocals, openedFS, openedFile, startOf, openEvents.
  munfold.
  cbn [fs tick trace console advanced moved boot logged].
  assert (Hdone : forall (L : Locals) (W : World) n evs ms',
             L = startLocals f (startOf download_js f) ->
             W = moved (boot f) (openedFS f (startOf download_js f)) n evs ms' ->
             storageEvents evs = openEvents (startOf download_js f) ->
             exists t0 n0 evs0 ms0,
               (Ok (t, L), W)
               = (Ok (t0, startLocals f (startOf download_js f)),
                  moved (boot f) (openedFS f (startOf download_js f))
                    n0 evs0 ms0)
               /\ storageEvents evs0 = openEvents (startOf download_js f)).
  { intros L W n evs ms' -> -> Hst. exists t, n, evs, ms'; split; auto. }
  unfold startLocals, openedFS, openedFile, startOf, openEvents in *.
  destruct (FILE_PATH f) as [c | ] eqn:HF; cbn [negb andb] in *;
    rewrite ?andb_false_r, ?andb_true_r in *.
  - destruct (resumeOffset f =? 0) eqn:E0.
    + apply N.eqb_eq in E0; rewrite E0 in *; simpl in *.
      eapply Hdone; [reflexivity | world_eq | reflexivity].
    + destruct (0 <? resumeOffset f) eqn:E1;
        [ | apply N.ltb_ge in E1; apply N.eqb_neq in E0; lia].
      simpl in *; rewrite ?HF, ?E0, ?E1 in *; simpl in *.
      eapply Hdone; [reflexivity | world_eq | reflexivity].
  - destruct (0 <? resumeOffset f) eqn:E1; simpl in *.
    + eapply Hdone; [reflexivity | world_eq | reflexivity].
    + apply N.ltb_ge in E1.
      assert (E0 : resumeOffset f = 0) by lia.
      rewrite E0 in *; simpl in *.
      eapply Hdone; [reflexivity | world_eq | reflexivity].
Qed.

(** [download.js] after the loop. *)
Lemma Download_finish (env : Env) (t : jsint) (l0 l : Locals) (e : LoopExit)
    (w : World) :
  e <> OutOfFuel ->
  let o := outcomeOf download_js e (l_offset l) t in
  let st := {| offset := l_offset l; limitBytes := None |} in
  exists n evs ms,
    Download.finish env t l0 (e, l) w
    = (Ok {| outcome := o; exit := e;
             startOffset := l_offset l0; startBytes := l_downloadedBytes l0;
             finalOffset := l_offset l; finalBytes := l_downloadedBytes l;
             totalRecords := t; sizeLimitBytes := None |},
       moved w (closeFS download_js o st (fs w)) n evs ms)
    /\ storageEvents evs = closeEvents download_js o st (fs w).
Proof.
  intros He o st; subst o.
  unfold Download.finish, closeFS, closeEvents, unlinkEvents.
  destruct w as [[sf fp] tk tr co].
  destruct e as [ | | | message | ]; try congruence; munfold; cbn [outcomeOf].
  4: exists 0%nat, [End_],
       [MsgInterrupted message; MsgProgressSaved (l_offset l)].
  1-3: destruct sf as [sf | ];
    [exists 1%nat, [Write "]"; End_; Unlink], [MsgCompleted]
    | exists 1%nat, [Write "]"; End_], [MsgCompleted]].
  all: split; [f_equal; world_eq | reflexivity].
Qed.

Lemma Download_run_facts (env : Env) (f : FS) :
  exists s w' its,
    run download_js env f = (Ok s, w')
    /\ RunFacts download_js f s w' its
    /\ sizeLimitBytes s = None.
Proof.
  unfold run, Download.downloadDataset.
  destruct (Download_prepare env f) as (t & n0 & evs0 & ms0 & Hp & Hs0).
  rewrite (bind_ok _ _ _ _ _ Hp); cbv beta iota.
  set (start := startOf download_js f) in *.
  set (l0 := startLocals f start) in *.
  set (w0 := moved (boot f) (openedFS f start) n0 evs0 ms0) in *.
  destruct (mainLoop_closed env 45000 None t None
              (fuelFor t (l_offset l0)) l0 w0)
    as (e & its & n1 & evs1 & ms1 & Hrun & Hs1 & Hne & Hun & Hex).
  unfold Download.saveState.
  rewrite (bind_ok _ _ _ _ _ Hrun).
  apply exitFacts_enough in Hex.
  assert (He : e <> OutOfFuel) by (intros ->; exact Hex).
  destruct (Download_finish env t l0 (afterLocals l0 its) e
              (moved w0 (afterFS None l0 (fs w0) its) n1 evs1 ms1) He)
    as (n2 & evs2 & ms2 & Hfin & Hs2).
  rewrite Hfin.
  do 2 eexists; exists its; split; [reflexivity | ].
  split; [ | reflexivity].
  unfold RunFacts; cbn [startOffset startBytes finalOffset finalBytes outcome
                        exit totalRecords sizeLimitBytes fs moved trace].
  fold start; fold l0.
  repeat split; auto.
  - subst w0; cbn [trace moved boot fs] in *.
    rewrite !storageEvents_app, Hs0, Hs1, Hs2.
    cbn [storageEvents filter app]; rewrite <- ?app_assoc; reflexivity.
Qed.

(** *** The limit negotiation *)

Lemma advanced_intro (w w' : World) :
  fs w' = fs w ->
  (exists n, tick w' = (tick w + n)%nat) ->
  (exists evs, trace w' = trace w ++ evs /\ storageEvents evs = []) ->
  (exists ms, console w' = console w ++ ms) ->
  exists n evs ms, w' = advanced w n evs ms /\ storageEvents evs = [].
Proof.
  intros Hf (n & Hn) (evs & He & Hs) (ms & Hm).
  exists n, evs, ms; split; [ | exact Hs].
  destruct w'; simpl in *; subst; reflexivity.
Qed.

Ltac frame_tac :=
  apply advanced_intro; cbn [fs tick trace console];
  [ reflexivity
  | first [ exists 0%nat; lia | exists 1%nat; lia | exists 2%nat; lia
          | exists 3%nat; lia | exists 4%nat; lia ]
  | first [ exists []; split; [symmetry; apply app_nil_r | reflexivity]
          | rewrite <- ?app_assoc; eexists; split; reflexivity ]
  | first [ exists []; symmetry; apply app_nil_r
          | rewrite <- ?app_assoc; eexists; reflexivity ] ].

(** The prompt touches no file; it yields a limit, exits with
    status 0, or never settles. *)
Lemma askUserForLimit_frame (env : Env) (cur : N) (saved : option N)
    (w : World) :
  (exists n evs ms,
     snd (Limited.askUserForLimit env cur saved w) = advanced w n evs ms
     /\ storageEvents evs = [])
  /\ ((exists lim, fst (Limited.askUserForLimit env cur saved w) = Ok lim)
      \/ fst (Limited.askUserForLimit env cur saved w) = Exit 0
      \/ fst (Limited.askUserForLimit env cur saved w) = Pending).
Proof.
  unfold Limited.askUserForLimit, Limited.askToExtend, Limited.askNewLimit.
  munfold.
  repeat match goal with
         | |- context [match ?x with _ => _ end] =>
             match type of x with
             | option N => destruct x
             | option string => destruct x
             | bool => destruct x
             | jsnum => destruct x
             end; cbn [fst snd fs tick trace console]
         end.
  all: split;
    [ frame_tac
    | first [ left; eexists; reflexivity
            | right; left; reflexivity
            | right; right; reflexivity ] ].
Qed.

(** *** The version with a byte budget *)

Lemma bind_exit {A B} (m : M A) (k : A -> M B) (w w1 : World) (c : N) :
  m w = (Exit c, w1) -> bind m k w = (Exit c, w1).
Proof.
  intros H; unfold bind; rewrite H; reflexivity.
Qed.

Lemma bind_pending {A B} (m : M A) (k : A -> M B) (w w1 : World) :
  m w = (Pending, w1) -> bind m k w = (Pending, w1).
Proof.
  intros H; unfold bind; rewrite H; reflexivity.
Qed.

Lemma bind_atPrompt {A B} (m : M A) (k : A -> M B) (w w1 : World)
    (r : Res A) :
  m w = (r, w1) -> atPrompt r ->
  exists r' : Res B, bind m k w = (r', w1) /\ atPrompt r'.
Proof.
  intros H [-> | ->].
  - exists (Exit 0); split; [apply (bind_exit _ _ _ _ _ H) | left; reflexivity].
  - exists Pending; split; [apply (bind_pending _ _ _ _ H) | right; reflexivity].
Qed.

Lemma bytesOnDisk_ok (o : N) (w : World) :
  Limited.bytesOnDisk o w
  = (Ok (if 0 <? o then fileSize (fs w) else 0), w).
Proof.
  unfold Limited.bytesOnDisk, fileSize; munfold.
  destruct (0 <? o), (FILE_PATH (fs w)); reflexivity.
Qed.

(** Up to the loop, the script exits at the prompt with the files
    untouched, or enters the loop on the opened file with the byte
    count of that file. *)
Lemma Limited_prepare (env : Env) (f : FS) :
  (exists r w',
     Limited.prepare env (boot f) = (r, w')
     /\ atPrompt r /\ fs w' = f /\ storageEvents (trace w') = [])
  \/ (exists lim t n evs ms,
        Limited.prepare env (boot f)
        = (Ok (lim, t, startLocals f (resumeOffset f)),
           moved (boot f) (openedFS f (resumeOffset f)) n evs ms)
        /\ storageEvents evs = openEvents (resumeOffset f)).
Proof.
  unfold Limited.prepare, Limited.readState.
  destruct (readStateOr_frame (boot f)) as (ms1 & Hrd).
  rewrite (bind_ok _ _ _ _ _ Hrd).
  rewrite (bind_ok _ _ _ _ _ (bytesOnDisk_ok _ _)).
  cbn [fs boot logged]; rewrite loadedState_offset.
  set (w1 := logged (boot f) ms1).
  set (cur := if 0 <? resumeOffset f then fileSize f else 0).
  destruct (askUserForLimit_frame env cur (limitBytes (loadedState f)) w1)
    as ((n & evs & ms & Hw & Hs) & Hres).
  destruct (Limited.askUserForLimit env cur (limitBytes (loadedState f)) w1)
    as [r w2] eqn:Hask; cbn [fst snd] in *; subst w2.
  destruct Hres as [(lim & ->) | [-> | ->]].
  3:{ left; do 2 eexists; split; [apply (bind_pending _ _ _ _ Hask) | ].
      split; [right; reflexivity | ].
      subst w1; simpl; rewrite Hs; split; reflexivity. }
  2:{ left; do 2 eexists; split; [apply (bind_exit _ _ _ _ _ Hask) | ].
      split; [left; reflexivity | ].
      subst w1; simpl; rewrite Hs; split; reflexivity. }
  right.
  rewrite (bind_ok _ _ _ _ _ Hask).
  destruct (getDatasetSize_frame env (advanced w1 n evs ms)) as (t & ms2 & Hsz).
  rewrite (bind_ok _ _ _ _ _ Hsz).
  exists lim, t.
  unfold startLocals, openedFS, openedFile, openEvents.
  subst w1 cur; unfold fileSize; munfold.
  cbn [fs tick trace console advanced moved boot logged].
  destruct (resumeOffset f =? 0) eqn:E0.
  - apply N.eqb_eq in E0; rewrite E0; simpl.
    exists (n + 2)%nat, (evs ++ [Get sizeRequest; Open flag_w; Write "["]),
      (ms1 ++ ms ++ ms2).
    split; [f_equal; world_eq | ].
    rewrite storageEvents_app, Hs; reflexivity.
  - destruct (0 <? resumeOffset f) eqn:E1;
      [ | apply N.ltb_ge in E1; apply N.eqb_neq in E0; lia].
    exists (n + 1)%nat, (evs ++ [Get sizeRequest; Open flag_a]),
      (ms1 ++ ms ++ ms2).
    split.
    + destruct (FILE_PATH f); f_equal; world_eq.
    + rewrite storageEvents_app, Hs; reflexivity.
Qed.

(** The script after the loop. *)
Lemma Limited_finish (env : Env) (lim : option N) (t : jsint) (l0 l : Locals)
    (e : LoopExit) (w : World) :
  e <> OutOfFuel ->
  let o := outcomeOf limited_js e (l_offset l) t in
  let st := {| offset := l_offset l; limitBytes := lim |} in
  exists n evs ms,
    Limited.finish env lim t l0 (e, l) w
    = (Ok {| outcome := o; exit := e;
             startOffset := l_offset l0; startBytes := l_downloadedBytes l0;
             finalOffset := l_offset l; finalBytes := l_downloadedBytes l;
             totalRecords := t; sizeLimitBytes := lim |},
       moved w (closeFS limited_js o st (fs w)) n evs ms)
    /\ storageEvents evs = closeEvents limited_js o st (fs w).
Proof.
  intros He o st; subst o.
  unfold Limited.finish, Limited.saveState, closeFS, closeEvents, unlinkEvents.
  destruct w as [[sf fp] tk tr co].
  destruct e as [ | | | message | ]; try congruence; munfold; cbn [outcomeOf].
  4: exists 0%nat, [SaveState st; End_],
       [MsgInterrupted message; MsgProgressSaved (l_offset l)].
  1-3: destruct (ge_total (l_offset l) t);
    [ destruct sf as [sf | ];
      [ exists 1%nat, [Write "]"; Unlink; End_], [MsgCompleted]
      | exists 1%nat, [Write "]"; End_], [MsgCompleted] ]
    | exists 0%nat, [End_], [MsgPaused (l_offset l)] ].
  all: cbn [fs tick trace console STATE_FILE FILE_PATH];
    split; [f_equal; world_eq | reflexivity].
Qed.

Lemma Limited_run_facts (env : Env) (f : FS) :
  (exists r w',
     run limited_js env f = (r, w')
     /\ atPrompt r /\ fs w' = f /\ storageEvents (trace w') = [])
  \/ (exists s w' its,
        run limited_js env f = (Ok s, w')
        /\ RunFacts limited_js f s w' its).
Proof.
  unfold run, Limited.downloadDataset.
  destruct (Limited_prepare env f)
    as [(r & w' & Hp & Hr & Hfs & Hst)
       | (lim & t & n0 & evs0 & ms0 & Hp & Hs0)].
  { left.
    destruct (bind_atPrompt _
                (fun p : option N * jsint * Locals =>
                   let '(sizeLimitBytes, totalRecords, l0) := p in
                   r <- mainLoop env 60000
                          (fun o => Limited.saveState o sizeLimitBytes)
                          totalRecords sizeLimitBytes
                          (fuelFor totalRecords (l_offset l0)) l0 ;;
                   Limited.finish env sizeLimitBytes totalRecords l0 r)
                _ _ _ Hp Hr) as (r' & Hb & Hr').
    exists r', w'; auto. }
  right.
  rewrite (bind_ok _ _ _ _ _ Hp); cbv beta iota.
  set (start := startOf limited_js f) in *.
  change (resumeOffset f) with start in *.
  set (l0 := startLocals f start) in *.
  set (w0 := moved (boot f) (openedFS f start) n0 evs0 ms0) in *.
  destruct (mainLoop_closed env 60000 lim t lim
              (fuelFor t (l_offset l0)) l0 w0)
    as (e & its & n1 & evs1 & ms1 & Hrun & Hs1 & Hne & Hun & Hex).
  unfold Limited.saveState.
  rewrite (bind_ok _ _ _ _ _ Hrun).
  apply exitFacts_enough in Hex.
  assert (He : e <> OutOfFuel) by (intros ->; exact Hex).
  destruct (Limited_finish env lim t l0 (afterLocals l0 its) e
              (moved w0 (afterFS lim l0 (fs w0) its) n1 evs1 ms1) He)
    as (n2 & evs2 & ms2 & Hfin & Hs2).
  fold (Limited.saveState); unfold Limited.saveState in Hfin.
  rewrite Hfin.
  do 2 eexists; exists its; split; [reflexivity | ].
  unfold RunFacts; cbn [startOffset startBytes finalOffset finalBytes outcome
                        exit totalRecords sizeLimitBytes fs moved trace].
  fold start; fold l0.
  repeat split; auto.
  subst w0; cbn [trace moved boot fs] in *.
  rewrite !storageEvents_app, Hs0, Hs1, Hs2.
  cbn [storageEvents filter app]; rewrite <- ?app_assoc; reflexivity.
Qed.

(** ** Text of the chunks *)

Lemma append_nil_r (s : string) : (s ++ EmptyString)%string = s.
Proof.
  induction s as [ | c s IH]; simpl; [reflexivity | rewrite IH; reflexivity].
Qed.

Lemma append_assoc (a b c : string) :
  ((a ++ b) ++ c)%string = (a ++ (b ++ c))%string.
Proof.
  induction a as [ | x a IH]; simpl; [reflexivity | rewrite IH; reflexivity].
Qed.

Lemma length_append (a b : string) :
  String.length (a ++ b) = (String.length a + String.length b)%nat.
Proof.
  induction a as [ | x a IH]; simpl; [reflexivity | rewrite IH; reflexivity].
Qed.

Lemma render_app (ps qs : list piece) :
  render (ps ++ qs) = (render ps ++ render qs)%string.
Proof.
  induction ps as [ | p ps IH]; simpl; [reflexivity | ].
  rewrite IH, append_assoc; reflexivity.
Qed.

Lemma joined_sepItems (rs : list record) : joined rs = sepItems false rs.
Proof.
  destruct rs as [ | r rs]; [reflexivity | ].
  revert r; induction rs as [ | r' rs IH]; intros r; [reflexivity | ].
  change (joined (r :: r' :: rs)) with (Item r :: Sep :: joined (r' :: rs)).
  rewrite IH; reflexivity.
Qed.

Lemma sepItems_app (lead : bool) (xs ys : list record) :
  sepItems lead (xs ++ ys)
  = sepItems lead xs
    ++ sepItems (lead || negb (match xs with [] => true | _ => false end)) ys.
Proof.
  revert lead; induction xs as [ | x xs IH]; intros lead; simpl.
  - rewrite orb_false_r; reflexivity.
  - rewrite IH, orb_true_r; simpl. rewrite <- app_assoc; simpl.
    destruct xs; reflexivity.
Qed.

(** The [for] loop of a chunk puts a separator before every record but
    the very first of the download. *)
Lemma chunkDataFrom_render (isFirstChunk : bool) (records : list record) :
  forall (i : nat) (acc : string),
    chunkDataFrom isFirstChunk i records acc
    = (acc ++ render (sepItems (negb isFirstChunk || (0 <? i)%nat) records))%string.
Proof.
  induction records as [ | r rest IH]; intros i acc; simpl.
  - rewrite append_nil_r; reflexivity.
  - rewrite IH; simpl; rewrite orb_true_r.
    destruct (negb isFirstChunk || (0 <? i)%nat); simpl;
      rewrite ?append_assoc; reflexivity.
Qed.

Lemma chunkData_render (isFirstChunk : bool) (records : list record) :
  chunkData isFirstChunk records
  = render (sepItems (negb isFirstChunk) records).
Proof.
  unfold chunkData; rewrite chunkDataFrom_render; simpl.
  rewrite orb_false_r; reflexivity.
Qed.

(** Appending accepted chunks to joined records gives joined records,
    when the first chunk is flagged as first exactly if nothing was
    there. *)
Lemma chunksText_joined (its : list Iter) :
  Forall (fun it => page it <> []) its ->
  forall prev : list record,
    (render (joined prev) ++ chunksText (isNil prev) its)%string
    = render (joined (prev ++ recordsOf its)).
Proof.
  induction its as [ | it rest IH]; intros Hne prev; simpl.
  - rewrite append_nil_r, app_nil_r; reflexivity.
  - inversion Hne as [ | ? ? Hp Hrest]; subst.
    rewrite <- append_assoc, chunkData_render, <- render_app.
    assert (Hj : joined prev ++ sepItems (negb (isNil prev)) (page it)
                 = joined (prev ++ page it)).
    { rewrite !joined_sepItems, sepItems_app; reflexivity. }
    rewrite Hj.
    assert (Hn : isNil (prev ++ page it) = false).
    { destruct prev; simpl; [ | reflexivity].
      destruct (page it); [congruence | reflexivity]. }
    rewrite <- Hn, (IH Hrest), <- app_assoc; reflexivity.
Qed.



(** ** Locals and files after accepted chunks *)

Lemma afterLocals_offset (its : list Iter) :
  forall l : Locals,
    l_offset (afterLocals l its)
    = l_offset l + N.of_nat (length (recordsOf its)).
Proof.
  induction its as [ | it rest IH]; intros l; simpl; [lia | ].
  rewrite IH, length_app; simpl; lia.
Qed.

Lemma afterLocals_bytes (its : list Iter) :
  forall l : Locals,
    l_downloadedBytes (afterLocals l its)
    = l_downloadedBytes l
      + N.of_nat (String.length (chunksText (l_isFirstChunk l) its)).
Proof.
  induction its as [ | it rest IH]; intros l; simpl; [lia | ].
  rewrite IH, length_append; simpl; lia.
Qed.

Lemma afterFS_file (lim : option N) (its : list Iter) :
  forall (l : Locals) (g : FS) (c : string),
    FILE_PATH g = Some c ->
    FILE_PATH (afterFS lim l g its)
    = Some (c ++ chunksText (l_isFirstChunk l) its)%string.
Proof.
  induction its as [ | it rest IH]; intros l g c Hc; simpl.
  - rewrite append_nil_r; exact Hc.
  - erewrite IH; [ | simpl; rewrite Hc; reflexivity].
    simpl; rewrite append_assoc; reflexivity.
Qed.

Lemma afterFS_state (lim : option N) (its : list Iter) :
  forall (l : Locals) (g : FS),
    STATE_FILE (afterFS lim l g its)
    = match its with
      | [] => STATE_FILE g
      | _ => Some (Json {| offset := l_offset (afterLocals l its);
                           limitBytes := lim |})
      end.
Proof.
  induction its as [ | it rest IH]; intros l g; [reflexivity | ].
  simpl; rewrite IH.
  destruct rest; reflexivity.
Qed.

(** ** Facts about every run *)

Lemma run_cases (v : Script) (env : Env) (f : FS) :
  (v = limited_js
   /\ exists r w',
        run v env f = (r, w')
        /\ atPrompt r /\ fs w' = f /\ storageEvents (trace w') = [])
  \/ (exists s w' its,
        run v env f = (Ok s, w')
        /\ RunFacts v f s w' its
        /\ (v = download_js -> sizeLimitBytes s = None)).
Proof.
  destruct v.
  - right. destruct (Download_run_facts env f) as (s & w' & its & H1 & H2 & H3).
    exists s, w', its; auto.
  - destruct (Limited_run_facts env f)
      as [(r & w' & H1 & H2 & H3) | (s & w' & its & H1 & H2)].
    + left; split; [reflexivity | exists r, w'; auto].
    + right; exists s, w', its.
      split; [exact H1 | split; [exact H2 | discriminate]].
Qed.

Lemma run_ok_facts (v : Script) (env : Env) (f : FS) (s : Summary)
    (w' : World) :
  run v env f = (Ok s, w') ->
  exists its,
    RunFacts v f s w' its /\ (v = download_js -> sizeLimitBytes s = None).
Proof.
  intros Hrun.
  destruct (run_cases v env f)
    as [(_ & r1 & w1 & H1 & Hr & _) | (s1 & w1 & its & H1 & H2 & H3)].
  - rewrite Hrun in H1; injection H1 as <- <-.
    destruct Hr; discriminate.
  - rewrite Hrun in H1; injection H1 as <- <-.
    exists its; auto.
Qed.

Lemma lt_ge_total (o : N) (t : jsint) :
  lt_total o t = true -> ge_total o t = false.
Proof.
  destruct t as [ | z]; simpl; [discriminate | ].
  intros H; apply Z.ltb_lt in H; apply Z.leb_gt; exact H.
Qed.

Lemma In_loopEvents (lim : option N) (e : Event) (its : list Iter) :
  forall l : Locals,
    In e (loopEvents lim l its) ->
    (exists d, e = Write d) \/ e = AwaitDrain \/ (exists st, e = SaveState st).
Proof.
  induction its as [ | it rest IH]; intros l; simpl; [tauto | ].
  intros [H | H]; [left; eexists; symmetry; exact H | ].
  rewrite <- app_assoc in H.
  apply in_app_or in H; destruct H as [H | H].
  - destruct (accepted it); simpl in H; [tauto | ].
    destruct H as [H | []]; right; left; symmetry; exact H.
  - destruct H as [H | H]; [right; right; eexists; symmetry; exact H | ].
    eapply IH; exact H.
Qed.

Lemma In_storageEvents (e : Event) (tr : list Event) :
  isStorage e = true -> In e tr -> In e (storageEvents tr).
Proof.
  intros He Hin; apply filter_In; auto.
Qed.

(** The storage events of a run that does not complete contain no
    [Unlink]. *)
Lemma no_unlink_unless_completed (v : Script) (f : FS) (s : Summary)
    (w' : World) (its : list Iter) :
  RunFacts v f s w' its -> outcome s <> Completed -> ~ In Unlink (trace w').
Proof.
  intros (_ & _ & _ & Htr & _) Ho Hin.
  apply (In_storageEvents Unlink) in Hin; [ | reflexivity].
  rewrite Htr in Hin.
  apply in_app_or in Hin; destruct Hin as [Hin | Hin].
  { unfold openEvents in Hin.
    destruct (startOf v f =? 0); simpl in Hin; intuition discriminate. }
  apply in_app_or in Hin; destruct Hin as [Hin | Hin].
  { apply In_loopEvents in Hin.
    destruct Hin as [(d & H) | [H | (st & H)]]; discriminate. }
  unfold closeEvents in Hin.
  destruct v, (outcome s); simpl in Hin; try congruence;
    intuition discriminate.
Qed.

(** ** Well-formed files *)

Lemma startOf_wellFormed (v : Script) (f : FS) :
  wellFormed f -> startOf v f = resumeOffset f.
Proof.
  intros [H0 | (rs & Hfile & _)]; destruct v; simpl; try reflexivity.
  - rewrite H0; reflexivity.
  - rewrite Hfile, andb_false_r; reflexivity.
Qed.

(** What is on disk when the loop starts is an opening bracket and as
    many joined records as the start offset. *)
Lemma opened_joined (v : Script) (f : FS) :
  wellFormed f ->
  exists prev,
    openedFile f (startOf v f) = ("[" ++ render (joined prev))%string
    /\ N.of_nat (length prev) = startOf v f
    /\ isNil prev = (startOf v f =? 0).
Proof.
  intros Hwf; rewrite (startOf_wellFormed v f Hwf); unfold openedFile.
  destruct (resumeOffset f =? 0) eqn:E0.
  - apply N.eqb_eq in E0; exists []; rewrite E0; repeat split.
  - apply N.eqb_neq in E0.
    destruct Hwf as [H0 | (rs & Hfile & Hlen)]; [congruence | ].
    exists rs; rewrite Hfile; repeat split; [exact Hlen | ].
    destruct rs; [simpl in Hlen; congruence | reflexivity].
Qed.

(** One run keeps the files well formed and leaves joined records. *)
Lemma run_file_shape (v : Script) (f : FS) (s : Summary) (w' : World)
    (its : list Iter) :
  wellFormed f -> RunFacts v f s w' its ->
  fileOf (fs w') s /\ wellFormed (fs w').
Proof.
  intros Hwf HF.
  destruct (opened_joined v f Hwf) as (prev & Hopen & Hlen & Hnil).
  destruct HF as ((_ & _ & Hfo & _) & _ & Hfs & _ & Hne & _).
  set (l0 := startLocals f (startOf v f)) in *.
  set (g := afterFS (sizeLimitBytes s) l0 (openedFS f (startOf v f)) its) in *.
  set (rs := prev ++ recordsOf its).
  assert (Hg : FILE_PATH g = Some ("[" ++ render (joined rs))%string).
  { subst g; erewrite afterFS_file by reflexivity.
    cbn [startLocals l0 l_isFirstChunk]; rewrite Hopen, <- Hnil.
    rewrite append_assoc, (chunksText_joined its Hne prev); reflexivity. }
  assert (Hrs : N.of_nat (length rs) = finalOffset s).
  { rewrite Hfo, afterLocals_offset; subst rs l0; cbn [startLocals l_offset].
    rewrite length_app; lia. }
  assert (Hst : STATE_FILE g = STATE_FILE f /\ its = []
                \/ STATE_FILE g
                   = Some (Json {| offset := finalOffset s;
                                   limitBytes := sizeLimitBytes s |})).
  { subst g; rewrite afterFS_state; cbn [openedFS STATE_FILE].
    destruct its; [left; auto | right; rewrite Hfo; reflexivity]. }
  assert (Hwg : wellFormed g).
  { destruct Hst as [[Hsame ->] | Hsaved].
    - unfold wellFormed, resumeOffset; rewrite Hsame.
      fold (resumeOffset f).
      destruct (N.eq_dec (resumeOffset f) 0) as [E0 | E0]; [left; exact E0 | ].
      right; exists rs; split; [exact Hg | ].
      subst rs; simpl; rewrite app_nil_r, Hlen.
      apply startOf_wellFormed; exact Hwf.
    - right; exists rs; split; [exact Hg | ].
      unfold resumeOffset; rewrite Hsaved; exact Hrs. }
  rewrite Hfs; unfold fileOf.
  destruct (outcome s) eqn:Ho, v; cbn [closeFS closing FILE_PATH]; split;
    try exact Hwg;
    try (left; reflexivity);
    try (exists rs; rewrite Hg, ?append_nil_r, ?append_assoc;
         split; [reflexivity | exact Hrs]).
  right; exists rs; cbn [FILE_PATH]; split; [exact Hg | ].
  unfold resumeOffset; cbn [STATE_FILE offset]; rewrite <- Hfo; exact Hrs.
Qed.

Lemma runAll_invariant (rs : list (Script * Env)) :
  forall (f : FS) (last : option Summary),
    wellFormed f ->
    match last with Some s => fileOf f s | None => True end ->
    wellFormed (fst (runAll rs f last))
    /\ match snd (runAll rs f last) with
       | Some s => fileOf (fst (runAll rs f last)) s
       | None => True
       end.
Proof.
  induction rs as [ | [v env] rest IH]; intros f last Hwf Hlast; [auto | ].
  cbn [runAll].
  destruct (run_cases v env f)
    as [(_ & r1 & w1 & H1 & Hr & Hfs & _) | (s1 & w1 & its & H1 & HF & _)];
    rewrite H1.
  - destruct Hr as [-> | ->]; apply IH; rewrite Hfs; assumption.
  - destruct (run_file_shape v f s1 w1 its Hwf HF) as [Hfile Hwf'].
    apply IH; assumption.
Qed.

(** ** C1: an empty page *)

(** In [download.js] an empty page completes the run: the closing
    bracket is appended, the state record is deleted, and the offset
    is the one at which the page was requested. *)
Lemma Download_empty_page_completes (env : Env) (f : FS) (s : Summary)
    (w' : World) :
  run download_js env f = (Ok s, w') ->
  exit s = EmptyPage ->
  outcome s = Completed
  /\ STATE_FILE (fs w') = None
  /\ (exists c, FILE_PATH (fs w') = Some (c ++ "]")%string)
  /\ In (Write "]") (trace w').
Proof.
  intros Hrun He.
  destruct (run_ok_facts _ _ _ _ _ Hrun) as (its & HF & _).
  destruct HF as (_ & Ho & Hfs & Htr & _).
  rewrite He in Ho; cbn [outcomeOf] in Ho.
  rewrite Ho in Hfs, Htr.
  split; [exact Ho | ].
  rewrite Hfs; simpl. split; [reflexivity | split].
  - destruct (FILE_PATH _) as [c | ]; [exists c | exists EmptyString]; reflexivity.
  - assert (H : In (Write "]") (storageEvents (trace w'))).
    { rewrite Htr. apply in_or_app; right; apply in_or_app; right.
      simpl; auto. }
    apply filter_In in H; tauto.
Qed.

(** In the version with a byte budget an empty page never completes the
    run: the loop is only entered below the total, the offset does not
    move on an empty page, and the closing branch asks for
    [offset >= totalRecords]. *)
Lemma Limited_empty_page_pauses (env : Env) (f : FS) (s : Summary)
    (w' : World) :
  run limited_js env f = (Ok s, w') ->
  exit s = EmptyPage ->
  outcome s = Paused /\ ~ In Unlink (trace w').
Proof.
  intros Hrun He.
  destruct (run_ok_facts _ _ _ _ _ Hrun) as (its & HF & _).
  assert (Ho : outcome s = Paused).
  { destruct HF as (_ & Ho & _ & _ & _ & _ & Hex).
    rewrite He in Ho, Hex; cbn [outcomeOf] in Ho.
    rewrite (lt_ge_total _ _ Hex) in Ho; exact Ho. }
  split; [exact Ho | ].
  eapply no_unlink_unless_completed; [exact HF | congruence].
Qed.

(** C1, at the failing input: the version with a byte budget, started
    in an empty directory on a dataset of three records whose count
    query answers 100, fetches an empty page at offset 3 and ends as
    [Paused]: no closing bracket in the file, the state record still
    there. *)
Theorem empty_page_below_total_is_paused :
  exists s w',
    run limited_js
      (mockEnv abc 2 (Resolved (DRows [countRow "100"])) ["A"] noFloat)
      pristine
    = (Ok s, w')
    /\ exit s = EmptyPage
    /\ finalOffset s = 3
    /\ totalRecords s = Int 100
    /\ outcome s = Paused
    /\ FILE_PATH (fs w') = Some "[{a},{b},{c}"
    /\ STATE_FILE (fs w') = Some (Json {| offset := 3; limitBytes := None |}).
Proof.
  do 2 eexists; split; [vm_compute; reflexivity | ].
  repeat split.
Qed.

(** ** C2: leaving the loop at the limit or on a failed fetch *)

(** What holds of every run: when the loop is left because the byte
    limit is reached or because a fetch failed for good, the run does
    not complete, the output file is the opened file followed by the
    accepted chunks and nothing else (no closing bracket), the state
    record is not deleted, and it holds the offset reached by the last
    accepted chunk; when no chunk was accepted in this run it is as it
    was, or saved again with the same offset.  On well-formed files
    (those runs leave behind) the output file is then an opening
    bracket and as many joined records as the final offset, which is
    the offset the next run loads. *)
Lemma limit_or_failure_keeps_prefix_and_state :
  forall (v : Script) (env : Env) (f : FS) (s : Summary) (w' : World),
    run v env f = (Ok s, w') ->
    exit s = LimitHit \/ (exists m, exit s = Thrown m) ->
    exists its : list Iter,
      let st := {| offset := finalOffset s;
                   limitBytes := sizeLimitBytes s |} in
      outcome s <> Completed
      /\ Forall (fun it => page it <> []) its
      /\ finalOffset s = startOffset s + N.of_nat (length (recordsOf its))
      /\ FILE_PATH (fs w')
         = Some (openedFile f (startOffset s)
                 ++ chunksText (startOffset s =? 0)%N its)%string
      /\ ~ In Unlink (trace w')
      /\ (its <> [] -> STATE_FILE (fs w') = Some (Json st))
      /\ (its = [] ->
          STATE_FILE (fs w') = STATE_FILE f
          \/ STATE_FILE (fs w') = Some (Json st))
      /\ (wellFormed f ->
          resumeOffset (fs w') = finalOffset s
          /\ exists rs,
               FILE_PATH (fs w') = Some ("[" ++ render (joined rs))%string
               /\ N.of_nat (length rs) = finalOffset s).
Proof.
  intros v env f s w' Hrun Hexit.
  destruct (run_ok_facts _ _ _ _ _ Hrun) as (its & HF & Hv).
  exists its.
  assert (Ho : outcome s <> Completed).
  { destruct HF as (_ & Ho & _ & _ & _ & _ & Hex).
    destruct Hexit as [He | (m & He)]; rewrite He in Ho, Hex; cbn [outcomeOf] in Ho;
      [ | congruence].
    destruct Hex as (Hlt & B & HB & _).
    destruct v; [rewrite Hv in HB by reflexivity; discriminate | ].
    rewrite (lt_ge_total _ _ Hlt) in Ho; congruence. }
  pose proof (no_unlink_unless_completed _ _ _ _ _ HF Ho) as Hun.
  assert (Hshape : wellFormed f ->
                   exists rs,
                     FILE_PATH (fs w') = Some ("[" ++ render (joined rs))%string
                     /\ N.of_nat (length rs) = finalOffset s).
  { intros Hwf.
    destruct (run_file_shape v f s w' its Hwf HF) as [(rs & Hfile & Hlen) _].
    exists rs; split; [ | exact Hlen].
    rewrite Hfile; destruct (outcome s); try congruence;
      cbn [closing]; rewrite append_nil_r; reflexivity. }
  destruct HF as ((Hso & _ & Hfo & _) & _ & Hfs & _ & Hne & _).
  rewrite Hfo, afterLocals_offset in Hshape.
  rewrite Hso, Hfo, afterLocals_offset; cbn [startLocals l_offset] in *.
  assert (Hfile : FILE_PATH (fs w')
                  = Some (openedFile f (startOf v f)
                          ++ chunksText (startOf v f =? 0)%N its)%string).
  { rewrite Hfs.
    transitivity (FILE_PATH (afterFS (sizeLimitBytes s)
                               (startLocals f (startOf v f))
                               (openedFS f (startOf v f)) its)).
    - destruct (outcome s), v; try congruence; reflexivity.
    - apply afterFS_file; reflexivity. }
  assert (Hstate :
            STATE_FILE (fs w')
            = STATE_FILE (afterFS (sizeLimitBytes s)
                            (startLocals f (startOf v f))
                            (openedFS f (startOf v f)) its)
            \/ STATE_FILE (fs w')
               = Some (Json {| offset := l_offset (afterLocals
                                            (startLocals f (startOf v f)) its);
                               limitBytes := sizeLimitBytes s |})).
  { rewrite Hfs. destruct (outcome s), v; try congruence; auto. }
  rewrite afterFS_state, afterLocals_offset in Hstate.
  cbn [startLocals l_offset] in Hstate.
  assert (Hresume : wellFormed f ->
                    resumeOffset (fs w')
                    = startOf v f + N.of_nat (length (recordsOf its))).
  { intros Hwf; unfold resumeOffset at 1.
    destruct its as [ | it rest].
    - destruct Hstate as [-> | ->]; [ | reflexivity].
      rewrite (startOf_wellFormed v f Hwf); cbn [openedFS STATE_FILE].
      fold (resumeOffset f); simpl; lia.
    - destruct Hstate as [-> | ->]; reflexivity. }
  split; [exact Ho | ].
  split; [exact Hne | ].
  split; [reflexivity | ].
  split; [exact Hfile | ].
  split; [exact Hun | ].
  split; [intros Hnil; destruct its; [congruence | tauto] | ].
  split; [intros ->; exact Hstate | ].
  intros Hwf; split; [apply Hresume | apply Hshape]; exact Hwf.
Qed.

(** A fresh start with a limit of 3 bytes: one chunk is written, then
    the limit stops the loop. *)
Lemma stop_at_three_bytes :
  exists s w',
    run limited_js threeByteLimit pristine = (Ok s, w')
    /\ exit s = LimitHit
    /\ exists its : list Iter,
      let st := {| offset := finalOffset s;
                   limitBytes := sizeLimitBytes s |} in
      outcome s <> Completed
      /\ Forall (fun it => page it <> []) its
      /\ finalOffset s = startOffset s + N.of_nat (length (recordsOf its))
      /\ FILE_PATH (fs w')
         = Some (openedFile pristine (startOffset s)
                 ++ chunksText (startOffset s =? 0)%N its)%string
      /\ ~ In Unlink (trace w')
      /\ (its <> [] -> STATE_FILE (fs w') = Some (Json st))
      /\ (its = [] ->
          STATE_FILE (fs w') = STATE_FILE pristine
          \/ STATE_FILE (fs w') = Some (Json st))
      /\ (wellFormed pristine ->
          resumeOffset (fs w') = finalOffset s
          /\ exists rs,
               FILE_PATH (fs w') = Some ("[" ++ render (joined rs))%string
               /\ N.of_nat (length rs) = finalOffset s).
Proof.
  do 2 eexists; split; [vm_compute; reflexivity | ].
  split; [reflexivity | ].
  apply (limit_or_failure_keeps_prefix_and_state
           limited_js threeByteLimit pristine).
  - vm_compute; reflexivity.
  - left; reflexivity.
Qed.

(** C2, at the failing input: [download.js] started on a state record
    with offset 2 whose output file was removed, with every page
    request rejected.  The run resets its offset to 0, writes the
    opening bracket, fails on its first fetch and prints that progress
    is saved for a resume from offset 0; it has saved nothing: the
    state record still holds offset 2, next to an output file with no
    record in it.  The next run resumes at offset 2 and completes with
    a file that starts with a separator and lacks two records.  On the
    same input the version with a byte budget saves the offset it
    failed at. *)
Theorem reset_then_failed_fetch_keeps_old_offset :
  exists s w' s2 w2 s3 w3,
    run download_js offlineEnv orphanState = (Ok s, w')
    /\ exit s = Thrown "ECONNRESET"
    /\ outcome s = Failed
    /\ startOffset s = 0
    /\ finalOffset s = 0
    /\ In MsgStateMissingFile (console w')
    /\ In (MsgProgressSaved 0) (console w')
    /\ savedOffsets (trace w') = []
    /\ fs w' = {| STATE_FILE := Some (Json {| offset := 2;
                                              limitBytes := None |});
                  FILE_PATH := Some "[" |}
    /\ resumeOffset (fs w') <> finalOffset s
    /\ run download_js plainEnv (fs w') = (Ok s2, w2)
    /\ startOffset s2 = 2
    /\ outcome s2 = Completed
    /\ FILE_PATH (fs w2) = Some "[,{c}]"
    /\ run limited_js offlineEnv orphanState = (Ok s3, w3)
    /\ outcome s3 = Failed
    /\ savedOffsets (trace w3) = [finalOffset s3].
Proof.
  do 6 eexists.
  split; [vm_compute; reflexivity | ].
  do 4 (split; [reflexivity | ]).
  split; [vm_compute; tauto | ].
  split; [vm_compute; tauto | ].
  split; [reflexivity | ].
  split; [reflexivity | ].
  split; [discriminate | ].
  split; [vm_compute; reflexivity | ].
  do 3 (split; [reflexivity | ]).
  split; [vm_compute; reflexivity | ].
  split; reflexivity.
Qed.

(** ** C3: the limit check *)

Lemma writesAtMost_In (W : N) (tr : list Event) (d : string) :
  writesAtMost W tr = true -> In (Write d) (storageEvents tr) ->
  N.of_nat (String.length d) <= W.
Proof.
  intros HW Hin. apply filter_In in Hin; destruct Hin as [Hin _].
  unfold writesAtMost in HW; rewrite forallb_forall in HW.
  apply HW in Hin; apply N.leb_le; exact Hin.
Qed.

(** Chunks of at most [W] bytes, each written under the limit, keep
    the byte count under [B + W]. *)
Lemma allUnder_bound (lim : option N) (B W : N) (its : list Iter) :
  forall l : Locals,
    (forall d, In (Write d) (loopEvents lim l its) ->
               N.of_nat (String.length d) <= W) ->
    allUnder B l its ->
    l_downloadedBytes l < B + W ->
    l_downloadedBytes (afterLocals l its) < B + W.
Proof.
  induction its as [ | it rest IH]; intros l HW Hunder Hstart; [exact Hstart | ].
  destruct Hunder as [Hl Hrest].
  cbn [afterLocals]; apply IH.
  - intros d Hd; apply HW; cbn [loopEvents].
    apply in_or_app; right; exact Hd.
  - exact Hrest.
  - cbn [stepLocals l_downloadedBytes].
    assert (Hc : N.of_nat (String.length (chunkData (l_isFirstChunk l) (page it)))
                 <= W).
    { apply HW; cbn [loopEvents iterEvents]; left; reflexivity. }
    lia.
Qed.

Lemma allUnder_none (B : N) (its : list Iter) (l : Locals) :
  allUnder B l its -> B <= l_downloadedBytes l -> its = [].
Proof.
  destruct its as [ | it rest]; [reflexivity | ].
  intros [H _] HB; lia.
Qed.

(** The size of the file after a run: the byte count of the loop, and
    one more byte for the closing bracket of a completed run. *)
Lemma run_fileSize (v : Script) (f : FS) (s : Summary) (w' : World)
    (its : list Iter) :
  RunFacts v f s w' its ->
  fileSize (fs w')
  = finalBytes s + (match outcome s with Completed => 1 | _ => 0 end).
Proof.
  intros ((_ & _ & _ & Hfb) & _ & Hfs & _).
  assert (Hg : FILE_PATH (afterFS (sizeLimitBytes s)
                            (startLocals f (startOf v f))
                            (openedFS f (startOf v f)) its)
               = Some (openedFile f (startOf v f)
                       ++ chunksText (startOf v f =? 0)%N its)%string)
    by (apply afterFS_file; reflexivity).
  rewrite Hfb, afterLocals_bytes; cbn [startLocals l_downloadedBytes l_isFirstChunk].
  unfold fileSize; rewrite Hfs.
  destruct (outcome s), v; cbn [closeFS FILE_PATH]; rewrite Hg;
    rewrite ?length_append; simpl String.length; lia.
Qed.

(** C3, as amended: with a byte limit [B], every accepted chunk is
    written while the byte count before it is under [B], and the loop
    is left at the limit, without writing the fetched chunk, when the
    count has reached [B]; if moreover every write carries at most [W]
    bytes and fewer than [B + W] bytes are on disk when the loop
    starts, the byte count when the loop is left is under [B + W].  The
    file holds that many bytes, and one more (the closing bracket) when
    the run completed. *)
Theorem limit_checked_before_each_write :
  forall (env : Env) (f : FS) (s : Summary) (w' : World) (B W : N),
    run limited_js env f = (Ok s, w') ->
    sizeLimitBytes s = Some B ->
    writesAtMost W (trace w') = true ->
    exists its : list Iter,
      allUnder B (startLocals f (startOffset s)) its
      /\ (B <= startBytes s -> its = [])
      /\ finalBytes s
         = startBytes s
           + N.of_nat (String.length
                         (chunksText (startOffset s =? 0) its))
      /\ (exit s = LimitHit ->
          B <= finalBytes s
          /\ FILE_PATH (fs w')
             = Some (openedFile f (startOffset s)
                     ++ chunksText (startOffset s =? 0)%N its)%string)
      /\ (startBytes s < B + W -> finalBytes s < B + W)
      /\ fileSize (fs w')
         = finalBytes s + (match outcome s with Completed => 1 | _ => 0 end).
Proof.
  intros env f s w' B W Hrun HB HW.
  destruct (run_ok_facts _ _ _ _ _ Hrun) as (its & HF & _).
  exists its.
  pose proof (run_fileSize _ _ _ _ _ HF) as Hsize.
  destruct HF as ((Hso & Hsb & Hfo & Hfb) & Ho & Hfs & Htr & Hne & Hun & Hex).
  specialize (Hun B HB).
  rewrite Hso, Hsb, Hfb.
  set (l0 := startLocals f (startOf limited_js f)) in *.
  split; [exact Hun | ].
  split; [intros H; eapply allUnder_none; eauto | ].
  split; [rewrite afterLocals_bytes; reflexivity | ].
  split; [ | split; [ | rewrite <- Hfb; exact Hsize]].
  - intros He; rewrite He in Hex, Ho.
    destruct Hex as (Hlt & B' & HB' & Hle).
    rewrite HB in HB'; injection HB' as <-.
    split; [exact Hle | ].
    cbn [outcomeOf] in Ho; rewrite (lt_ge_total _ _ Hlt) in Ho.
    rewrite Hfs, Ho; cbn [closeFS].
    apply afterFS_file; reflexivity.
  - intros Hstart.
    apply (allUnder_bound (sizeLimitBytes s)); auto.
    intros d Hd; apply (writesAtMost_In W (trace w')); [exact HW | ].
    rewrite Htr; apply in_or_app; right; apply in_or_app; left; exact Hd.
Qed.

(** C3, counterexample: the final size is not always under [B + W].
    First, a limit of 5 bytes set when 20 bytes are already on disk:
    the fetched chunk (4 bytes) is discarded and the file keeps its 20
    bytes.  Second, a limit of 2 bytes and a single chunk of 3 bytes
    that ends the dataset: the closing bracket brings the file to
    5 = 2 + 3 bytes. *)
Lemma final_size_can_reach_limit_plus_chunk :
  (exists s w',
     run limited_js lateLimit twentyBytes = (Ok s, w')
     /\ sizeLimitBytes s = Some 5
     /\ writesAtMost 4 (trace w') = true
     /\ N.of_nat (String.length (chunkData false [row "{c}"])) <= 4
     /\ ~ fileSize (fs w') < 5 + 4)
  /\ (exists s w',
        run limited_js twoByteLimit pristine = (Ok s, w')
        /\ sizeLimitBytes s = Some 2
        /\ writesAtMost 3 (trace w') = true
        /\ ~ fileSize (fs w') < 2 + 3).
Proof.
  split; do 2 eexists; (split; [vm_compute; reflexivity | ]);
    repeat split; vm_compute; congruence.
Qed.

(** The fresh start with a limit of 3 bytes: the file ends with 8
    bytes, under 3 + 7. *)
Lemma witness_eight_bytes_under_ten :
  exists s w',
    run limited_js threeByteLimit pristine = (Ok s, w')
    /\ sizeLimitBytes s = Some 3
    /\ writesAtMost 7 (trace w') = true
    /\ exists its : list Iter,
      allUnder 3 (startLocals pristine (startOffset s)) its
      /\ (3 <= startBytes s -> its = [])
      /\ finalBytes s
         = startBytes s
           + N.of_nat (String.length
                         (chunksText (startOffset s =? 0) its))
      /\ (exit s = LimitHit ->
          3 <= finalBytes s
          /\ FILE_PATH (fs w')
             = Some (openedFile pristine (startOffset s)
                     ++ chunksText (startOffset s =? 0)%N its)%string)
      /\ (startBytes s < 3 + 7 -> finalBytes s < 3 + 7)
      /\ fileSize (fs w')
         = finalBytes s + (match outcome s with Completed => 1 | _ => 0 end).
Proof.
  do 2 eexists; split; [vm_compute; reflexivity | ].
  split; [reflexivity | split; [reflexivity | ]].
  apply (limit_checked_before_each_write threeByteLimit pristine _ _ 3 7);
    vm_compute; reflexivity.
Defined.

(** ** C5: the offset across restarts *)

Lemma savedOffsets_app (xs ys : list Event) :
  savedOffsets (xs ++ ys) = savedOffsets xs ++ savedOffsets ys.
Proof.
  induction xs as [ | e xs IH]; [reflexivity | ].
  destruct e; simpl; rewrite IH; reflexivity.
Qed.

Lemma savedOffsets_storage (tr : list Event) :
  savedOffsets (storageEvents tr) = savedOffsets tr.
Proof.
  induction tr as [ | e tr IH]; [reflexivity | ].
  destruct e; simpl; rewrite ?IH; reflexivity.
Qed.

Lemma savedOffsets_iter (lim : option N) (l : Locals) (it : Iter) :
  savedOffsets (iterEvents lim l it) = [l_offset (stepLocals l it)].
Proof.
  unfold iterEvents; destruct (accepted it); reflexivity.
Qed.

(** The offsets saved by the loop grow, from the start offset on;
    saving the final offset once more keeps them ordered. *)
Lemma savedOffsets_loop (lim : option N) (its : list Iter) :
  forall (l : Locals) (again : bool),
    nondecreasing
      (l_offset l
       :: savedOffsets (loopEvents lim l its)
       ++ (if again then [l_offset (afterLocals l its)] else []))
    = true.
Proof.
  induction its as [ | it rest IH]; intros l again.
  - destruct again; simpl; [ | reflexivity].
    rewrite N.leb_refl; reflexivity.
  - cbn [loopEvents afterLocals].
    rewrite savedOffsets_app, savedOffsets_iter; cbn [app].
    change (nondecreasing (l_offset l :: ?y :: ?r))
      with ((l_offset l <=? y) && nondecreasing (y :: r)).
    rewrite IH, andb_true_r.
    apply N.leb_le; cbn [stepLocals l_offset]; lia.
Qed.

Lemma savedOffsets_close (v : Script) (o : Outcome) (st : DownloadState)
    (g : FS) :
  savedOffsets (closeEvents v o st g)
  = match v, o with
    | limited_js, Failed => [offset st]
    | _, _ => []
    end.
Proof.
  unfold closeEvents, unlinkEvents.
  destruct v, o, (STATE_FILE g); reflexivity.
Qed.

Lemma In_closeEvents (v : Script) (o : Outcome) (st : DownloadState) (g : FS)
    (e : Event) :
  In e (closeEvents v o st g) ->
  e = Write "]" \/ e = End_ \/ e = Unlink \/ e = SaveState st.
Proof.
  unfold closeEvents, unlinkEvents.
  destruct v, o; destruct (STATE_FILE g); simpl; intuition auto.
Qed.

Lemma In_open_w (v : Script) (f : FS) (s : Summary) (w' : World)
    (its : list Iter) :
  RunFacts v f s w' its ->
  (startOffset s = 0 <-> In (Open flag_w) (trace w')).
Proof.
  intros ((Hso & _) & _ & _ & Htr & _); rewrite Hso.
  split.
  - intros H0.
    assert (H : In (Open flag_w) (storageEvents (trace w'))).
    { rewrite Htr, H0; left; reflexivity. }
    apply filter_In in H; tauto.
  - intros Hin; apply (In_storageEvents (Open flag_w)) in Hin; [ | reflexivity].
    rewrite Htr in Hin.
    apply in_app_or in Hin; destruct Hin as [Hin | Hin].
    { unfold openEvents in Hin.
      destruct (startOf v f =? 0) eqn:E0; [apply N.eqb_eq; exact E0 | ].
      simpl in Hin; intuition discriminate. }
    apply in_app_or in Hin; destruct Hin as [Hin | Hin].
    { apply In_loopEvents in Hin.
      destruct Hin as [(d & H) | [H | (st & H)]]; discriminate. }
    apply In_closeEvents in Hin.
    destruct Hin as [H | [H | [H | H]]]; discriminate.
Qed.

(** What holds of every run: the offsets a run saves never decrease,
    starting from the offset it starts with; a run that does not start
    from 0
    starts from the persisted offset, and leaves the state record
    deleted or with an offset at least as large; a run starts from
    offset 0 exactly when it recreates the output file (opens it with
    flag [w]); and a run of [download.js] that finds no output file
    starts from 0, whatever offset it loaded. *)
Lemma offset_monotone_and_zero_iff_recreated :
  forall (v : Script) (env : Env) (f : FS) (s : Summary) (w' : World),
    run v env f = (Ok s, w') ->
    nondecreasing (startOffset s :: savedOffsets (trace w')) = true
    /\ (startOffset s <> 0 ->
        startOffset s = resumeOffset f
        /\ (STATE_FILE (fs w') = None
            \/ resumeOffset f <= resumeOffset (fs w')))
    /\ (startOffset s = 0 <-> In (Open flag_w) (trace w'))
    /\ (v = download_js -> FILE_PATH f = None -> startOffset s = 0).
Proof.
  intros v env f s w' Hrun.
  destruct (run_ok_facts _ _ _ _ _ Hrun) as (its & HF & _).
  pose proof (In_open_w _ _ _ _ _ HF) as Hopen.
  destruct HF as ((Hso & _ & Hfo & _) & _ & Hfs & Htr & _).
  set (l0 := startLocals f (startOf v f)) in *.
  split; [ | split; [ | split; [exact Hopen | ]]].
  - rewrite <- savedOffsets_storage, Htr, !savedOffsets_app, Hso.
    assert (H0 : savedOffsets (openEvents (startOf v f)) = []).
    { unfold openEvents; destruct (startOf v f =? 0); reflexivity. }
    rewrite H0, savedOffsets_close; cbn [app offset].
    change (startOf v f) with (l_offset l0).
    destruct v, (outcome s);
      try apply (savedOffsets_loop _ its l0 false);
      apply (savedOffsets_loop _ its l0 true).
  - intros Hne.
    assert (Hres : startOf v f = resumeOffset f).
    { destruct v; [ | reflexivity]. rewrite Hso in Hne; simpl in *.
      destruct ((0 <? resumeOffset f) && _); congruence. }
    split; [rewrite Hso; exact Hres | ].
    assert (Hle : resumeOffset f <= l_offset (afterLocals l0 its)).
    { rewrite afterLocals_offset; subst l0; cbn [startLocals l_offset]; lia. }
    rewrite Hfs.
    set (g := afterFS (sizeLimitBytes s) l0 (openedFS f (startOf v f)) its).
    assert (Hg : resumeOffset f <= resumeOffset g).
    { unfold resumeOffset at 2; subst g; rewrite afterFS_state.
      destruct its; [apply N.le_refl | exact Hle]. }
    destruct (outcome s), v; cbn [closeFS STATE_FILE]; auto.
  - intros -> Hmissing; rewrite Hso; simpl; rewrite Hmissing.
    destruct (0 <? resumeOffset f) eqn:E; [reflexivity | ].
    apply N.ltb_ge in E; simpl; lia.
Qed.

(** A run of [download.js] on the complete file of an earlier run
    starts from offset 0 and recreates the output file, which
    exists. *)
Lemma offset_zero_with_output_file :
  exists s w',
    run download_js plainEnv completeFile = (Ok s, w')
    /\ ~ (startOffset s = 0 <-> FILE_PATH completeFile = None).
Proof.
  do 2 eexists; split; [vm_compute; reflexivity | ].
  intros [H _]; specialize (H eq_refl); discriminate.
Qed.

Lemma orphan_state_restarts :
  exists s w',
    run download_js plainEnv orphanState = (Ok s, w')
    /\ startOffset s = 0
    /\ FILE_PATH (fs w') = Some "[{a},{b},{c}]"
    /\ (nondecreasing (startOffset s :: savedOffsets (trace w')) = true
        /\ (startOffset s <> 0 ->
            startOffset s = resumeOffset orphanState
            /\ (STATE_FILE (fs w') = None
                \/ resumeOffset orphanState <= resumeOffset (fs w')))
        /\ (startOffset s = 0 <-> In (Open flag_w) (trace w'))
        /\ (download_js = download_js ->
            FILE_PATH orphanState = None -> startOffset s = 0)).
Proof.
  do 2 eexists; split; [vm_compute; reflexivity | ].
  split; [reflexivity | split; [reflexivity | ]].
  apply (offset_monotone_and_zero_iff_recreated download_js plainEnv orphanState).
  vm_compute; reflexivity.
Qed.

(** C5, at the failing input: the version with a byte budget started
    on a state record with offset 2 whose output file was removed, the
    user lifting the limit, on the dataset of three records.  It loads
    the offset 2, finds no output file, and does not reset: it starts
    at offset 2, opens a new file for appending and completes with a
    file that holds a separator, the third record and the closing
    bracket.  On the same files [download.js] warns, resets its offset
    to 0 and downloads the whole dataset. *)
Theorem limited_keeps_offset_when_file_missing :
  exists s w' s0 w0,
    run limited_js liftLimit orphanState = (Ok s, w')
    /\ FILE_PATH orphanState = None
    /\ resumeOffset orphanState = 2
    /\ startOffset s = 2
    /\ ~ In MsgStateMissingFile (console w')
    /\ storageEvents (trace w')
       = [Open flag_a; Write ",{c}";
          SaveState {| offset := 3; limitBytes := None |};
          Write "]"; Unlink; End_]
    /\ outcome s = Completed
    /\ FILE_PATH (fs w') = Some ",{c}]"
    /\ run download_js plainEnv orphanState = (Ok s0, w0)
    /\ startOffset s0 = 0
    /\ In MsgStateMissingFile (console w0)
    /\ In (Open flag_w) (trace w0)
    /\ FILE_PATH (fs w0) = Some "[{a},{b},{c}]".
Proof.
  do 4 eexists.
  split; [vm_compute; reflexivity | ].
  do 3 (split; [reflexivity | ]).
  split; [vm_compute; intuition discriminate | ].
  do 3 (split; [reflexivity | ]).
  split; [vm_compute; reflexivity | ].
  split; [reflexivity | ].
  split; [vm_compute; tauto | ].
  split; [vm_compute; tauto | reflexivity].
Qed.

(** ** C6: what precedes the commit of an offset *)

Lemma flushedBeforeCommit_storage (tr : list Event) :
  forall dirty : bool,
    flushedBeforeCommit dirty (storageEvents tr)
    = flushedBeforeCommit dirty tr.
Proof.
  induction tr as [ | e tr IH]; intros dirty; [reflexivity | ].
  destruct e; simpl; rewrite ?IH; reflexivity.
Qed.

(** The first accepted chunk is written and its offset saved with the
    written bytes not flushed. *)
Lemma flushedBeforeCommit_loop (lim : option N) (l : Locals) (it : Iter)
    (rest : list Iter) (tl : list Event) (dirty : bool) :
  flushedBeforeCommit dirty (loopEvents lim l (it :: rest) ++ tl) = false.
Proof.
  cbn [loopEvents iterEvents]; simpl.
  destruct (accepted it); reflexivity.
Qed.

Lemma no_Fsync_storage (v : Script) (f : FS) (s : Summary) (w' : World)
    (its : list Iter) :
  RunFacts v f s w' its -> ~ In Fsync (trace w').
Proof.
  intros (_ & _ & _ & Htr & _) Hin.
  apply (In_storageEvents Fsync) in Hin; [ | reflexivity].
  rewrite Htr in Hin.
  apply in_app_or in Hin; destruct Hin as [Hin | Hin].
  { unfold openEvents in Hin.
    destruct (startOf v f =? 0); simpl in Hin; intuition discriminate. }
  apply in_app_or in Hin; destruct Hin as [Hin | Hin].
  { apply In_loopEvents in Hin.
    destruct Hin as [(d & H) | [H | (st & H)]]; discriminate. }
  apply In_closeEvents in Hin.
  destruct Hin as [H | [H | [H | H]]]; discriminate.
Qed.

(** C6, counterexample: in a run of [download.js] from scratch the
    offset 2 is saved right after the write of the first chunk, with
    no flush in between. *)
Lemma offset_committed_over_unflushed_bytes :
  exists s w',
    run download_js plainEnv pristine = (Ok s, w')
    /\ storageEvents (trace w')
       = [Open flag_w; Write "["; Write "{a},{b}";
          SaveState {| offset := 2; limitBytes := None |};
          Write ",{c}"; SaveState {| offset := 3; limitBytes := None |};
          Write "]"; End_; Unlink]
    /\ flushedBeforeCommit false (trace w') = false.
Proof.
  do 2 eexists; split; [vm_compute; reflexivity | ].
  split; reflexivity.
Qed.

(** ** C10: leaving at the prompt *)

(** C10: when the saved limit is reached and the user answers [N], or
    anything that is neither [A] nor a positive number, to the
    question of [askToExtend], the process exits with status 0 after
    that one question: the files are as before the run, and the
    output file was never opened, nothing written, no state saved. *)
Theorem exit_at_prompt_leaves_files_untouched :
  forall (env : Env) (f : FS) (st : DownloadState) (saved : N)
         (typed : string),
    STATE_FILE f = Some (Json st) ->
    limitBytes st = Some saved ->
    saved <= (if 0 <? offset st then fileSize f else 0) ->
    answer env 0 = Some typed ->
    let choice := toUpperCase (trim typed) in
    choice = "N"%string
    \/ (choice <> "A"%string /\ notPositive (parseFloat env choice) = true) ->
    exists w',
      run limited_js env f = (Exit 0, w')
      /\ fs w' = f
      /\ trace w' = [Question Limited.extendPrompt; ProcessExit 0].
Proof.
  intros env f st saved typed Hst Hlim Hreached Htyped choice Hchoice.
  assert (Hrd : readStateOr {| offset := 0; limitBytes := None |} (boot f)
                = (Ok st, boot f)).
  { rewrite readStateOr_cases; cbn [fs boot]; rewrite Hst; reflexivity. }
  cut (exists w',
          Limited.prepare env (boot f) = (Exit 0, w')
          /\ fs w' = f
          /\ trace w' = [Question Limited.extendPrompt; ProcessExit 0]).
  { intros (w' & Hp & Hrest); exists w'; split; [ | exact Hrest].
    apply (bind_exit _ _ _ _ _ Hp). }
  unfold Limited.prepare, Limited.readState.
  rewrite (bind_ok _ _ _ _ _ Hrd).
  rewrite (bind_ok _ _ _ _ _ (bytesOnDisk_ok _ _)); cbn [fs boot].
  apply N.ltb_ge in Hreached.
  unfold Limited.askUserForLimit, Limited.askToExtend.
  rewrite Hlim, Hreached.
  munfold; cbn [boot fs tick trace console]; rewrite Htyped; fold choice.
  destruct Hchoice as [HN | [HA Hbad]].
  - rewrite HN; simpl. eexists; split; [reflexivity | ].
    split; reflexivity.
  - destruct (String.eqb_spec choice "N"); simpl.
    { eexists; split; [reflexivity | split; reflexivity]. }
    destruct (String.eqb_spec choice "A"); [contradiction | ].
    rewrite Hbad; simpl.
    eexists; split; [reflexivity | split; reflexivity].
Qed.

Lemma witness_say_no :
  exists w',
    run limited_js sayNo limitReached = (Exit 0, w')
    /\ fs w' = limitReached
    /\ trace w' = [Question Limited.extendPrompt; ProcessExit 0].
Proof.
  apply (exit_at_prompt_leaves_files_untouched sayNo limitReached
           {| offset := 2; limitBytes := Some 5 |} 5 " n ").
  - reflexivity.
  - reflexivity.
  - vm_compute; congruence.
  - reflexivity.
  - left; reflexivity.
Defined.

(** * The whole trace of a run *)

(** ** The turns of the loop, with their requests *)

(** A fetch: which attempt was answered, and with what. *)
Lemma fetch_outcome (env : Env) (timeout o : N) (w : World) :
  let req := pageRequest timeout o in
  exists k ms,
    (k <= 2)%nat
    /\ snd (fetchWithRetries env timeout o 3 w)
       = advanced w (S k) (retryEvents req k) ms
    /\ (forall j, (j < k)%nat ->
                   exists m, axios_get env (tick w + j) req = Rejected m)
    /\ match fst (fetchWithRetries env timeout o 3 w) with
       | Ok d => axios_get env (tick w + k) req = Resolved d
       | Throw m => axios_get env (tick w + k) req = Rejected m
       | Exit _ | Pending => False
       end.
Proof.
  intros req; rewrite fetchWithRetries_cases; fold req.
  replace (S (tick w)) with (tick w + 1)%nat by lia.
  replace (S (tick w + 1)) with (tick w + 2)%nat by lia.
  replace (axios_get env (tick w) req)
    with (axios_get env (tick w + 0) req) by (f_equal; lia).
  destruct (axios_get env (tick w + 0) req) as [m1 | d1] eqn:E1.
  2:{ exists 0%nat, []; cbn [fst snd]; repeat split; [lia | | exact E1].
      intros j Hj; lia. }
  destruct (axios_get env (tick w + 1) req) as [m2 | d2] eqn:E2.
  2:{ exists 1%nat, [MsgRetry 1 o]; cbn [fst snd];
        repeat split; [lia | | exact E2].
      intros j Hj; assert (j = 0)%nat by lia; subst j; eauto. }
  destruct (axios_get env (tick w + 2) req) as [m3 | d3] eqn:E3;
    exists 2%nat, [MsgRetry 1 o; MsgRetry 2 o]; cbn [fst snd];
    (repeat split; [lia | | exact E3]);
    intros j Hj; destruct j as [ | [ | j]]; eauto; lia.
Qed.

Lemma ticksOf_app (xs ys : list Event) :
  ticksOf (xs ++ ys) = (ticksOf xs + ticksOf ys)%nat.
Proof.
  unfold ticksOf; rewrite filter_app, length_app; reflexivity.
Qed.

Lemma ticksOf_retry (req : Request) (k : nat) :
  (k <= 2)%nat -> ticksOf (retryEvents req k) = S k.
Proof.
  destruct k as [ | [ | [ | k]]]; intros H; try reflexivity; lia.
Qed.

Lemma ticksOf_iter (lim : option N) (l : Locals) (it : Iter) :
  ticksOf (iterEvents lim l it) = 1%nat.
Proof.
  unfold iterEvents; destruct (accepted it); reflexivity.
Qed.

Lemma ticksOf_turn (timeout : N) (lim : option N) (l : Locals)
    (t : nat * Iter) :
  (fst t <= 2)%nat -> ticksOf (turnEvents timeout lim l t) = S (S (fst t)).
Proof.
  intros H; unfold turnEvents.
  rewrite ticksOf_app, ticksOf_retry, ticksOf_iter by exact H; lia.
Qed.

Lemma ticksOf_turns (env : Env) (timeout : N) (t : jsint) (lim : option N)
    (ts : list (nat * Iter)) :
  forall l,
    servedTurns env timeout t l ts ->
    forall tk xs,
      tickedTurns env timeout tk l ts ->
      tickedTurns env timeout (tk + ticksOf (turnsEvents timeout lim l ts))
        (afterLocals l (map snd ts)) xs ->
      tickedTurns env timeout tk l (ts ++ xs).
Proof.
  induction ts as [ | t0 rest IH]; intros l Hsv tk xs Hts Hxs.
  - cbn [turnsEvents map afterLocals app] in *.
    replace (tk + ticksOf [])%nat with tk in Hxs by (unfold ticksOf; simpl; lia).
    exact Hxs.
  - destruct Hsv as (_ & Hk & _ & Hsv).
    destruct Hts as (H1 & H2 & H3 & H4).
    cbn [app tickedTurns]; repeat split; auto.
    apply (IH _ Hsv); [exact H4 | ].
    cbn [turnsEvents map afterLocals] in Hxs.
    rewrite ticksOf_app, (ticksOf_turn _ _ _ _ Hk) in Hxs.
    replace (tk + S (S (fst t0))
             + ticksOf (turnsEvents timeout lim (stepLocals l (snd t0)) rest))%nat
      with (tk + (S (S (fst t0))
                  + ticksOf (turnsEvents timeout lim
                               (stepLocals l (snd t0)) rest)))%nat by lia.
    exact Hxs.
Qed.

Lemma storageEvents_retry (req : Request) (k : nat) :
  storageEvents (retryEvents req k) = [].
Proof.
  destruct k as [ | [ | k]]; reflexivity.
Qed.

Lemma storageEvents_turns (timeout : N) (lim : option N)
    (ts : list (nat * Iter)) :
  forall l,
    storageEvents (turnsEvents timeout lim l ts)
    = loopEvents lim l (map snd ts).
Proof.
  induction ts as [ | t rest IH]; intros l; [reflexivity | ].
  cbn [turnsEvents map loopEvents]; unfold turnEvents.
  rewrite !storageEvents_app, storageEvents_retry, storageEvents_iter, IH.
  reflexivity.
Qed.

Lemma turnsEvents_app (timeout : N) (lim : option N)
    (xs ys : list (nat * Iter)) :
  forall l,
    turnsEvents timeout lim l (xs ++ ys)
    = turnsEvents timeout lim l xs
      ++ turnsEvents timeout lim (afterLocals l (map snd xs)) ys.
Proof.
  induction xs as [ | x xs IH]; intros l; [reflexivity | ].
  cbn [app turnsEvents map afterLocals]; rewrite IH, <- !app_assoc.
  reflexivity.
Qed.

Lemma servedTurns_app (env : Env) (timeout : N) (t : jsint)
    (xs ys : list (nat * Iter)) :
  forall l,
    servedTurns env timeout t l xs ->
    servedTurns env timeout t (afterLocals l (map snd xs)) ys ->
    servedTurns env timeout t l (xs ++ ys).
Proof.
  induction xs as [ | x xs IH]; intros l Hx Hy; [exact Hy | ].
  destruct Hx as (H1 & H2 & H3 & H4).
  cbn [app servedTurns]; repeat split; auto.
Qed.

(** One turn, with its requests. *)
Lemma iteration_served (env : Env) (timeout : N) (lim : option N)
    (totalRecords : jsint) (sizeLimitBytes : option N) (l : Locals)
    (w : World) :
  exists n ms,
    (exists e last,
        iteration env timeout
          (fun o => writeState {| offset := o; limitBytes := lim |})
          totalRecords sizeLimitBytes l w
        = (Ok (inl (e, l)), moved w (fs w) n last ms)
        /\ n = ticksOf last
        /\ lastFetch env timeout l e last
        /\ exitFacts totalRecords sizeLimitBytes 0 l e l
        /\ e <> OutOfFuel)
    \/ (exists k it,
           iteration env timeout
             (fun o => writeState {| offset := o; limitBytes := lim |})
             totalRecords sizeLimitBytes l w
           = (Ok (inr (stepLocals l it)),
              moved w (stepFS lim l (fs w) it) n
                (turnEvents timeout lim l (k, it)) ms)
           /\ n = ticksOf (turnEvents timeout lim l (k, it))
           /\ page it <> []
           /\ servedTurns env timeout totalRecords l [(k, it)]
           /\ tickedTurns env timeout (tick w) l [(k, it)]
           /\ (forall B, sizeLimitBytes = Some B -> l_downloadedBytes l < B)).
Proof.
  unfold iteration.
  destruct (lt_total (l_offset l) totalRecords) eqn:Hlt; cbn [negb].
  2:{ exists 0%nat, []; left; exists CondFalse, []; simpl.
      repeat split; auto; [unfold ret; f_equal; world_eq | discriminate]. }
  rewrite bind_attempt.
  destruct (fetch_outcome env timeout (l_offset l) w)
    as (k & ms & Hk & Hw & Hrej & Hres).
  set (req := pageRequest timeout (l_offset l)) in *.
  pose proof (ticksOf_retry req k Hk) as Htk.
  destruct (fetchWithRetries env timeout (l_offset l) 3 w)
    as [[d | err | c | ] wf]; cbn [fst snd] in Hw, Hres; subst wf.
  4:{ contradiction. }
  3:{ contradiction. }
  2:{ exists (S k), ms; left; exists (Thrown err), (retryEvents req k).
      cbn [ret]; repeat split; eauto; discriminate. }
  destruct d as [ | records].
  { exists (S k), ms; left; exists (Thrown "TypeError"), (retryEvents req k).
    cbn [ret]; repeat split; eauto; discriminate. }
  destruct records as [ | r records]; cbn [length Nat.eqb].
  { exists (S k), ms; left; exists EmptyPage, (retryEvents req k).
    cbn [ret]; repeat split; eauto; discriminate. }
  set (pg := r :: records) in *.
  destruct (match sizeLimitBytes with
            | Some limit => limit <=? l_downloadedBytes l
            | None => false
            end) eqn:Hlim.
  { destruct sizeLimitBytes as [B | ]; [ | discriminate].
    exists (S k), (ms ++ [MsgLimitReached B]); left.
    exists LimitHit, (retryEvents req k).
    repeat split; eauto.
    - munfold; f_equal; world_eq.
    - exists (tick w + k)%nat, pg; split; [subst pg; discriminate | exact Hres].
    - exists B; split; auto. apply N.leb_le; exact Hlim.
    - discriminate. }
  set (it := {| page := pg; accepted := canWrite env (tick w + S k) |}).
  exists (S k + 1)%nat, ms; right; exists k, it.
  split; [ | split; [ | split; [ | split; [ | split]]]].
  - munfold. unfold advanced, moved; cbn [fs tick trace console].
    fold pg.
    destruct (canWrite env (tick w + S k)) eqn:Hcw; munfold;
      f_equal; try reflexivity;
      subst it; unfold turnEvents, stepLocals, stepFS, iterEvents;
      cbn [fst snd]; fold req; rewrite ?Hcw; world_eq.
  - rewrite (ticksOf_turn timeout lim l (k, it) Hk); cbn [fst]; lia.
  - subst it pg; simpl; discriminate.
  - cbn [servedTurns fst snd]; repeat split; auto.
    exists (tick w + k)%nat; exact Hres.
  - cbn [tickedTurns fst snd]; fold req; repeat split; auto.
  - intros B HB; rewrite HB in Hlim; apply N.leb_gt in Hlim; exact Hlim.
Qed.

Lemma andThen_trace (env : Env) (timeout : N) (lim : option N)
    (totalRecords : jsint) (sizeLimitBytes : option N) (k1 k2 : N)
    (m : M (LoopExit * Locals + Locals))
    (k : Locals -> M (LoopExit * Locals + Locals)) (l : Locals) (w : World) :
  TurnsTrace env timeout lim totalRecords sizeLimitBytes k1 l w (m w) ->
  (forall l1 w1,
      TurnsTrace env timeout lim totalRecords sizeLimitBytes k2 l1 w1 (k l1 w1)) ->
  TurnsTrace env timeout lim totalRecords sizeLimitBytes (k1 + k2) l w
    (andThen m k w).
Proof.
  intros (ts & n & evs & ms & Hw & Hne & Hun & Hsv & Htk & Hn & Hres) Hk.
  unfold andThen, bind.
  destruct (m w) as [r w1]; cbn [fst snd] in *; subst w1.
  destruct Hres as [(e & last & -> & Hev & Hlast & Hex & He)
                   | (-> & Hev & Hlen & Hroom)].
  - exists ts, n, evs, ms; cbn [fst snd ret].
    repeat split; auto. left; exists e, last; auto.
  - destruct (Hk (afterLocals l (map snd ts))
                (moved w (afterFS lim l (fs w) (map snd ts)) n evs ms))
      as (ts2 & n2 & evs2 & ms2 & Hw2 & Hne2 & Hun2 & Hsv2 & Htk2 & Hn2
          & Hres2).
    exists (ts ++ ts2), (n + n2)%nat, (evs ++ evs2), (ms ++ ms2).
    cbn zeta in *; rewrite map_app.
    split; [ | split; [ | split; [ | split; [ | split; [ | split]]]]].
    + rewrite Hw2, moved_moved, afterFS_app; reflexivity.
    + apply Forall_app; auto.
    + intros B HB; apply allUnder_app; auto.
    + apply servedTurns_app; auto.
    + apply (ticksOf_turns env timeout totalRecords lim ts l Hsv);
        [exact Htk | ].
      cbn [moved tick] in Htk2; rewrite Hn, Hev in Htk2; exact Htk2.
    + rewrite ticksOf_app; lia.
    + rewrite afterLocals_app, turnsEvents_app.
      destruct Hres2 as [(e & last & -> & Hev2 & Hlast & Hex & He)
                        | (-> & Hev2 & Hlen2 & Hroom2)].
      * left; exists e, last; repeat split; auto.
        -- rewrite Hev, Hev2, app_assoc; reflexivity.
        -- eapply exitFacts_from; eauto.
      * right; repeat split.
        -- rewrite Hev, Hev2; reflexivity.
        -- rewrite length_app; lia.
        -- apply (room_add totalRecords (map snd ts) l k1 k2); auto.
Qed.

Lemma turns_trace (env : Env) (timeout : N) (lim : option N)
    (totalRecords : jsint) (sizeLimitBytes : option N) (p : positive) :
  forall (l : Locals) (w : World),
    TurnsTrace env timeout lim totalRecords sizeLimitBytes (Npos p) l w
      (turns env timeout
         (fun o => writeState {| offset := o; limitBytes := lim |})
         totalRecords sizeLimitBytes p l w).
Proof.
  assert (Hone : forall l w,
             TurnsTrace env timeout lim totalRecords sizeLimitBytes 1 l w
               (iteration env timeout
                  (fun o => writeState {| offset := o; limitBytes := lim |})
                  totalRecords sizeLimitBytes l w)).
  { intros l w.
    destruct (iteration_served env timeout lim totalRecords sizeLimitBytes l w)
      as (n & ms & [(e & last & Hrun & Hn & Hlast & Hex & He)
                   | (k & it & Hrun & Hn & Hp & Hsv & Htk & Hun)]);
      rewrite Hrun.
    - exists [], n, last, ms;
        cbn [fst snd map afterFS afterLocals turnsEvents app].
      repeat split; auto. left; exists e, last; auto.
    - exists [(k, it)], n, (turnEvents timeout lim l (k, it)), ms;
        cbn [fst snd map afterFS afterLocals turnsEvents].
      rewrite app_nil_r.
      repeat split; auto; try apply Hsv; try apply Htk.
      right; repeat split; auto.
      destruct Hsv as (Hlt & _).
      unfold room; destruct totalRecords as [ | z]; [discriminate | ].
      simpl in Hlt; apply Z.ltb_lt in Hlt; lia. }
  induction p as [q IH | q IH | ]; intros l w; cbn [turns].
  - replace (N.pos q~1) with (1 + (N.pos q + N.pos q)) by lia.
    apply andThen_trace; [apply Hone | ].
    intros l1 w1; apply andThen_trace; [apply IH | apply IH].
  - replace (N.pos q~0) with (N.pos q + N.pos q) by lia.
    apply andThen_trace; [apply IH | apply IH].
  - apply Hone.
Qed.

(** The loop returns; its calls are those of the accepted turns [ts]
    followed by those of the turn that left it. *)
Lemma mainLoop_trace (env : Env) (timeout : N) (lim : option N)
    (totalRecords : jsint) (sizeLimitBytes : option N) :
  forall (fuel : N) (l : Locals) (w : World),
  exists e ts n last ms,
    mainLoop env timeout
      (fun o => writeState {| offset := o; limitBytes := lim |})
      totalRecords sizeLimitBytes fuel l w
    = (Ok (e, afterLocals l (map snd ts)),
       moved w (afterFS lim l (fs w) (map snd ts)) n
         (turnsEvents timeout lim l ts ++ last) ms)
    /\ Forall (fun it => page it <> []) (map snd ts)
    /\ (forall B, sizeLimitBytes = Some B -> allUnder B l (map snd ts))
    /\ servedTurns env timeout totalRecords l ts
    /\ tickedTurns env timeout (tick w) l ts
    /\ lastFetch env timeout (afterLocals l (map snd ts)) e last
    /\ exitFacts totalRecords sizeLimitBytes fuel l e
         (afterLocals l (map snd ts)).
Proof.
  intros [ | p] l w; cbn [mainLoop].
  - exists OutOfFuel, [], 0%nat, [], []; simpl.
    repeat split; auto.
    + unfold ret; f_equal; world_eq.
    + destruct totalRecords; unfold fuelFor; lia.
  - destruct (turns_trace env timeout lim totalRecords sizeLimitBytes p l w)
      as (ts & n & evs & ms & Hw & Hne & Hun & Hsv & Htk & Hn & Hres).
    unfold bind.
    destruct (turns env timeout _ totalRecords sizeLimitBytes p l w)
      as [r w1]; cbn [fst snd] in *; subst w1.
    destruct Hres as [(e & last & -> & Hev & Hlast & Hex & He)
                     | (-> & Hev & Hlen & Hroom)]; subst evs.
    + exists e, ts, n, last, ms; cbn [ret].
      repeat split; auto.
      destruct e; simpl in *; auto; congruence.
    + exists OutOfFuel, ts, n, [], ms; cbn [ret]; rewrite app_nil_r.
      repeat split; auto.
      unfold room in Hroom; destruct totalRecords as [ | z]; [tauto | ].
      simpl; lia.
Qed.

(** ** The prompt, call by call *)

Lemma advanced_intro_with (P : list Event -> Prop) (w w' : World) :
  fs w' = fs w ->
  (exists evs,
      trace w' = trace w ++ evs
      /\ tick w' = (tick w + ticksOf evs)%nat
      /\ P evs) ->
  (exists ms, console w' = console w ++ ms) ->
  exists evs ms, w' = advanced w (ticksOf evs) evs ms /\ P evs.
Proof.
  intros Hf (evs & He & Hn & Hs) (ms & Hm).
  exists evs, ms; split; [ | exact Hs].
  destruct w'; simpl in *; subst; reflexivity.
Qed.

Ltac answered :=
  let k := fresh "k" in
  let Hk := fresh "Hk" in
  intros k Hk; simpl in Hk;
  destruct k as [ | [ | [ | k]]]; try lia;
  rewrite ?Nat.add_0_r, ?Nat.add_1_r;
  repeat match goal with
         | |- context [(?t + 2)%nat] =>
             replace (t + 2)%nat with (S (S t)) by lia
         end;
  congruence.

Ltac unanswered :=
  simpl;
  repeat match goal with
         | |- context [(?t + 1 - 1)%nat] =>
             replace (t + 1 - 1)%nat with t by lia
         | |- context [(?t + 2 - 1)%nat] =>
             replace (t + 2 - 1)%nat with (S t) by lia
         | |- context [(?t + 3 - 1)%nat] =>
             replace (t + 3 - 1)%nat with (S (S t)) by lia
         end;
  assumption.

Lemma askUserForLimit_questions (env : Env) (cur : N) (saved : option N)
    (w : World) :
  exists evs ms,
    snd (Limited.askUserForLimit env cur saved w)
    = advanced w (ticksOf evs) evs ms
    /\ promptPost env (tick w) saved
         (fst (Limited.askUserForLimit env cur saved w)) evs.
Proof.
  unfold Limited.askUserForLimit, Limited.askToExtend, Limited.askNewLimit.
  munfold.
  repeat match goal with
         | |- context [match ?x with _ => _ end] =>
             match type of x with
             | option N => destruct x
             | option string => destruct x eqn:?
             | bool => destruct x
             | jsnum => destruct x
             end; cbn [fst snd fs tick trace console]
         end.
  all: apply advanced_intro_with; cbn [fs tick trace console];
    [ reflexivity
    | rewrite <- ?app_assoc; eexists;
      split; [reflexivity | split; [unfold ticksOf; simpl; lia | ]];
      cbn [promptPost];
      first [ split; [reflexivity | split; [simpl; lia | ]];
              first [answered | unanswered]
            | split; [reflexivity | split; [discriminate | ]];
              split; [reflexivity | simpl; lia] ]
    | first [ exists []; symmetry; apply app_nil_r
            | rewrite <- ?app_assoc; eexists; reflexivity ] ].
Qed.

(** ** Runs, call by call *)

Lemma Download_prepare_trace (env : Env) (f : FS) :
  exists t ms,
    Download.prepare env (boot f)
    = (Ok (t, startLocals f (startOf download_js f)),
       moved (boot f) (openedFS f (startOf download_js f))
         (ticksOf (Get sizeRequest :: openEvents (startOf download_js f)))
         (Get sizeRequest :: openEvents (startOf download_js f)) ms).
Proof.
  unfold Download.prepare.
  destruct (getDatasetSize_frame env (boot f)) as (t & ms & Hsz).
  rewrite (bind_ok _ _ _ _ _ Hsz).
  destruct (readStateOr_frame (advanced (boot f) 1 [Get sizeRequest] ms))
    as (ms2 & Hrd).
  unfold Download.readState.
  rewrite (bind_ok _ _ _ _ _ Hrd).
  rewrite loadedState_offset.
  unfold startLocals, openedFS, openedFile, startOf, openEvents.
  munfold.
  cbn [fs tick trace console advanced moved boot logged].
  exists t.
  destruct (FILE_PATH f) as [c | ] eqn:HF; cbn [negb andb] in *;
    rewrite ?andb_false_r, ?andb_true_r in *.
  - destruct (resumeOffset f =? 0) eqn:E0.
    + apply N.eqb_eq in E0; rewrite E0 in *; simpl in *.
      eexists; f_equal; apply world_ext; reflexivity.
    + destruct (0 <? resumeOffset f) eqn:E1;
        [ | apply N.ltb_ge in E1; apply N.eqb_neq in E0; lia].
      simpl in *; rewrite ?HF, ?E0, ?E1 in *; simpl in *.
      eexists; f_equal; apply world_ext; reflexivity.
  - destruct (0 <? resumeOffset f) eqn:E1; simpl in *.
    + eexists; f_equal; apply world_ext; reflexivity.
    + apply N.ltb_ge in E1.
      assert (E0 : resumeOffset f = 0) by lia.
      rewrite E0 in *; simpl in *.
      eexists; f_equal; apply world_ext; reflexivity.
Qed.

Lemma Download_finish_trace (env : Env) (t : jsint) (l0 l : Locals)
    (e : LoopExit) (w : World) :
  e <> OutOfFuel ->
  let o := outcomeOf download_js e (l_offset l) t in
  let st := {| offset := l_offset l; limitBytes := None |} in
  exists n ms,
    Download.finish env t l0 (e, l) w
    = (Ok {| outcome := o; exit := e;
             startOffset := l_offset l0; startBytes := l_downloadedBytes l0;
             finalOffset := l_offset l; finalBytes := l_downloadedBytes l;
             totalRecords := t; sizeLimitBytes := None |},
       moved w (closeFS download_js o st (fs w)) n
         (closeEvents download_js o st (fs w)) ms).
Proof.
  intros He o st; subst o.
  unfold Download.finish, closeFS, closeEvents, unlinkEvents.
  destruct w as [[sf fp] tk tr co].
  destruct e as [ | | | message | ]; try congruence; munfold; cbn [outcomeOf].
  4: exists 0%nat, [MsgInterrupted message; MsgProgressSaved (l_offset l)].
  1-3: destruct sf as [sf | ]; exists 1%nat, [MsgCompleted].
  all: f_equal; world_eq.
Qed.

Lemma Limited_finish_trace (env : Env) (lim : option N) (t : jsint)
    (l0 l : Locals) (e : LoopExit) (w : World) :
  e <> OutOfFuel ->
  let o := outcomeOf limited_js e (l_offset l) t in
  let st := {| offset := l_offset l; limitBytes := lim |} in
  exists n ms,
    Limited.finish env lim t l0 (e, l) w
    = (Ok {| outcome := o; exit := e;
             startOffset := l_offset l0; startBytes := l_downloadedBytes l0;
             finalOffset := l_offset l; finalBytes := l_downloadedBytes l;
             totalRecords := t; sizeLimitBytes := lim |},
       moved w (closeFS limited_js o st (fs w)) n
         (closeEvents limited_js o st (fs w)) ms).
Proof.
  intros He o st; subst o.
  unfold Limited.finish, Limited.saveState, closeFS, closeEvents, unlinkEvents.
  destruct w as [[sf fp] tk tr co].
  destruct e as [ | | | message | ]; try congruence; munfold; cbn [outcomeOf].
  4: exists 0%nat, [MsgInterrupted message; MsgProgressSaved (l_offset l)].
  1-3: destruct (ge_total (l_offset l) t);
    [ destruct sf as [sf | ]; exists 1%nat, [MsgCompleted]
    | exists 0%nat, [MsgPaused (l_offset l)] ].
  all: cbn [fs tick trace console STATE_FILE FILE_PATH];
    f_equal; world_eq.
Qed.

Lemma Limited_prepare_trace (env : Env) (f : FS) :
  (exists r w', Limited.prepare env (boot f) = (r, w') /\ atPrompt r)
  \/ (exists lim t qs ms,
        Limited.prepare env (boot f)
        = (Ok (lim, t, startLocals f (resumeOffset f)),
           moved (boot f) (openedFS f (resumeOffset f))
             (ticksOf (qs ++ Get sizeRequest :: openEvents (resumeOffset f)))
             (qs ++ Get sizeRequest :: openEvents (resumeOffset f)) ms)
        /\ forallb isQuestion qs = true
        /\ (length qs <= 3)%nat).
Proof.
  unfold Limited.prepare, Limited.readState.
  destruct (readStateOr_frame (boot f)) as (ms1 & Hrd).
  rewrite (bind_ok _ _ _ _ _ Hrd).
  rewrite (bind_ok _ _ _ _ _ (bytesOnDisk_ok _ _)).
  cbn [fs boot logged]; rewrite loadedState_offset.
  set (w1 := logged (boot f) ms1).
  set (cur := if 0 <? resumeOffset f then fileSize f else 0).
  destruct (askUserForLimit_questions env cur (limitBytes (loadedState f)) w1)
    as (evs & ms & Hw & Hres).
  destruct (Limited.askUserForLimit env cur (limitBytes (loadedState f)) w1)
    as [r w2] eqn:Hask; cbn [fst snd] in *; subst w2.
  destruct r as [lim | m | c | ]; cbn [promptPost] in Hres.
  2:{ contradiction. }
  3:{ left; do 2 eexists; split;
        [apply (bind_pending _ _ _ _ Hask) | right; reflexivity]. }
  2:{ destruct Hres as (-> & _).
      left; do 2 eexists; split;
        [apply (bind_exit _ _ _ _ _ Hask) | left; reflexivity]. }
  destruct Hres as (Hq & Hlen & _).
  right.
  rewrite (bind_ok _ _ _ _ _ Hask).
  destruct (getDatasetSize_frame env (advanced w1 (ticksOf evs) evs ms))
    as (t & ms2 & Hsz).
  rewrite (bind_ok _ _ _ _ _ Hsz).
  exists lim, t.
  unfold startLocals, openedFS, openedFile, openEvents.
  subst w1 cur; unfold fileSize; munfold.
  cbn [fs tick trace console advanced moved boot logged].
  destruct (resumeOffset f =? 0) eqn:E0.
  - apply N.eqb_eq in E0; rewrite E0; simpl.
    exists evs, (ms1 ++ ms ++ ms2).
    split; [ | split; [exact Hq | lia]].
    f_equal; apply world_ext; cbn [fs tick trace console moved boot];
      rewrite ?ticksOf_app, <- ?app_assoc; try reflexivity.
    unfold ticksOf; simpl; lia.
  - destruct (0 <? resumeOffset f) eqn:E1;
      [ | apply N.ltb_ge in E1; apply N.eqb_neq in E0; lia].
    exists evs, (ms1 ++ ms ++ ms2).
    split; [ | split; [exact Hq | lia]].
    destruct (FILE_PATH f); f_equal; apply world_ext;
      cbn [fs tick trace console moved boot];
      rewrite ?ticksOf_app, <- ?app_assoc; try reflexivity;
      unfold ticksOf; simpl; lia.
Qed.

Lemma storageEvents_lastFetch (env : Env) (timeout : N) (l : Locals)
    (e : LoopExit) (last : list Event) :
  lastFetch env timeout l e last -> storageEvents last = [].
Proof.
  destruct e; cbn [lastFetch]; intros H;
    try (destruct H as ((k & _ & ->) & _); apply storageEvents_retry);
    subst last; reflexivity.
Qed.

Lemma storageEvents_openEvents (start : N) :
  storageEvents (openEvents start) = openEvents start.
Proof.
  unfold openEvents; destruct (start =? 0); reflexivity.
Qed.

Lemma storageEvents_closeEvents (v : Script) (o : Outcome)
    (st : DownloadState) (g : FS) :
  storageEvents (closeEvents v o st g) = closeEvents v o st g.
Proof.
  unfold closeEvents, unlinkEvents.
  destruct v, o, (STATE_FILE g); reflexivity.
Qed.

Lemma storageEvents_questions (qs : list Event) :
  forallb isQuestion qs = true -> storageEvents qs = [].
Proof.
  induction qs as [ | q qs IH]; [reflexivity | ].
  cbn [forallb]; intros H; apply andb_prop in H; destruct H as (Hq & Hqs).
  destruct q; try discriminate; simpl; auto.
Qed.

Lemma run_trace_download (env : Env) (f : FS) :
  exists s w' ts,
    run download_js env f = (Ok s, w')
    /\ RunTrace download_js env f s w' ts
    /\ sizeLimitBytes s = None.
Proof.
  unfold run, Download.downloadDataset.
  destruct (Download_prepare_trace env f) as (t & ms0 & Hp).
  rewrite (bind_ok _ _ _ _ _ Hp); cbv beta iota.
  set (start := startOf download_js f) in *.
  set (l0 := startLocals f start) in *.
  set (n0 := ticksOf (Get sizeRequest :: openEvents start)) in *.
  set (w0 := moved (boot f) (openedFS f start) n0
               (Get sizeRequest :: openEvents start) ms0) in *.
  destruct (mainLoop_trace env 45000 None t None
              (fuelFor t (l_offset l0)) l0 w0)
    as (e & ts & n1 & last & ms1 & Hrun & Hne & Hun & Hsv & Htk & Hlast
        & Hex).
  unfold Download.saveState.
  rewrite (bind_ok _ _ _ _ _ Hrun).
  apply exitFacts_enough in Hex.
  assert (He : e <> OutOfFuel) by (intros ->; exact Hex).
  destruct (Download_finish_trace env t l0 (afterLocals l0 (map snd ts)) e
              (moved w0 (afterFS None l0 (fs w0) (map snd ts)) n1
                 (turnsEvents 45000 None l0 ts ++ last) ms1) He)
    as (n2 & ms2 & Hfin).
  rewrite Hfin.
  do 2 eexists; exists ts; split; [reflexivity | ].
  split; [ | reflexivity].
  unfold RunTrace, RunFacts;
    cbn [startOffset startBytes finalOffset finalBytes outcome
         exit totalRecords sizeLimitBytes fs moved trace timeoutOf
         prepareEvents].
  fold start; fold l0.
  split; [ | split; [exact Hsv | ]].
  - repeat split; auto.
    subst w0; cbn [trace moved boot fs] in *.
    rewrite !storageEvents_app, storageEvents_turns,
      (storageEvents_lastFetch _ _ _ _ _ Hlast), storageEvents_closeEvents.
    change (storageEvents (Get sizeRequest :: openEvents start))
      with (storageEvents (openEvents start)).
    rewrite storageEvents_openEvents.
    cbn [app]; rewrite <- ?app_assoc; reflexivity.
  - exists [], last; repeat split; auto.
    subst w0; cbn [trace moved boot fs app].
    rewrite <- ?app_assoc; reflexivity.
Qed.

Lemma run_trace_limited (env : Env) (f : FS) :
  (exists r w', run limited_js env f = (r, w') /\ atPrompt r)
  \/ (exists s w' ts,
        run limited_js env f = (Ok s, w')
        /\ RunTrace limited_js env f s w' ts).
Proof.
  unfold run, Limited.downloadDataset.
  destruct (Limited_prepare_trace env f)
    as [(r & w' & Hp & Hr) | (lim & t & qs & ms0 & Hp & Hq & Hlen)].
  { left.
    destruct (bind_atPrompt _
                (fun p : option N * jsint * Locals =>
                   let '(sizeLimitBytes, totalRecords, l0) := p in
                   r <- mainLoop env 60000
                          (fun o => Limited.saveState o sizeLimitBytes)
                          totalRecords sizeLimitBytes
                          (fuelFor totalRecords (l_offset l0)) l0 ;;
                   Limited.finish env sizeLimitBytes totalRecords l0 r)
                _ _ _ Hp Hr) as (r' & Hb & Hr').
    exists r', w'; auto. }
  right.
  rewrite (bind_ok _ _ _ _ _ Hp); cbv beta iota.
  set (start := startOf limited_js f) in *.
  change (resumeOffset f) with start in *.
  set (l0 := startLocals f start) in *.
  set (n0 := ticksOf (qs ++ Get sizeRequest :: openEvents start)) in *.
  set (w0 := moved (boot f) (openedFS f start) n0
               (qs ++ Get sizeRequest :: openEvents start) ms0) in *.
  destruct (mainLoop_trace env 60000 lim t lim
              (fuelFor t (l_offset l0)) l0 w0)
    as (e & ts & n1 & last & ms1 & Hrun & Hne & Hun & Hsv & Htk & Hlast
        & Hex).
  unfold Limited.saveState.
  rewrite (bind_ok _ _ _ _ _ Hrun).
  apply exitFacts_enough in Hex.
  assert (He : e <> OutOfFuel) by (intros ->; exact Hex).
  destruct (Limited_finish_trace env lim t l0 (afterLocals l0 (map snd ts)) e
              (moved w0 (afterFS lim l0 (fs w0) (map snd ts)) n1
                 (turnsEvents 60000 lim l0 ts ++ last) ms1) He)
    as (n2 & ms2 & Hfin).
  fold (Limited.saveState); unfold Limited.saveState in Hfin.
  rewrite Hfin.
  do 2 eexists; exists ts; split; [reflexivity | ].
  unfold RunTrace, RunFacts;
    cbn [startOffset startBytes finalOffset finalBytes outcome
         exit totalRecords sizeLimitBytes fs moved trace timeoutOf
         prepareEvents].
  fold start; fold l0.
  split; [ | split; [exact Hsv | ]].
  - repeat split; auto.
    subst w0; cbn [trace moved boot fs] in *.
    rewrite !storageEvents_app, storageEvents_turns,
      (storageEvents_lastFetch _ _ _ _ _ Hlast), storageEvents_closeEvents,
      (storageEvents_questions _ Hq).
    change (storageEvents (Get sizeRequest :: openEvents start))
      with (storageEvents (openEvents start)).
    rewrite storageEvents_openEvents.
    cbn [app]; rewrite <- ?app_assoc; reflexivity.
  - exists qs, last; repeat split; auto.
    subst w0; cbn [trace moved boot fs app].
    rewrite <- ?app_assoc; reflexivity.
Qed.

(** Every run that returns a summary went through turns that account
    for its files and for every call it made. *)
Lemma run_trace (v : Script) (env : Env) (f : FS) (s : Summary)
    (w' : World) :
  run v env f = (Ok s, w') ->
  exists ts,
    RunTrace v env f s w' ts /\ (v = download_js -> sizeLimitBytes s = None).
Proof.
  intros Hrun; destruct v.
  - destruct (run_trace_download env f) as (s0 & w0 & ts & Hr & Ht & Hn).
    rewrite Hr in Hrun; inversion Hrun; subst; eauto.
  - destruct (run_trace_limited env f)
      as [(r0 & w0 & Hr & Hat) | (s0 & w0 & ts & Hr & Ht)];
      rewrite Hr in Hrun; inversion Hrun; subst.
    + destruct Hat; discriminate.
    + exists ts; split; [exact Ht | discriminate].
Qed.

(** ** C4: separators across runs *)


Lemma assembled_incl (envs envs' : list Env) (ps : list (list record)) :
  incl envs envs' ->
  forall o, assembled envs o ps -> assembled envs' o ps.
Proof.
  intros Hin; induction ps as [ | p ps IH]; intros o Hp; [exact I | ].
  destruct Hp as (Hne & (env & t & timeout & He & Hsv) & Hp).
  split; [exact Hne | split; [ | apply IH; exact Hp]].
  exists env, t, timeout; split; [apply Hin; exact He | exact Hsv].
Qed.









(** ** C6: the wait for the stream *)

Lemma drainAwaited_questions (env : Env) (qs : list Event) :
  forallb isQuestion qs = true ->
  forall (t : nat) (written : option nat) (rest : list Event),
  exists written',
    drainAwaited env t written (qs ++ rest)
    = drainAwaited env (t + ticksOf qs) written' rest.
Proof.
  induction qs as [ | q qs IH]; intros Hq t written rest.
  - exists written; unfold ticksOf; simpl; rewrite Nat.add_0_r; reflexivity.
  - destruct q; try discriminate; simpl in Hq.
    destruct (IH Hq (S t) None rest) as (w' & E).
    exists w'.
    change (ticksOf (Question prompt :: qs)) with (S (ticksOf qs)).
    rewrite Nat.add_succ_r; exact E.
Qed.

Lemma drainAwaited_prepare (env : Env) (v : Script) (start : N)
    (qs rest : list Event) :
  forallb isQuestion qs = true ->
  exists written,
    drainAwaited env 0 None (prepareEvents v start qs ++ rest)
    = drainAwaited env (ticksOf (prepareEvents v start qs)) written rest.
Proof.
  intros Hq; destruct v; cbn [prepareEvents].
  - unfold openEvents; destruct (start =? 0); eexists; reflexivity.
  - rewrite <- app_assoc.
    destruct (drainAwaited_questions env qs Hq 0 None
                ((Get sizeRequest :: openEvents start) ++ rest)) as (w' & E).
    rewrite E, ticksOf_app.
    unfold openEvents; destruct (start =? 0); eexists;
      unfold ticksOf; simpl; rewrite ?Nat.add_succ_r, ?Nat.add_0_r;
      reflexivity.
Qed.

Lemma drainAwaited_retry (env : Env) (req : Request) (k : nat) :
  forall (t : nat) (written : option nat) (rest : list Event),
    drainAwaited env t written (retryEvents req k ++ rest)
    = drainAwaited env (t + ticksOf (retryEvents req k)) None rest.
Proof.
  intros t written rest.
  destruct k as [ | [ | k]]; unfold ticksOf; simpl;
    rewrite ?Nat.add_succ_r, ?Nat.add_0_r; reflexivity.
Qed.

(** A turn of the loop: the chunk is written at the tick after the
    page came, and [drain] is awaited exactly when the stream returned
    false at that tick. *)
Lemma drainAwaited_turn (env : Env) (timeout : N) (lim : option N)
    (l : Locals) (t : nat * Iter) (tk : nat) (written : option nat)
    (rest : list Event) :
  (fst t <= 2)%nat ->
  accepted (snd t) = canWrite env (tk + S (fst t)) ->
  drainAwaited env tk written (turnEvents timeout lim l t ++ rest)
  = drainAwaited env (tk + S (S (fst t))) None rest.
Proof.
  intros Hk Hacc; unfold turnEvents.
  rewrite <- app_assoc, drainAwaited_retry, ticksOf_retry by exact Hk.
  unfold iterEvents; cbn [app drainAwaited]; rewrite Hacc.
  destruct (canWrite env (tk + S (fst t))) eqn:E;
    cbn [app drainAwaited]; rewrite E; cbn [negb andb];
    rewrite <- Nat.add_succ_r; reflexivity.
Qed.

Lemma drainAwaited_turns (env : Env) (timeout : N) (total : jsint)
    (lim : option N) (ts : list (nat * Iter)) (rest : list Event) :
  forall (l : Locals) (tk : nat) (written : option nat),
    servedTurns env timeout total l ts ->
    tickedTurns env timeout tk l ts ->
    exists t' written',
      drainAwaited env tk written (turnsEvents timeout lim l ts ++ rest)
      = drainAwaited env t' written' rest.
Proof.
  induction ts as [ | t ts IH]; intros l tk written Hsv Htk.
  - exists tk, written; reflexivity.
  - destruct Hsv as (_ & Hk & _ & Hsv); destruct Htk as (_ & _ & Hacc & Htk).
    cbn [turnsEvents]; rewrite <- app_assoc.
    rewrite (drainAwaited_turn env timeout lim l t tk written _ Hk Hacc).
    apply (IH _ _ None Hsv Htk).
Qed.

(** The last turn and the closing calls: the state is saved once more
    only after a fetch that failed. *)
Lemma drainAwaited_tail (env : Env) (v : Script) (l : Locals) (e : LoopExit)
    (last : list Event) (o : Outcome) (st : DownloadState) (g : FS)
    (t : nat) (written : option nat) :
  lastFetch env (timeoutOf v) l e last ->
  (e = CondFalse -> o <> Failed) ->
  e <> OutOfFuel ->
  drainAwaited env t written (last ++ closeEvents v o st g) = true.
Proof.
  intros Hlast Ho He.
  assert (Hnone : forall t', drainAwaited env t' None (closeEvents v o st g)
                             = true).
  { intros t'; unfold closeEvents, unlinkEvents.
    destruct v, o, (STATE_FILE g); reflexivity. }
  destruct e; cbn [lastFetch] in Hlast;
    try (destruct Hlast as ((k & _ & ->) & _);
         rewrite drainAwaited_retry; apply Hnone);
    [ | congruence].
  subst last; cbn [app].
  specialize (Ho eq_refl).
  unfold closeEvents, unlinkEvents.
  destruct v, o, (STATE_FILE g); try reflexivity; congruence.
Qed.

Lemma run_drainAwaited (v : Script) (env : Env) (f : FS) (s : Summary)
    (w' : World) (ts : list (nat * Iter)) :
  RunTrace v env f s w' ts -> drainAwaited env 0 None (trace w') = true.
Proof.
  intros (HF & Hts & qs & last & Hq & _ & Hlast & Htr & Htk).
  destruct HF as (_ & Hout & _ & _ & _ & _ & Hex).
  rewrite Htr.
  destruct (drainAwaited_prepare env v (startOf v f) qs
              (turnsEvents (timeoutOf v) (sizeLimitBytes s)
                 (startLocals f (startOf v f)) ts
               ++ last
               ++ closeEvents v (outcome s)
                    {| offset := l_offset (afterLocals
                                             (startLocals f (startOf v f))
                                             (map snd ts));
                       limitBytes := sizeLimitBytes s |}
                    (afterFS (sizeLimitBytes s) (startLocals f (startOf v f))
                       (openedFS f (startOf v f)) (map snd ts))) Hq)
    as (w0 & ->).
  destruct (drainAwaited_turns env (timeoutOf v) (totalRecords s)
              (sizeLimitBytes s) ts
              (last
               ++ closeEvents v (outcome s)
                    {| offset := l_offset (afterLocals
                                             (startLocals f (startOf v f))
                                             (map snd ts));
                       limitBytes := sizeLimitBytes s |}
                    (afterFS (sizeLimitBytes s) (startLocals f (startOf v f))
                       (openedFS f (startOf v f)) (map snd ts)))
              _ _ w0 Hts Htk) as (t1 & w1 & ->).
  eapply drainAwaited_tail; [exact Hlast | | ].
  - intros He; rewrite Hout, He; cbn [outcomeOf].
    destruct v; [discriminate | ].
    destruct (ge_total _ _); discriminate.
  - intros He; rewrite He in Hex; exact Hex.
Qed.

(** C6, as amended: no run ever calls a synchronous flush.  The calls
    a run makes on its files are: the opening of the output file (and
    the opening bracket on a start from 0); then, for every accepted
    chunk in turn, the write of the chunk, the wait for [drain] when
    the write returned false, and the save of the new offset; then
    the closing calls.  Over the whole trace, [drain] is awaited
    exactly after the writes for which the stream returned false, and
    before the offset is saved.  So each chunk is handed to the stream
    before its offset is committed, but its bytes are not flushed: as
    soon as one chunk is accepted, an offset is committed over
    unflushed bytes. *)
Theorem chunk_written_then_offset_saved_without_flush :
  forall (v : Script) (env : Env) (f : FS) (r : Res Summary) (w' : World),
    run v env f = (r, w') ->
    ~ In Fsync (trace w')
    /\ forall s : Summary,
        r = Ok s ->
        exists (its : list Iter) (closingEvents : list Event),
          storageEvents (trace w')
          = openEvents (startOffset s)
            ++ loopEvents (sizeLimitBytes s)
                 (startLocals f (startOffset s)) its
            ++ closingEvents
          /\ Forall (fun it => page it <> []) its
          /\ finalOffset s
             = startOffset s + N.of_nat (length (recordsOf its))
          /\ (its <> [] -> flushedBeforeCommit false (trace w') = false)
          /\ drainAwaited env 0 None (trace w') = true.
Proof.
  intros v env f r w' Hrun.
  destruct (run_cases v env f)
    as [(_ & r1 & w1 & H1 & Hr & _ & Hst) | (s1 & w1 & its0 & H1 & HF0 & _)];
    rewrite Hrun in H1; injection H1 as -> ->.
  - split; [ | intros s Hs; destruct Hr; congruence].
    intros Hin; apply (In_storageEvents Fsync) in Hin; [ | reflexivity].
    rewrite Hst in Hin; exact Hin.
  - split; [eapply no_Fsync_storage; exact HF0 | ].
    intros s Hs; injection Hs as <-.
    destruct (run_trace v env f s1 w1 Hrun) as (ts & HT & _).
    pose proof (run_drainAwaited v env f s1 w1 ts HT) as Hdrain.
    destruct HT as (HF & _).
    destruct HF as ((Hso & _ & Hfo & _) & _ & _ & Htr & Hne & _).
    exists (map snd ts); eexists.
    rewrite Hso, Hfo, afterLocals_offset; cbn [startLocals l_offset].
    split; [exact Htr | split; [exact Hne | split; [reflexivity | ]]].
    split; [ | exact Hdrain].
    intros Hnil; rewrite <- flushedBeforeCommit_storage, Htr.
    destruct (map snd ts) as [ | it rest]; [congruence | ].
    unfold openEvents; destruct (startOf v f =? 0);
      cbn [app flushedBeforeCommit]; apply flushedBeforeCommit_loop.
Qed.

(** A run of [download.js] from scratch behind a full buffer: [drain]
    is awaited after each chunk, before its offset is saved. *)
Lemma witness_full_buffer_awaits_drain :
  exists r w',
    run download_js fullBuffer pristine = (r, w')
    /\ storageEvents (trace w')
       = [Open flag_w; Write "["; Write "{a},{b}"; AwaitDrain;
          SaveState {| offset := 2; limitBytes := None |};
          Write ",{c}"; AwaitDrain;
          SaveState {| offset := 3; limitBytes := None |};
          Write "]"; End_; Unlink]
    /\ (~ In Fsync (trace w')
        /\ forall s : Summary,
            r = Ok s ->
            exists (its : list Iter) (closingEvents : list Event),
              storageEvents (trace w')
              = openEvents (startOffset s)
                ++ loopEvents (sizeLimitBytes s)
                     (startLocals pristine (startOffset s)) its
                ++ closingEvents
              /\ Forall (fun it => page it <> []) its
              /\ finalOffset s
                 = startOffset s + N.of_nat (length (recordsOf its))
              /\ (its <> [] -> flushedBeforeCommit false (trace w') = false)
              /\ drainAwaited fullBuffer 0 None (trace w') = true).
Proof.
  do 2 eexists; split; [vm_compute; reflexivity | ].
  split; [reflexivity | ].
  apply (chunk_written_then_offset_saved_without_flush
           download_js fullBuffer pristine).
  vm_compute; reflexivity.
Defined.

(** ** A dataset behind the requests *)

Lemma prefixOf_firstn (n : nat) (ds : list record) : prefixOf (firstn n ds) ds.
Proof.
  unfold prefixOf; revert ds; induction n as [ | n IH]; intros [ | d ds];
    simpl; try reflexivity.
  f_equal; apply IH.
Qed.

Lemma prefixOf_app (xs ys ds : list record) :
  prefixOf xs ds -> prefixOf ys (skipn (length xs) ds) ->
  prefixOf (xs ++ ys) ds.
Proof.
  unfold prefixOf; revert ds; induction xs as [ | x xs IH]; intros ds Hx Hy.
  - exact Hy.
  - destruct ds as [ | d ds]; simpl in Hx; [discriminate | ].
    injection Hx as Hd Hxs; simpl in Hy.
    simpl; f_equal; [exact Hd | apply IH; assumption].
Qed.

Lemma prefixOf_length (xs ds : list record) :
  prefixOf xs ds -> (length xs <= length ds)%nat.
Proof.
  unfold prefixOf; intros H.
  assert (Hl : length xs = length (firstn (length xs) ds)) by (rewrite <- H; reflexivity).
  rewrite length_firstn in Hl; lia.
Qed.

Lemma prefixOf_all (xs ds : list record) :
  prefixOf xs ds -> (length ds <= length xs)%nat -> xs = ds.
Proof.
  unfold prefixOf; intros H Hl; rewrite H.
  apply firstn_all2; exact Hl.
Qed.

(** The accepted pages of served turns are consecutive records of the
    dataset. *)
Lemma served_records (env : Env) (ds : list record) (timeout : N)
    (t : jsint) (ts : list (nat * Iter)) :
  serves env ds ->
  forall l,
    servedTurns env timeout t l ts ->
    prefixOf (recordsOf (map snd ts)) (skipn (N.to_nat (l_offset l)) ds).
Proof.
  intros (P & HP & Hsv).
  induction ts as [ | [k it] rest IH]; intros l Hts.
  - unfold prefixOf; reflexivity.
  - destruct Hts as (_ & _ & (tk & Htk) & Hrest).
    cbn [map snd recordsOf flat_map]; cbn [snd] in *.
    apply Hsv in Htk.
    apply prefixOf_app.
    + rewrite Htk; apply prefixOf_firstn.
    + specialize (IH _ Hrest); cbn [stepLocals l_offset] in IH.
      rewrite skipn_skipn.
      replace (length (page it) + N.to_nat (l_offset l))%nat
        with (N.to_nat (l_offset l + N.of_nat (length (page it)))) by lia.
      exact IH.
Qed.

Lemma wellFormedOn_wellFormed (ds : list record) (f : FS) :
  wellFormedOn ds f -> wellFormed f.
Proof.
  intros [H0 | (rs & _ & Hfile & Hlen)]; [left; exact H0 | ].
  right; exists rs; auto.
Qed.

Lemma opened_on (ds : list record) (v : Script) (f : FS) :
  wellFormedOn ds f ->
  exists prev,
    prefixOf prev ds
    /\ openedFile f (startOf v f) = ("[" ++ render (joined prev))%string
    /\ N.of_nat (length prev) = startOf v f
    /\ isNil prev = (startOf v f =? 0).
Proof.
  intros Hwf.
  rewrite (startOf_wellFormed v f (wellFormedOn_wellFormed ds f Hwf)).
  unfold openedFile.
  destruct (resumeOffset f =? 0) eqn:E0.
  - apply N.eqb_eq in E0; exists []; rewrite E0; repeat split.
  - apply N.eqb_neq in E0.
    destruct Hwf as [H0 | (rs & Hpre & Hfile & Hlen)]; [congruence | ].
    exists rs; rewrite Hfile; repeat split; auto.
    destruct rs; [simpl in Hlen; congruence | reflexivity].
Qed.

(** One run over the dataset keeps the records on disk a prefix of
    it. *)
Lemma run_file_on (ds : list record) (v : Script) (env : Env) (f : FS)
    (s : Summary) (w' : World) (ts : list (nat * Iter)) :
  wellFormedOn ds f -> serves env ds ->
  RunTrace v env f s w' ts ->
  (v = download_js -> sizeLimitBytes s = None) ->
  fileOn ds (fs w') s /\ wellFormedOn ds (fs w').
Proof.
  intros Hwf Hsv (HF & Hts & qs & last & _ & _ & Hlast & _) Hv.
  destruct (opened_on ds v f Hwf) as (prev & Hpre & Hopen & Hlen & Hnil).
  pose proof (served_records env ds _ _ ts Hsv _ Hts) as Hrec.
  destruct HF as ((_ & _ & Hfo & _) & Hout & Hfs & _ & Hne & _ & Hex).
  set (its := map snd ts) in *.
  set (l0 := startLocals f (startOf v f)) in *.
  set (g := afterFS (sizeLimitBytes s) l0 (openedFS f (startOf v f)) its) in *.
  set (rs := prev ++ recordsOf its).
  assert (Hprs : prefixOf rs ds).
  { subst rs; apply prefixOf_app; [exact Hpre | ].
    subst l0; cbn [startLocals l_offset] in Hrec.
    rewrite <- Hlen, Nat2N.id in Hrec; exact Hrec. }
  assert (Hg : FILE_PATH g = Some ("[" ++ render (joined rs))%string).
  { subst g; erewrite afterFS_file by reflexivity.
    cbn [startLocals l0 l_isFirstChunk]; rewrite Hopen, <- Hnil.
    rewrite append_assoc, (chunksText_joined its Hne prev); reflexivity. }
  assert (Hrs : N.of_nat (length rs) = finalOffset s).
  { rewrite Hfo, afterLocals_offset; subst rs l0; cbn [startLocals l_offset].
    rewrite length_app; lia. }
  assert (Hst : STATE_FILE g = STATE_FILE f /\ its = []
                \/ STATE_FILE g
                   = Some (Json {| offset := finalOffset s;
                                   limitBytes := sizeLimitBytes s |})).
  { subst g; rewrite afterFS_state; cbn [openedFS STATE_FILE].
    destruct its; [left; auto | right; rewrite Hfo; reflexivity]. }
  assert (Hwg : wellFormedOn ds g).
  { destruct Hst as [[Hsame Hnil'] | Hsaved].
    - unfold wellFormedOn, resumeOffset; rewrite Hsame.
      fold (resumeOffset f).
      destruct (N.eq_dec (resumeOffset f) 0) as [E0 | E0]; [left; exact E0 | ].
      right; exists rs; split; [exact Hprs | split; [exact Hg | ]].
      subst rs; rewrite Hnil'; simpl; rewrite app_nil_r, Hlen.
      apply startOf_wellFormed; eapply wellFormedOn_wellFormed; exact Hwf.
    - right; exists rs; split; [exact Hprs | split; [exact Hg | ]].
      unfold resumeOffset; rewrite Hsaved; exact Hrs. }
  assert (Hdone : outcome s = Completed ->
                  exit s = EmptyPage
                  \/ lt_total (finalOffset s) (totalRecords s) = false).
  { intros Ho; rewrite Ho in Hout; rewrite Hfo.
    destruct (exit s) eqn:He; cbn [outcomeOf] in Hout;
      try discriminate; auto.
    destruct Hex as (Hlt & B & HB & _).
    destruct v; [rewrite Hv in HB by reflexivity; discriminate | ].
    rewrite (lt_ge_total _ _ Hlt) in Hout; discriminate. }
  assert (Hend : exit s = EmptyPage ->
                 (length ds <= N.to_nat (finalOffset s))%nat).
  { intros He; rewrite He in Hlast; cbn [lastFetch] in Hlast.
    destruct Hlast as (_ & tk & Htk).
    destruct Hsv as (P & HP & Hsv); apply Hsv in Htk.
    fold its in Htk; fold l0 in Htk; rewrite <- Hfo in Htk.
    assert (Hl : length (firstn P (skipn (N.to_nat (finalOffset s)) ds)) = 0%nat)
      by (rewrite <- Htk; reflexivity).
    rewrite length_firstn, length_skipn in Hl; lia. }
  rewrite Hfs; unfold fileOn.
  destruct (outcome s) eqn:Ho, v; cbn [closeFS closing FILE_PATH]; split;
    try exact Hwg;
    try (left; reflexivity);
    try (split; [ | split; [exact Hdone | split; [exact Hend | ]]];
         [ exists rs; rewrite Hg, ?append_nil_r, ?append_assoc;
           split; [exact Hprs | split; [reflexivity | exact Hrs]]
         | first [reflexivity | discriminate] ]).
  right; exists rs; cbn [FILE_PATH]; split; [exact Hprs | split; [exact Hg | ]].
  unfold resumeOffset; cbn [STATE_FILE offset]; rewrite <- Hfo; exact Hrs.
Qed.

Lemma runAll_on (ds : list record) (rs : list (Script * Env)) :
  Forall (fun r => serves (snd r) ds) rs ->
  forall (f : FS) (last : option Summary),
    wellFormedOn ds f ->
    match last with Some s => fileOn ds f s | None => True end ->
    wellFormedOn ds (fst (runAll rs f last))
    /\ match snd (runAll rs f last) with
       | Some s => fileOn ds (fst (runAll rs f last)) s
       | None => True
       end.
Proof.
  induction 1 as [ | [v env] rest Hsv _ IH]; intros f last Hwf Hlast; [auto | ].
  cbn [runAll]; cbn [snd] in Hsv.
  destruct (run v env f) as [[s1 | m | c | ] w1] eqn:H1.
  - destruct (run_trace v env f s1 w1 H1) as (ts & Ht & Hv).
    destruct (run_file_on ds v env f s1 w1 ts Hwf Hsv Ht Hv) as [Hfile Hwf'].
    apply IH; assumption.
  - destruct (run_cases v env f)
      as [(_ & r2 & w2 & H2 & [-> | ->] & _) | (s2 & w2 & its & H2 & _)];
      rewrite H2 in H1; discriminate.
  - destruct (run_cases v env f)
      as [(_ & r2 & w2 & H2 & _ & Hfs & _) | (s2 & w2 & its & H2 & _)];
      rewrite H2 in H1; [ | discriminate].
    inversion H1; subst w2; rewrite Hfs; apply IH; assumption.
  - destruct (run_cases v env f)
      as [(_ & r2 & w2 & H2 & _ & Hfs & _) | (s2 & w2 & its & H2 & _)];
      rewrite H2 in H1; [ | discriminate].
    inversion H1; subst w2; rewrite Hfs; apply IH; assumption.
Qed.

(** * Further properties *)

(** ** The count query *)

(** X1: [getDatasetSize] never throws and never exits: it makes the count
    query once, touches no file, and returns the fallback total after
    saying so, or what [parseInt] makes of a non-empty [count] in the
    first row of the answer. *)
Theorem getDatasetSize_total_or_fallback :
  forall (env : Env) (w : World),
  exists t ms,
    getDatasetSize env w = (Ok t, advanced w 1 [Get sizeRequest] ms)
    /\ (t = Int HARDCODED_TOTAL /\ In MsgSizeFallback ms
        \/ exists r rows c,
             axios_get env (tick w) sizeRequest = Resolved (DRows (r :: rows))
             /\ count r = Some c /\ c <> EmptyString /\ t = parseInt c).
Proof.
  intros env w; rewrite getDatasetSize_cases; unfold sizeFallback.
  destruct (axios_get env (tick w) sizeRequest) as [m | [ | [ | r rows]]].
  1-3: do 2 eexists; split; [reflexivity | left; split; [reflexivity | ]];
    simpl; rewrite ?in_app_iff; simpl; auto.
  destruct (count r) as [c | ] eqn:Hc.
  2:{ do 2 eexists; split; [reflexivity | left; split; [reflexivity | ]].
      simpl; auto. }
  destruct (c =? EmptyString)%string eqn:Ec.
  - do 2 eexists; split; [reflexivity | left; split; [reflexivity | ]].
    simpl; auto.
  - do 2 eexists; split; [reflexivity | right].
    exists r, rows, c; repeat split; auto.
    intros ->; discriminate.
Qed.

(** ** The limit negotiation *)

(** X2: The prompt asks one to three questions and does nothing else: no
    request, no call on the two files.  It never throws.  It yields a
    limit, every question it asked having been answered; or it exits
    with status 0, which needs a saved limit; or it never settles,
    which happens only when the input ended at the last question it
    asked.  So a fresh start proceeds whenever its questions are
    answered. *)
Theorem prompt_only_asks :
  forall (env : Env) (cur : N) (saved : option N) (w : World),
  exists evs ms,
    snd (Limited.askUserForLimit env cur saved w)
    = advanced w (ticksOf evs) evs ms
    /\ forallb isPrompt evs = true
    /\ (1 <= length (filter isQuestion evs) <= 3)%nat
    /\ match fst (Limited.askUserForLimit env cur saved w) with
       | Ok _ =>
           ~ In (ProcessExit 0) evs
           /\ forall k, (k < length evs)%nat ->
                        answer env (tick w + k) <> None
       | Exit c => c = 0 /\ saved <> None
       | Pending =>
           ~ In (ProcessExit 0) evs
           /\ answer env (tick w + length evs - 1) = None
       | Throw _ => False
       end.
Proof.
  intros env cur saved w.
  destruct (askUserForLimit_questions env cur saved w)
    as (evs & ms & Hw & Hpost).
  exists evs, ms; split; [exact Hw | ].
  assert (Hquestions :
            forallb isQuestion evs = true ->
            forallb isPrompt evs = true
            /\ length (filter isQuestion evs) = length evs
            /\ ~ In (ProcessExit 0) evs).
  { intros Hq.
    assert (Hall : forall e, In e evs -> isQuestion e = true)
      by (apply forallb_forall; exact Hq).
    split; [ | split].
    - apply forallb_forall; intros e He; apply Hall in He.
      destruct e; try discriminate; reflexivity.
    - rewrite (forallb_filter_id isQuestion evs Hq); reflexivity.
    - intros Hin; apply Hall in Hin; discriminate. }
  destruct (fst (Limited.askUserForLimit env cur saved w))
    as [lim | m | c | ]; cbn [promptPost] in Hpost.
  - destruct Hpost as (Hq & Hlen & Hans).
    destruct (Hquestions Hq) as (H1 & H2 & H3).
    rewrite H2; repeat split; auto; lia.
  - contradiction.
  - destruct Hpost as (-> & Hs & Hp & Hlen); repeat split; auto; lia.
  - destruct Hpost as (Hq & Hlen & Hans).
    destruct (Hquestions Hq) as (H1 & H2 & H3).
    rewrite H2; repeat split; auto; lia.
Qed.

(** X3: When the saved limit is reached, a limit that comes out of the
    prompt is the saved one plus the bytes of the positive number of
    gigabytes the user typed: the prompt never lowers a limit that was
    reached (and does not check that the new one is above the bytes on
    disk). *)
Theorem reached_limit_is_only_raised :
  forall (env : Env) (cur saved : N) (w : World) (newLimit : N),
    saved <= cur ->
    fst (Limited.askUserForLimit env cur (Some saved) w) = Ok (Some newLimit) ->
    exists typed gb,
      answer env (tick w) = Some typed
      /\ parseFloat env (toUpperCase (trim typed)) = Num gb
      /\ (0 < gb)%Q
      /\ newLimit = saved + gbToBytes gb.
Proof.
  intros env cur saved w newLimit Hle.
  unfold Limited.askUserForLimit, Limited.askToExtend.
  apply N.ltb_ge in Hle; rewrite Hle.
  munfold.
  destruct (answer env (tick w)) as [typed | ];
    cbn [fst snd fs tick trace console]; [ | discriminate].
  destruct (toUpperCase (trim typed) =? "N")%string;
    cbn [fst]; [discriminate | ].
  destruct (toUpperCase (trim typed) =? "A")%string;
    cbn [fst]; [discriminate | ].
  destruct (parseFloat env (toUpperCase (trim typed)))
    as [ | gb] eqn:Epf; cbn [notPositive fst]; [discriminate | ].
  destruct (Qlt_le_dec 0 gb) as [Hpos | Hneg]; cbn [fst]; [ | discriminate].
  intros H; inversion H; exists typed, gb; auto.
Qed.

Lemma witness_add_three_bytes :
  5 <= 9
  /\ fst (Limited.askUserForLimit addThreeBytes 9 (Some 5) (boot limitReached))
     = Ok (Some 8)
  /\ exists typed gb,
       answer addThreeBytes (tick (boot limitReached)) = Some typed
       /\ parseFloat addThreeBytes (toUpperCase (trim typed)) = Num gb
       /\ (0 < gb)%Q
       /\ 8 = 5 + gbToBytes gb.
Proof.
  split; [lia | split; [vm_compute; reflexivity | ]].
  apply (reached_limit_is_only_raised addThreeBytes 9 5 (boot limitReached) 8);
    [lia | vm_compute; reflexivity].
Defined.

(** ** Gigabytes to bytes *)

(** X5: The bytes of a limit: a whole number [n] of gigabytes is [n] times
    1073741824 bytes, and more gigabytes never give fewer bytes. *)
Theorem gbToBytes_whole_and_monotone :
  (forall n : N, gbToBytes (inject_Z (Z.of_N n)) = n * 1073741824)
  /\ (forall a b : Q, (a <= b)%Q -> gbToBytes a <= gbToBytes b).
Proof.
  split.
  - intros n; unfold gbToBytes, Qfloor, Qmult, inject_Z; cbn [Qnum Qden].
    change (Z.pos (1 * 1 * 1 * 1)) with 1%Z.
    rewrite Z.div_1_r; lia.
  - intros a b Hab; unfold gbToBytes.
    assert (H : (Qfloor (a * (1024 # 1) * (1024 # 1) * (1024 # 1))
                 <= Qfloor (b * (1024 # 1) * (1024 # 1) * (1024 # 1)))%Z).
    { apply Qfloor_resp_le.
      repeat (apply Qmult_le_compat_r; [ | discriminate]); exact Hab. }
    lia.
Qed.

Lemma witness_five_gigabytes :
  gbToBytes (inject_Z (Z.of_N 5)) = 5 * 1073741824
  /\ (1 # 2 <= 5 # 1)%Q
  /\ gbToBytes (1 # 2) <= gbToBytes (5 # 1).
Proof.
  split; [apply (proj1 gbToBytes_whole_and_monotone 5) | ].
  assert (H : (1 # 2 <= 5 # 1)%Q) by (vm_compute; discriminate).
  split; [exact H | ].
  apply (proj2 gbToBytes_whole_and_monotone (1 # 2) (5 # 1) H).
Defined.

(** ** The text of a chunk *)

(** X6: The text of a chunk does not depend on where a page ends: the
    chunk of two pages put together is the chunk of the first followed
    by the chunk of the second, the second being flagged as first only
    if the first was and brought no record. *)
Theorem chunkData_app :
  forall (isFirstChunk : bool) (xs ys : list record),
    chunkData isFirstChunk (xs ++ ys)
    = (chunkData isFirstChunk xs
       ++ chunkData (isFirstChunk && isNil xs) ys)%string.
Proof.
  intros b xs ys.
  rewrite !chunkData_render, sepItems_app, render_app, negb_andb.
  reflexivity.
Qed.

(** X7: The bytes of a chunk: those of its records, and one separator for
    each record but the very first of the download. *)
Theorem chunkData_length :
  forall (isFirstChunk : bool) (records : list record),
    String.length (chunkData isFirstChunk records)
    = (list_sum (map (fun r => String.length (JSON_stringify r)) records)
       + (length records
          - (if isFirstChunk && negb (isNil records) then 1 else 0)))%nat.
Proof.
  intros b rs; rewrite chunkData_render.
  assert (H : forall lead rs,
             String.length (render (sepItems lead rs))
             = (list_sum (map (fun r => String.length (JSON_stringify r)) rs)
                + (length rs
                   - (if negb lead && negb (isNil rs) then 1 else 0)))%nat).
  { intros lead xs; revert lead; induction xs as [ | x xs IH]; intros lead.
    - destruct lead; reflexivity.
    - cbn [sepItems]; rewrite render_app, length_append.
      cbn [render renderPiece]; rewrite length_append, IH.
      cbn [negb andb isNil map list_sum length].
      destruct lead; simpl; lia. }
  rewrite H, negb_involutive; reflexivity.
Qed.

(** ** Runs over a dataset *)

Lemma mockEnv_serves (ds : list record) (pageSize : nat) (cnt : Response)
    (answers : list string) (pf : string -> jsnum) :
  (0 < pageSize)%nat -> serves (mockEnv ds pageSize cnt answers pf) ds.
Proof.
  intros HP; exists pageSize; split; [exact HP | ].
  intros t timeout o rows H; simpl in H; inversion H; reflexivity.
Qed.

Lemma offlineEnv_serves (ds : list record) : serves offlineEnv ds.
Proof.
  exists 1%nat; split; [lia | ].
  intros t timeout o rows H; simpl in H; discriminate.
Qed.

(** X8: Over any sequence of runs of either script that ended on their
    own (completed, stopped at a limit, on an empty page or on a
    failed fetch, or stopped at the prompt), whatever page sizes the
    server used: when every page that came was cut from the dataset
    [ds] at the offset asked for, the output file holds, after an
    opening bracket, exactly the first records of [ds] up to the final
    offset, joined by single separators, and a closing bracket only if
    the last run completed.  No record is skipped, repeated or
    reordered by such stops and resumptions.  (A process killed
    between the write of a chunk and the save of its offset is not a
    run of the model.) *)
Theorem file_is_prefix_of_dataset :
  forall (ds : list record) (rs : list (Script * Env)) (f0 f : FS)
         (s : Summary),
    resumeOffset f0 = 0 ->
    Forall (fun r => serves (snd r) ds) rs ->
    runAll rs f0 None = (f, Some s) ->
    (N.to_nat (finalOffset s) <= length ds)%nat
    /\ FILE_PATH f
       = Some ("[" ++ render (joined (firstn (N.to_nat (finalOffset s)) ds))
                   ++ closing (outcome s))%string.
Proof.
  intros ds rs f0 f s H0 Hsv Hrun.
  destruct (runAll_on ds rs Hsv f0 None (or_introl H0) I) as (_ & Hlast).
  rewrite Hrun in Hlast; cbn [fst snd] in Hlast.
  destruct Hlast as ((rs' & Hpre & Hfile & Hlen) & _).
  pose proof (prefixOf_length _ _ Hpre) as Hle.
  rewrite <- Hlen, Nat2N.id; split; [exact Hle | ].
  rewrite <- Hpre; exact Hfile.
Qed.

Lemma witness_stopped_twice :
  resumeOffset pristine = 0
  /\ Forall (fun r => serves (snd r) abc) stopAndGo
  /\ exists f s,
       runAll stopAndGo pristine None = (f, Some s)
       /\ outcome s = Failed
       /\ finalOffset s = 2
       /\ FILE_PATH f = Some "[{a},{b}"
       /\ (N.to_nat (finalOffset s) <= length abc)%nat
       /\ FILE_PATH f
          = Some ("[" ++ render (joined (firstn (N.to_nat (finalOffset s)) abc))
                      ++ closing (outcome s))%string.
Proof.
  assert (Hsv : Forall (fun r => serves (snd r) abc) stopAndGo).
  { repeat constructor; cbn [snd];
      [apply mockEnv_serves; lia | apply offlineEnv_serves]. }
  split; [reflexivity | split; [exact Hsv | ]].
  do 2 eexists; split; [vm_compute; reflexivity | ].
  do 3 (split; [reflexivity | ]).
  apply (file_is_prefix_of_dataset abc stopAndGo pristine);
    [reflexivity | exact Hsv | vm_compute; reflexivity].
Defined.

(** X9: Idempotent resume: under the same condition, over runs that
    ended on their own, when the last run completed, and it left the
    loop on an empty page or with a total that is not below the size
    of the dataset, the output file is the whole dataset as one array,
    and the state record is gone, whatever runs stopped before it at a
    limit, on a failed fetch, on an empty page or at the prompt. *)
Theorem completed_file_is_whole_dataset :
  forall (ds : list record) (rs : list (Script * Env)) (f0 f : FS)
         (s : Summary),
    resumeOffset f0 = 0 ->
    Forall (fun r => serves (snd r) ds) rs ->
    runAll rs f0 None = (f, Some s) ->
    outcome s = Completed ->
    exit s = EmptyPage
    \/ (exists z, totalRecords s = Int z /\ (Z.of_nat (length ds) <= z)%Z) ->
    f = {| STATE_FILE := None;
           FILE_PATH := Some ("[" ++ render (joined ds) ++ "]")%string |}.
Proof.
  intros ds rs f0 f s H0 Hsv Hrun Ho Hend.
  destruct (runAll_on ds rs Hsv f0 None (or_introl H0) I) as (_ & Hlast).
  rewrite Hrun in Hlast; cbn [fst snd] in Hlast.
  destruct Hlast as ((rs' & Hpre & Hfile & Hlen) & Hdone & Hempty & Hstate).
  assert (Hall : (length ds <= length rs')%nat).
  { destruct Hend as [He | (z & Hz & Hle)]; [apply Hempty in He; lia | ].
    destruct (Hdone Ho) as [He | Hlt]; [apply Hempty in He; lia | ].
    rewrite Hz in Hlt; simpl in Hlt; apply Z.ltb_ge in Hlt; lia. }
  rewrite (prefixOf_all _ _ Hpre Hall), Ho in Hfile; cbn [closing] in Hfile.
  destruct f as [sf fp]; cbn [STATE_FILE FILE_PATH] in *.
  rewrite (Hstate Ho), Hfile; reflexivity.
Qed.

Lemma witness_three_runs_whole_dataset :
  resumeOffset pristine = 0
  /\ Forall (fun r => serves (snd r) abc) threeRuns
  /\ exists f s,
       runAll threeRuns pristine None = (f, Some s)
       /\ outcome s = Completed
       /\ (exists z, totalRecords s = Int z /\ (Z.of_nat (length abc) <= z)%Z)
       /\ f = {| STATE_FILE := None;
                 FILE_PATH := Some ("[" ++ render (joined abc) ++ "]")%string |}.
Proof.
  assert (Hsv : Forall (fun r => serves (snd r) abc) threeRuns).
  { repeat constructor; cbn [snd];
      [ apply mockEnv_serves; lia | apply offlineEnv_serves
      | apply mockEnv_serves; lia ]. }
  split; [reflexivity | split; [exact Hsv | ]].
  do 2 eexists; split; [vm_compute; reflexivity | ].
  split; [reflexivity | ].
  assert (Ht : exists z, Int 3 = Int z /\ (Z.of_nat (length abc) <= z)%Z)
    by (exists 3%Z; split; [reflexivity | simpl; lia]).
  split; [exact Ht | ].
  apply (completed_file_is_whole_dataset abc threeRuns pristine _
           {| outcome := Completed; exit := CondFalse;
              startOffset := 2; startBytes := 8;
              finalOffset := 3; finalBytes := 12;
              totalRecords := Int 3; sizeLimitBytes := None |});
    [ reflexivity | exact Hsv | vm_compute; reflexivity | reflexivity
    | right; exact Ht ].
Defined.

(** ** The work of a run *)

Lemma servedTurns_count (env : Env) (timeout : N) (z : Z)
    (ts : list (nat * Iter)) :
  Forall (fun it => page it <> []) (map snd ts) ->
  ts <> [] ->
  forall l,
    servedTurns env timeout (Int z) l ts ->
    (Z.of_N (l_offset l) + Z.of_nat (length ts) <= z)%Z.
Proof.
  intros Hne; induction ts as [ | [k it] rest IH]; intros Hnil l Hts;
    [congruence | ].
  destruct Hts as (Hlt & _ & _ & Hrest); cbn [snd fst] in *.
  simpl in Hlt; apply Z.ltb_lt in Hlt.
  inversion Hne as [ | x xs Hpage Hne' ]; subst.
  destruct rest as [ | t' rest'].
  - simpl; lia.
  - assert (Hn : t' :: rest' <> []) by discriminate.
    specialize (IH Hne' Hn _ Hrest).
    cbn [stepLocals l_offset] in IH.
    destruct (page it); [congruence | ].
    cbn [length] in *; lia.
Qed.

Lemma pageRequests_retry (timeout o : N) (k : nat) :
  (length (filter isPageRequest (retryEvents (pageRequest timeout o) k))
   <= 3)%nat.
Proof.
  destruct k as [ | [ | k]]; simpl; lia.
Qed.

Lemma pageRequests_turns (env : Env) (timeout : N) (t : jsint)
    (lim : option N) (ts : list (nat * Iter)) :
  forall l,
    (length (filter isPageRequest (turnsEvents timeout lim l ts))
     <= 3 * length ts)%nat.
Proof.
  induction ts as [ | [k it] rest IH]; intros l; [simpl; lia | ].
  cbn [turnsEvents length]; unfold turnEvents; cbn [fst snd].
  rewrite !filter_app, !length_app.
  pose proof (pageRequests_retry timeout (l_offset l) k).
  specialize (IH (stepLocals l it)).
  assert (Hit : filter isPageRequest (iterEvents lim l it) = []).
  { unfold iterEvents; destruct (accepted it); reflexivity. }
  rewrite Hit; simpl; lia.
Qed.

(** X10: The work of a run is bounded by what is left to download: a
    run that returns made at most three page requests for each record
    between its start offset and the total, and none when the total is
    not a number or not above the start offset: every turn that does
    not leave the loop moves the offset by at least one record, and
    every turn makes at most three attempts.  The loop of the model
    did not stop for lack of fuel, so the bound is that of the loop of
    the script. *)
Theorem page_requests_bounded_by_missing_records :
  forall (v : Script) (env : Env) (f : FS) (s : Summary) (w' : World),
    run v env f = (Ok s, w') ->
    exit s <> OutOfFuel
    /\ (length (filter isPageRequest (trace w'))
        <= 3 * match totalRecords s with
               | Int z => Z.to_nat (z - Z.of_N (startOffset s))
               | NaN => 0
               end)%nat.
Proof.
  intros v env f s w' Hrun.
  destruct (run_trace v env f s w' Hrun)
    as (ts & (HF & Hts & qs & last & Hq & _ & Hlast & Htr & _) & _).
  destruct HF as ((Hso & _ & Hfo & _) & _ & _ & _ & Hne & _ & Hex).
  split; [intros He; rewrite He in Hex; exact Hex | ].
  rewrite Htr, Hso, !filter_app, !length_app.
  set (l0 := startLocals f (startOf v f)) in *.
  assert (Hprep : filter isPageRequest (prepareEvents v (startOf v f) qs) = []).
  { assert (Hopen : filter isPageRequest (openEvents (startOf v f)) = [])
      by (unfold openEvents; destruct (startOf v f =? 0); reflexivity).
    assert (Hsize : forall o,
               filter isPageRequest (Get sizeRequest :: openEvents o)
               = filter isPageRequest (openEvents o)) by reflexivity.
    destruct v; cbn [prepareEvents]; [rewrite Hsize; exact Hopen | ].
    rewrite filter_app, Hsize, Hopen, app_nil_r.
    clear - Hq; induction qs as [ | q qs IH]; [reflexivity | ].
    cbn [forallb] in Hq; apply andb_prop in Hq; destruct Hq as (H1 & H2).
    destruct q; try discriminate; simpl; auto. }
  assert (Hclose : forall o st g,
             filter isPageRequest (closeEvents v o st g) = []).
  { intros o st g; unfold closeEvents, unlinkEvents.
    destruct v, o, (STATE_FILE g); reflexivity. }
  rewrite Hprep, Hclose; cbn [length]; rewrite Nat.add_0_r.
  pose proof (pageRequests_turns env (timeoutOf v) (totalRecords s)
                (sizeLimitBytes s) ts l0) as Hturns.
  pose proof (afterLocals_grows (map snd ts) Hne l0) as Hgrow.
  rewrite length_map in Hgrow.
  change (l_offset l0) with (startOf v f) in Hgrow.
  assert (Hlastn : (length (filter isPageRequest last) <= 3)%nat
                   /\ (exit s = CondFalse -> last = [])).
  { destruct (exit s); cbn [lastFetch] in Hlast;
      try (destruct Hlast as ((k & _ & ->) & _);
           split; [apply pageRequests_retry | discriminate]);
      subst last; split; auto; simpl; lia. }
  destruct Hlastn as (Hl3 & Hl0).
  destruct (totalRecords s) as [ | z] eqn:Hz.
  - destruct ts as [ | t rest];
      [ | destruct Hts as (H & _); discriminate].
    assert (He : exit s = CondFalse).
    { destruct (exit s); try reflexivity; try contradiction;
        try discriminate.
      destruct Hex as (H & _); discriminate. }
    rewrite (Hl0 He); simpl; lia.
  - assert (Hcount : ts <> [] ->
                     (Z.of_N (startOf v f) + Z.of_nat (length ts) <= z)%Z).
    { intros Hn.
      apply (servedTurns_count env (timeoutOf v) z ts Hne Hn l0 Hts). }
    destruct (exit s) eqn:He.
    + rewrite (Hl0 eq_refl); cbn [length filter].
      destruct ts as [ | t rest]; [simpl; lia | ].
      assert (Hn : t :: rest <> []) by discriminate.
      specialize (Hcount Hn); lia.
    + simpl in Hex; apply Z.ltb_lt in Hex; lia.
    + destruct Hex as (Hex & _); simpl in Hex; apply Z.ltb_lt in Hex; lia.
    + simpl in Hex; apply Z.ltb_lt in Hex; lia.
    + contradiction.
Qed.

Lemma witness_two_page_requests :
  exists s w',
    run download_js plainEnv pristine = (Ok s, w')
    /\ length (filter isPageRequest (trace w')) = 2%nat
    /\ exit s <> OutOfFuel
    /\ (length (filter isPageRequest (trace w'))
        <= 3 * match totalRecords s with
               | Int z => Z.to_nat (z - Z.of_N (startOffset s))
               | NaN => 0
               end)%nat.
Proof.
  do 2 eexists; split; [vm_compute; reflexivity | ].
  split; [reflexivity | ].
  apply (page_requests_bounded_by_missing_records download_js plainEnv
           pristine).
  vm_compute; reflexivity.
Defined.

(** ** The offsets of a run *)

Lemma servedTurns_bound (env : Env) (timeout : N) (z : Z) (P : nat)
    (ts : list (nat * Iter)) :
  (forall t req rows,
      axios_get env t req = Resolved (DRows rows) -> (length rows <= P)%nat) ->
  Forall (fun it => page it <> []) (map snd ts) ->
  ts <> [] ->
  forall l,
    servedTurns env timeout (Int z) l ts ->
    (Z.of_N (l_offset l) < Z.of_N (l_offset (afterLocals l (map snd ts)))
     < z + Z.of_nat P)%Z.
Proof.
  intros HP Hne; induction ts as [ | [k it] rest IH]; intros Hnil l Hts;
    [congruence | ].
  destruct Hts as (Hlt & _ & (tk & Htk) & Hrest); cbn [snd fst] in *.
  apply HP in Htk.
  simpl in Hlt; apply Z.ltb_lt in Hlt.
  inversion Hne as [ | x xs Hpage Hne' ]; subst.
  cbn [map snd afterLocals].
  destruct rest as [ | t' rest'].
  - cbn [map afterLocals stepLocals l_offset].
    destruct (page it); [congruence | simpl in *; lia].
  - assert (Hn : t' :: rest' <> []) by discriminate.
    specialize (IH Hne' Hn _ Hrest).
    change (l_offset (stepLocals l it))
      with (l_offset l + N.of_nat (length (page it))) in IH.
    lia.
Qed.

(** X11: The offset moves only upwards, and it passes the total by less
    than a page: when no page comes with more than [P] records, a run
    that accepted something ends at an offset below the total plus
    [P] (the loop checks the offset against the total before it asks
    for a page, not after). *)
Theorem final_offset_within_a_page_of_total :
  forall (v : Script) (env : Env) (f : FS) (s : Summary) (w' : World)
         (P : nat) (z : Z),
    run v env f = (Ok s, w') ->
    (forall t req rows,
        axios_get env t req = Resolved (DRows rows) -> (length rows <= P)%nat) ->
    totalRecords s = Int z ->
    finalOffset s = startOffset s
    \/ (Z.of_N (startOffset s) < Z.of_N (finalOffset s) < z + Z.of_nat P)%Z.
Proof.
  intros v env f s w' P z Hrun HP Hz.
  destruct (run_trace v env f s w' Hrun) as (ts & (HF & Hts & _) & _).
  destruct HF as ((Hso & _ & Hfo & _) & _ & _ & _ & Hne & _).
  rewrite Hso, Hfo.
  destruct ts as [ | t rest]; [left; reflexivity | right].
  rewrite Hz in Hts.
  assert (Hn : t :: rest <> []) by discriminate.
  apply (servedTurns_bound env _ z P (t :: rest) HP Hne Hn _ Hts).
Qed.

Lemma witness_stale_count_overshoots :
  exists s w',
    run download_js staleCount pristine = (Ok s, w')
    /\ (forall t req rows,
           axios_get staleCount t req = Resolved (DRows rows) ->
           (length rows <= 2)%nat)
    /\ totalRecords s = Int 3
    /\ finalOffset s = 4
    /\ (finalOffset s = startOffset s
        \/ (Z.of_N (startOffset s) < Z.of_N (finalOffset s)
            < 3 + Z.of_nat 2)%Z).
Proof.
  assert (HP : forall t req rows,
             axios_get staleCount t req = Resolved (DRows rows) ->
             (length rows <= 2)%nat).
  { intros t req rows H; unfold staleCount, mockEnv in H;
      cbn [axios_get] in H.
    destruct (params req); [inversion H; subst; simpl; lia | ].
    assert (E : rows
                = firstn 2 (skipn (N.to_nat (requestedOffset req)) abcd))
      by congruence.
    rewrite E; apply firstn_le_length. }
  do 2 eexists; split; [vm_compute; reflexivity | ].
  split; [exact HP | ].
  do 2 (split; [reflexivity | ]).
  eapply (final_offset_within_a_page_of_total download_js staleCount pristine
            _ _ 2 3);
    [vm_compute; reflexivity | exact HP | reflexivity].
Defined.

(** ** The requests of a run *)

Lemma requestsFollowSaves_app (timeout : N) (xs ys : list Event) :
  forall cur,
    requestsFollowSaves timeout cur xs ->
    requestsFollowSaves timeout (cursorAfter cur xs) ys ->
    requestsFollowSaves timeout cur (xs ++ ys).
Proof.
  induction xs as [ | e xs IH]; intros cur Hx Hy; [exact Hy | ].
  destruct e; cbn [app requestsFollowSaves cursorAfter] in *;
    try (destruct Hx as (H1 & H2); split; [exact H1 | ]); auto.
Qed.

Lemma cursorAfter_app (xs ys : list Event) :
  forall cur, cursorAfter cur (xs ++ ys) = cursorAfter (cursorAfter cur xs) ys.
Proof.
  induction xs as [ | e xs IH]; intros cur; [reflexivity | ].
  destruct e; cbn [app cursorAfter]; apply IH.
Qed.

Lemma follow_questions (timeout : N) (qs : list Event) :
  forallb isQuestion qs = true ->
  forall cur,
    requestsFollowSaves timeout cur qs /\ cursorAfter cur qs = cur
    /\ filter isCountQuery qs = [].
Proof.
  induction qs as [ | q qs IH]; intros Hq cur; [repeat split | ].
  cbn [forallb] in Hq; apply andb_prop in Hq; destruct Hq as (Hq & Hqs).
  destruct q; try discriminate; simpl; apply IH; exact Hqs.
Qed.

Lemma follow_retry (timeout o : N) (k : nat) :
  requestsFollowSaves timeout o (retryEvents (pageRequest timeout o) k)
  /\ cursorAfter o (retryEvents (pageRequest timeout o) k) = o
  /\ filter isCountQuery (retryEvents (pageRequest timeout o) k) = [].
Proof.
  destruct k as [ | [ | k]]; simpl; repeat split; auto.
Qed.

Lemma follow_iter (timeout cur : N) (lim : option N) (l : Locals) (it : Iter) :
  requestsFollowSaves timeout cur (iterEvents lim l it)
  /\ cursorAfter cur (iterEvents lim l it) = l_offset (stepLocals l it)
  /\ filter isCountQuery (iterEvents lim l it) = [].
Proof.
  unfold iterEvents; destruct (accepted it); simpl; repeat split.
Qed.

Lemma follow_turns (timeout : N) (lim : option N) (ts : list (nat * Iter)) :
  forall l,
    requestsFollowSaves timeout (l_offset l) (turnsEvents timeout lim l ts)
    /\ cursorAfter (l_offset l) (turnsEvents timeout lim l ts)
       = l_offset (afterLocals l (map snd ts))
    /\ filter isCountQuery (turnsEvents timeout lim l ts) = [].
Proof.
  induction ts as [ | [k it] rest IH]; intros l; [repeat split | ].
  cbn [turnsEvents map snd afterLocals]; unfold turnEvents; cbn [fst snd].
  destruct (follow_retry timeout (l_offset l) k) as (R1 & R2 & R3).
  destruct (follow_iter timeout (l_offset l) lim l it) as (I1 & I2 & I3).
  destruct (IH (stepLocals l it)) as (T1 & T2 & T3).
  rewrite !cursorAfter_app, !filter_app, R2, R3, I2, I3, T2, T3.
  repeat split.
  apply requestsFollowSaves_app;
    [ apply requestsFollowSaves_app; [exact R1 | rewrite R2; exact I1]
    | rewrite cursorAfter_app, R2, I2; exact T1 ].
Qed.

Lemma follow_last (env : Env) (timeout : N) (l : Locals) (e : LoopExit)
    (last : list Event) :
  lastFetch env timeout l e last ->
  requestsFollowSaves timeout (l_offset l) last
  /\ cursorAfter (l_offset l) last = l_offset l
  /\ filter isCountQuery last = [].
Proof.
  destruct e; cbn [lastFetch]; intros H;
    try (destruct H as ((k & _ & ->) & _); apply follow_retry);
    subst last; repeat split.
Qed.

Lemma follow_open (timeout cur start : N) :
  requestsFollowSaves timeout cur (openEvents start)
  /\ cursorAfter cur (openEvents start) = cur
  /\ filter isCountQuery (openEvents start) = [].
Proof.
  unfold openEvents; destruct (start =? 0); repeat split.
Qed.

Lemma follow_close (timeout cur : N) (v : Script) (o : Outcome)
    (st : DownloadState) (g : FS) :
  requestsFollowSaves timeout cur (closeEvents v o st g)
  /\ filter isCountQuery (closeEvents v o st g) = [].
Proof.
  unfold closeEvents, unlinkEvents.
  destruct v, o, (STATE_FILE g); repeat split.
Qed.

(** X12: The pagination cursor is the saved offset: in a run, every page
    request asks, with [$limit] 50000 and [$order] [:id], for the start
    offset or for the offset of the latest [saveState] before it; the
    count query is made exactly once, and every sleep lasts 2000 ms. *)
Theorem page_requests_follow_saved_offset :
  forall (v : Script) (env : Env) (f : FS) (s : Summary) (w' : World),
    run v env f = (Ok s, w') ->
    requestsFollowSaves (timeoutOf v) (startOffset s) (trace w')
    /\ length (filter isCountQuery (trace w')) = 1%nat.
Proof.
  intros v env f s w' Hrun.
  destruct (run_trace v env f s w' Hrun)
    as (ts & (HF & _ & qs & last & Hq & _ & Hlast & Htr & _) & _).
  destruct HF as ((Hso & _) & _).
  rewrite Htr, Hso.
  set (start := startOf v f) in *.
  set (l0 := startLocals f start) in *.
  set (lim := sizeLimitBytes s) in *.
  change start with (l_offset l0) at 1.
  destruct (follow_questions (timeoutOf v) qs Hq (l_offset l0))
    as (Q1 & Q2 & Q3).
  destruct (follow_open (timeoutOf v) (l_offset l0) start) as (O1 & O2 & O3).
  destruct (follow_turns (timeoutOf v) lim ts l0) as (T1 & T2 & T3).
  destruct (follow_last _ _ _ _ _ Hlast) as (L1 & L2 & L3).
  assert (P1 : requestsFollowSaves (timeoutOf v) (l_offset l0)
                 (prepareEvents v start qs)
               /\ cursorAfter (l_offset l0) (prepareEvents v start qs)
                  = l_offset l0
               /\ length (filter isCountQuery (prepareEvents v start qs))
                  = 1%nat).
  { destruct v; cbn [prepareEvents].
    - cbn [requestsFollowSaves cursorAfter filter isCountQuery params
           sizeRequest isNil length].
      rewrite O2, O3; repeat split; auto.
    - rewrite cursorAfter_app, filter_app, Q2, Q3.
      cbn [app requestsFollowSaves cursorAfter filter isCountQuery params
           sizeRequest isNil length].
      rewrite O2, O3; repeat split.
      apply requestsFollowSaves_app; [exact Q1 | rewrite Q2].
      cbn [requestsFollowSaves]; auto. }
  destruct P1 as (P1 & P2 & P3).
  split.
  - apply requestsFollowSaves_app; [exact P1 | rewrite P2].
    apply requestsFollowSaves_app; [exact T1 | rewrite T2].
    apply requestsFollowSaves_app; [exact L1 | rewrite L2].
    apply follow_close.
  - rewrite !filter_app, !length_app, P3, T3, L3.
    rewrite (proj2 (follow_close (timeoutOf v) 0 _ _ _ _)); reflexivity.
Qed.

Lemma witness_plain_run_requests :
  exists s w',
    run download_js plainEnv pristine = (Ok s, w')
    /\ requestsFollowSaves (timeoutOf download_js) (startOffset s) (trace w')
    /\ length (filter isCountQuery (trace w')) = 1%nat.
Proof.
  do 2 eexists; split; [vm_compute; reflexivity | ].
  apply (page_requests_follow_saved_offset download_js plainEnv pristine).
  vm_compute; reflexivity.
Defined.

(** X13: A run that starts at or past the total, or with a total that is
    not a number, asks for no page and writes no chunk: the count
    query is its only request, the offset stays, and the output file
    is the opened file, closed if the run counts as completed. *)
Theorem no_page_requested_at_or_past_total :
  forall (v : Script) (env : Env) (f : FS) (s : Summary) (w' : World),
    run v env f = (Ok s, w') ->
    lt_total (startOffset s) (totalRecords s) = false ->
    exit s = CondFalse
    /\ finalOffset s = startOffset s
    /\ (forall req, In (Get req) (trace w') -> req = sizeRequest)
    /\ outcome s <> Failed
    /\ FILE_PATH (fs w')
       = Some (openedFile f (startOffset s) ++ closing (outcome s))%string.
Proof.
  intros v env f s w' Hrun Hlt.
  destruct (run_trace v env f s w' Hrun)
    as (ts & (HF & Hts & qs & last & Hq & _ & Hlast & Htr & _) & _).
  destruct HF as ((Hso & _ & Hfo & _) & Ho & Hfs & _ & _ & _ & Hex).
  rewrite Hso in *.
  destruct ts as [ | t rest].
  2:{ destruct Hts as (H & _); cbn [startLocals l_offset] in H; congruence. }
  cbn [map afterLocals afterFS turnsEvents app] in *.
  cbn [startLocals l_offset] in Hex, Hfo.
  assert (He : exit s = CondFalse).
  { destruct (exit s); try reflexivity; try contradiction;
      try congruence.
    destruct Hex as (H & _); congruence. }
  rewrite He in *; cbn [lastFetch] in Hlast; subst last.
  split; [reflexivity | split; [exact Hfo | ]].
  split; [ | split].
  - intros req Hin; rewrite Htr in Hin; cbn [app] in Hin.
    apply in_app_or in Hin; destruct Hin as [Hin | Hin].
    + assert (Hopen : ~ In (Get req) (openEvents (startOf v f))).
      { unfold openEvents; destruct (startOf v f =? 0); simpl;
          intuition discriminate. }
      destruct v; cbn [prepareEvents] in Hin.
      * destruct Hin as [Hin | Hin]; [congruence | contradiction].
      * apply in_app_or in Hin; destruct Hin as [Hin | [Hin | Hin]];
          [ | congruence | contradiction].
        assert (Hall : forall e, In e qs -> isQuestion e = true)
          by (apply forallb_forall; exact Hq).
        apply Hall in Hin; discriminate.
    + apply In_closeEvents in Hin.
      destruct Hin as [H | [H | [H | H]]]; discriminate.
  - cbn [outcomeOf] in Ho; rewrite Ho.
    destruct v; [discriminate | destruct (ge_total _ _); discriminate].
  - rewrite Hfs.
    assert (Hn : outcome s <> Failed).
    { cbn [outcomeOf] in Ho; rewrite Ho.
      destruct v; [discriminate | destruct (ge_total _ _); discriminate]. }
    destruct (outcome s), v; try congruence;
      cbn [closeFS closing openedFS FILE_PATH];
      rewrite ?append_nil_r; reflexivity.
Qed.

Lemma witness_resume_at_total :
  exists s w',
    run download_js plainEnv allFetched = (Ok s, w')
    /\ lt_total (startOffset s) (totalRecords s) = false
    /\ fs w' = completeFile
    /\ exit s = CondFalse
    /\ finalOffset s = startOffset s
    /\ (forall req, In (Get req) (trace w') -> req = sizeRequest)
    /\ outcome s <> Failed
    /\ FILE_PATH (fs w')
       = Some (openedFile allFetched (startOffset s)
               ++ closing (outcome s))%string.
Proof.
  do 2 eexists; split; [vm_compute; reflexivity | ].
  split; [reflexivity | split; [reflexivity | ]].
  apply (no_page_requested_at_or_past_total download_js plainEnv allFetched);
    [vm_compute; reflexivity | reflexivity].
Defined.

(** ** After a run *)

(** X14: Only completion forgets the progress: a completed run leaves the
    output file closed by a bracket and no state record, so the next
    run of either script starts at offset 0, opens the output file
    with flag [w], and what it leaves holds its own chunks only: a
    complete download is downloaded again from scratch. *)
Theorem completed_run_forgets_and_next_run_restarts :
  forall (v : Script) (env : Env) (f : FS) (s : Summary) (w' : World),
    run v env f = (Ok s, w') ->
    outcome s = Completed ->
    STATE_FILE (fs w') = None
    /\ (exists c, FILE_PATH (fs w') = Some (c ++ "]")%string)
    /\ forall (v2 : Script) (env2 : Env) (s2 : Summary) (w2 : World),
         run v2 env2 (fs w') = (Ok s2, w2) ->
         startOffset s2 = 0
         /\ In (Open flag_w) (trace w2)
         /\ exists its2,
              FILE_PATH (fs w2)
              = Some ("[" ++ chunksText true its2
                          ++ closing (outcome s2))%string
              /\ finalOffset s2 = N.of_nat (length (recordsOf its2)).
Proof.
  intros v env f s w' Hrun Ho.
  destruct (run_ok_facts _ _ _ _ _ Hrun) as (its & HF & _).
  destruct HF as (_ & _ & Hfs & _).
  rewrite Ho in Hfs.
  assert (Hst : STATE_FILE (fs w') = None)
    by (rewrite Hfs; destruct v; reflexivity).
  split; [exact Hst | split].
  { rewrite Hfs; destruct v; cbn [closeFS FILE_PATH];
      destruct (FILE_PATH _) as [c | ];
      [exists c | exists EmptyString | exists c | exists EmptyString];
      reflexivity. }
  intros v2 env2 s2 w2 Hrun2.
  destruct (run_ok_facts _ _ _ _ _ Hrun2) as (its2 & HF2 & _).
  assert (Hstart : startOf v2 (fs w') = 0).
  { assert (H0 : resumeOffset (fs w') = 0)
      by (unfold resumeOffset; rewrite Hst; reflexivity).
    destruct v2; cbn [startOf]; rewrite H0; reflexivity. }
  pose proof (In_open_w _ _ _ _ _ HF2) as Hopen.
  destruct HF2 as ((Hso & _ & Hfo & _) & _ & Hfs2 & _).
  rewrite Hstart in *.
  split; [exact Hso | split; [apply Hopen; exact Hso | ]].
  exists its2; split.
  - rewrite Hfs2.
    set (g := afterFS _ _ _ its2).
    assert (Hg : FILE_PATH g = Some ("[" ++ chunksText true its2)%string).
    { subst g; erewrite afterFS_file by reflexivity; reflexivity. }
    destruct (outcome s2), v2; cbn [closeFS closing FILE_PATH];
      rewrite Hg, ?append_nil_r, ?append_assoc; reflexivity.
  - rewrite Hfo, afterLocals_offset; cbn [startLocals l_offset]; lia.
Qed.

Lemma witness_complete_then_restart :
  exists s w',
    run download_js plainEnv pristine = (Ok s, w')
    /\ outcome s = Completed
    /\ fs w' = completeFile
    /\ STATE_FILE (fs w') = None
    /\ (exists c, FILE_PATH (fs w') = Some (c ++ "]")%string)
    /\ forall (v2 : Script) (env2 : Env) (s2 : Summary) (w2 : World),
         run v2 env2 (fs w') = (Ok s2, w2) ->
         startOffset s2 = 0
         /\ In (Open flag_w) (trace w2)
         /\ exists its2,
              FILE_PATH (fs w2)
              = Some ("[" ++ chunksText true its2
                          ++ closing (outcome s2))%string
              /\ finalOffset s2 = N.of_nat (length (recordsOf its2)).
Proof.
  do 2 eexists; split; [vm_compute; reflexivity | ].
  split; [reflexivity | split; [reflexivity | ]].
  eapply (completed_run_forgets_and_next_run_restarts
            download_js plainEnv pristine);
    [vm_compute; reflexivity | reflexivity].
Defined.

(** X15: What a failed run leaves in the state file.  The version with a
    byte budget saves again in its [catch] block: the record holds the
    final offset and the limit chosen at the prompt, even when nothing
    was downloaded.  [download.js] does not: when the run accepted no
    chunk, the state file is as it was before the run. *)
Theorem failed_run_state_record :
  forall (v : Script) (env : Env) (f : FS) (s : Summary) (w' : World),
    run v env f = (Ok s, w') ->
    outcome s = Failed ->
    match v with
    | limited_js =>
        STATE_FILE (fs w')
        = Some (Json {| offset := finalOffset s;
                        limitBytes := sizeLimitBytes s |})
    | download_js =>
        finalOffset s = startOffset s -> STATE_FILE (fs w') = STATE_FILE f
    end.
Proof.
  intros v env f s w' Hrun Ho.
  destruct (run_ok_facts _ _ _ _ _ Hrun) as (its & HF & _).
  destruct HF as ((Hso & _ & Hfo & _) & _ & Hfs & _ & Hne & _).
  rewrite Ho in Hfs; rewrite Hfs; destruct v; cbn [closeFS STATE_FILE].
  - rewrite Hfo, Hso, afterLocals_offset; cbn [startLocals l_offset].
    intros Heq; rewrite afterFS_state.
    destruct its as [ | it rest]; [reflexivity | exfalso].
    inversion Hne as [ | x xs Hp _ ]; subst.
    cbn [recordsOf flat_map] in Heq; rewrite length_app in Heq.
    destruct (page it); [congruence | simpl in Heq; lia].
  - rewrite Hfo; reflexivity.
Qed.

Lemma witness_limit_saved_on_failure :
  exists s w',
    run limited_js offlineWithLimit pristine = (Ok s, w')
    /\ outcome s = Failed
    /\ STATE_FILE (fs w')
       = Some (Json {| offset := 0; limitBytes := Some 3 |})
    /\ STATE_FILE (fs w')
       = Some (Json {| offset := finalOffset s;
                       limitBytes := sizeLimitBytes s |}).
Proof.
  do 2 eexists; split; [vm_compute; reflexivity | ].
  split; [reflexivity | split; [reflexivity | ]].
  apply (failed_run_state_record limited_js offlineWithLimit pristine);
    [vm_compute; reflexivity | reflexivity].
Defined.

(** X16: Resuming: on well-formed files, the run after one that did not
    complete starts at the offset at which that one ended, with the
    byte count at which it ended, and appends to the output file when
    that offset is positive. *)
Theorem next_run_resumes_where_previous_stopped :
  forall (v1 v2 : Script) (env1 env2 : Env) (f : FS) (s1 s2 : Summary)
         (w1 w2 : World),
    wellFormed f ->
    run v1 env1 f = (Ok s1, w1) ->
    outcome s1 <> Completed ->
    run v2 env2 (fs w1) = (Ok s2, w2) ->
    startOffset s2 = finalOffset s1
    /\ startBytes s2 = finalBytes s1
    /\ (0 < finalOffset s1 -> In (Open flag_a) (trace w2)).
Proof.
  intros v1 v2 env1 env2 f s1 s2 w1 w2 Hwf Hrun1 Ho Hrun2.
  destruct (run_ok_facts _ _ _ _ _ Hrun1) as (its & HF & _).
  destruct (run_ok_facts _ _ _ _ _ Hrun2) as (its2 & HF2 & _).
  destruct (run_file_shape _ _ _ _ _ Hwf HF) as (_ & Hwf1).
  pose proof (run_fileSize _ _ _ _ _ HF) as Hsize.
  pose proof (startOf_wellFormed v2 _ Hwf1) as Hstart2.
  pose proof (startOf_wellFormed v1 _ Hwf) as Hstart1.
  destruct HF as ((Hso & Hsb & Hfo & Hfb) & _ & Hfs & _ & Hne & _).
  assert (Hres : resumeOffset (fs w1) = finalOffset s1).
  { rewrite Hfs, Hfo; unfold resumeOffset.
    destruct (outcome s1), v1; try congruence; cbn [closeFS STATE_FILE offset];
      try reflexivity;
      rewrite afterFS_state; cbn [openedFS STATE_FILE];
      destruct its; try reflexivity;
      fold (resumeOffset f); rewrite <- Hstart1; reflexivity. }
  assert (Hfile : exists c, FILE_PATH (fs w1) = Some c).
  { rewrite Hfs.
    assert (Hg : exists c,
               FILE_PATH (afterFS (sizeLimitBytes s1)
                            (startLocals f (startOf v1 f))
                            (openedFS f (startOf v1 f)) its) = Some c)
      by (erewrite afterFS_file by reflexivity; eauto).
    destruct Hg as (c & Hg).
    destruct (outcome s1), v1; try congruence; cbn [closeFS FILE_PATH];
      eauto. }
  destruct Hfile as (c & Hc).
  destruct HF2 as ((Hso2 & Hsb2 & _) & _ & _ & Htr2 & _).
  rewrite Hstart2, Hres in *.
  split; [exact Hso2 | split].
  - rewrite Hsb2; cbn [startLocals l_downloadedBytes]; unfold openedFile.
    destruct (finalOffset s1 =? 0) eqn:E0.
    + apply N.eqb_eq in E0.
      rewrite Hfb, afterLocals_bytes.
      assert (Hnil : its = []).
      { rewrite Hfo, afterLocals_offset in E0.
        destruct its as [ | it rest]; [reflexivity | exfalso].
        inversion Hne as [ | x xs Hp _ ]; subst.
        cbn [recordsOf flat_map] in E0; rewrite length_app in E0.
        destruct (page it); [congruence | simpl in E0; lia]. }
      subst its; rewrite Hfo in E0; cbn [afterLocals] in E0.
      cbn [startLocals l_offset] in E0.
      cbn [startLocals l_downloadedBytes l_isFirstChunk chunksText].
      unfold openedFile; rewrite E0; reflexivity.
    + rewrite Hc; unfold fileSize in Hsize; rewrite Hc in Hsize.
      rewrite Hsize; destruct (outcome s1); try congruence; lia.
  - intros Hpos.
    assert (Hin : In (Open flag_a) (storageEvents (trace w2))).
    { rewrite Htr2; apply in_or_app; left; unfold openEvents.
      destruct (finalOffset s1 =? 0) eqn:E0;
        [apply N.eqb_eq in E0; lia | left; reflexivity]. }
    apply filter_In in Hin; apply Hin.
Qed.

Lemma witness_resume_after_limit :
  wellFormed pristine
  /\ exists s1 w1 s2 w2,
       run limited_js threeByteLimit pristine = (Ok s1, w1)
       /\ outcome s1 <> Completed
       /\ run download_js plainEnv (fs w1) = (Ok s2, w2)
       /\ finalOffset s1 = 2
       /\ fs w2 = completeFile
       /\ startOffset s2 = finalOffset s1
       /\ startBytes s2 = finalBytes s1
       /\ (0 < finalOffset s1 -> In (Open flag_a) (trace w2)).
Proof.
  assert (Hwf : wellFormed pristine) by (left; reflexivity).
  split; [exact Hwf | ].
  do 4 eexists.
  split; [vm_compute; reflexivity | ].
  split; [discriminate | ].
  split; [vm_compute; reflexivity | ].
  split; [reflexivity | split; [reflexivity | ]].
  eapply (next_run_resumes_where_previous_stopped
            limited_js download_js threeByteLimit plainEnv pristine);
    [exact Hwf | vm_compute; reflexivity | discriminate
    | vm_compute; reflexivity].
Defined.

(** X17: The version with a byte budget does not check that the output
    file is there: with a positive offset saved and no output file, it
    resumes at the saved offset with a byte count of 0 and appends to
    a new file, which holds its chunks only, each record after a
    separator, and no opening bracket. *)
Theorem limited_resumes_without_output_file :
  forall (env : Env) (f : FS) (s : Summary) (w' : World),
    run limited_js env f = (Ok s, w') ->
    FILE_PATH f = None ->
    0 < resumeOffset f ->
    startOffset s = resumeOffset f
    /\ startBytes s = 0
    /\ In (Open flag_a) (trace w')
    /\ exists its,
         FILE_PATH (fs w')
         = Some (chunksText false its ++ closing (outcome s))%string
         /\ finalOffset s
            = resumeOffset f + N.of_nat (length (recordsOf its)).
Proof.
  intros env f s w' Hrun Hmiss Hpos.
  destruct (run_ok_facts _ _ _ _ _ Hrun) as (its & HF & _).
  destruct HF as ((Hso & Hsb & Hfo & _) & _ & Hfs & Htr & _).
  cbn [startOf] in *.
  assert (E0 : (resumeOffset f =? 0) = false) by (apply N.eqb_neq; lia).
  assert (Hopen : openedFile f (resumeOffset f) = EmptyString)
    by (unfold openedFile; rewrite E0, Hmiss; reflexivity).
  split; [exact Hso | split; [ | split]].
  - rewrite Hsb; cbn [startLocals l_downloadedBytes]; rewrite Hopen.
    reflexivity.
  - assert (Hin : In (Open flag_a) (storageEvents (trace w'))).
    { rewrite Htr; apply in_or_app; left; unfold openEvents.
      rewrite E0; left; reflexivity. }
    apply filter_In in Hin; apply Hin.
  - exists its; split.
    + rewrite Hfs.
      set (g := afterFS _ _ _ its).
      assert (Hg : FILE_PATH g = Some (chunksText false its)).
      { subst g; erewrite afterFS_file by reflexivity.
        cbn [startLocals l_isFirstChunk]; rewrite Hopen, E0; reflexivity. }
      destruct (outcome s); cbn [closeFS closing FILE_PATH];
        rewrite Hg, ?append_nil_r; reflexivity.
    + rewrite Hfo, afterLocals_offset; reflexivity.
Qed.

Lemma witness_orphan_state_appends :
  exists s w',
    run limited_js liftLimit orphanState = (Ok s, w')
    /\ FILE_PATH orphanState = None
    /\ 0 < resumeOffset orphanState
    /\ FILE_PATH (fs w') = Some ",{c}]"
    /\ startOffset s = resumeOffset orphanState
    /\ startBytes s = 0
    /\ In (Open flag_a) (trace w')
    /\ exists its,
         FILE_PATH (fs w')
         = Some (chunksText false its ++ closing (outcome s))%string
         /\ finalOffset s
            = resumeOffset orphanState + N.of_nat (length (recordsOf its)).
Proof.
  do 2 eexists; split; [vm_compute; reflexivity | ].
  split; [reflexivity | split; [reflexivity | split; [reflexivity | ]]].
  apply (limited_resumes_without_output_file liftLimit orphanState);
    [vm_compute; reflexivity | reflexivity | reflexivity].
Defined.

(** X18: A stale offset: [download.js] resets its offset when the output
    file is missing, but leaves the state record; when that run then
    fails before its first chunk, the record keeps the old offset next
    to an output file that holds the opening bracket only, and the
    next run of either script resumes at the old offset, appending to
    that file: the records before that offset are not downloaded
    again. *)
Theorem reset_then_failure_leaves_stale_offset :
  forall (env : Env) (f : FS) (s : Summary) (w' : World),
    run download_js env f = (Ok s, w') ->
    FILE_PATH f = None ->
    0 < resumeOffset f ->
    outcome s = Failed ->
    finalOffset s = 0 ->
    fs w' = {| STATE_FILE := STATE_FILE f; FILE_PATH := Some "[" |}
    /\ forall (v2 : Script) (env2 : Env) (s2 : Summary) (w2 : World),
         run v2 env2 (fs w') = (Ok s2, w2) ->
         startOffset s2 = resumeOffset f
         /\ startBytes s2 = 1
         /\ In (Open flag_a) (trace w2).
Proof.
  intros env f s w' Hrun Hmiss Hpos Ho Hfin.
  destruct (run_ok_facts _ _ _ _ _ Hrun) as (its & HF & _).
  destruct HF as ((Hso & _ & Hfo & _) & _ & Hfs & _ & Hne & _).
  assert (Hstart : startOf download_js f = 0).
  { cbn [startOf]; rewrite Hmiss.
    destruct (0 <? resumeOffset f) eqn:E; [reflexivity | ].
    apply N.ltb_ge in E; lia. }
  rewrite Hstart in *.
  assert (Hnil : its = []).
  { rewrite Hfo, afterLocals_offset in Hfin.
    destruct its as [ | it rest]; [reflexivity | exfalso].
    inversion Hne as [ | x xs Hp _ ]; subst.
    cbn [recordsOf flat_map] in Hfin; rewrite length_app in Hfin.
    destruct (page it); [congruence | simpl in Hfin; lia]. }
  subst its; cbn [afterFS afterLocals] in Hfs.
  rewrite Ho in Hfs; cbn [closeFS openedFS openedFile N.eqb] in Hfs.
  split; [exact Hfs | ].
  intros v2 env2 s2 w2 Hrun2.
  destruct (run_ok_facts _ _ _ _ _ Hrun2) as (its2 & HF2 & _).
  destruct HF2 as ((Hso2 & Hsb2 & _) & _ & _ & Htr2 & _).
  assert (Hres : resumeOffset (fs w') = resumeOffset f)
    by (rewrite Hfs; reflexivity).
  assert (Hstart2 : startOf v2 (fs w') = resumeOffset f).
  { destruct v2; cbn [startOf]; rewrite Hres; [ | reflexivity].
    rewrite Hfs; cbn [FILE_PATH]; rewrite andb_false_r; reflexivity. }
  assert (E0 : (resumeOffset f =? 0) = false) by (apply N.eqb_neq; lia).
  rewrite Hstart2 in *.
  split; [exact Hso2 | split].
  - rewrite Hsb2; cbn [startLocals l_downloadedBytes]; unfold openedFile.
    rewrite E0, Hfs; reflexivity.
  - assert (Hin : In (Open flag_a) (storageEvents (trace w2))).
    { rewrite Htr2; apply in_or_app; left; unfold openEvents.
      rewrite E0; left; reflexivity. }
    apply filter_In in Hin; apply Hin.
Qed.

Lemma witness_stale_offset :
  exists s w',
    run download_js offlineEnv orphanState = (Ok s, w')
    /\ FILE_PATH orphanState = None
    /\ 0 < resumeOffset orphanState
    /\ outcome s = Failed
    /\ finalOffset s = 0
    /\ fs w' = {| STATE_FILE := STATE_FILE orphanState;
                  FILE_PATH := Some "[" |}
    /\ forall (v2 : Script) (env2 : Env) (s2 : Summary) (w2 : World),
         run v2 env2 (fs w') = (Ok s2, w2) ->
         startOffset s2 = resumeOffset orphanState
         /\ startBytes s2 = 1
         /\ In (Open flag_a) (trace w2).
Proof.
  do 2 eexists; split; [vm_compute; reflexivity | ].
  do 4 (split; [reflexivity | ]).
  eapply (reset_then_failure_leaves_stale_offset offlineEnv orphanState);
    [vm_compute; reflexivity | reflexivity | reflexivity | reflexivity
    | reflexivity].
Defined.

(** X19: The limit is checked after the page has come: a run that
    stops at its limit has just requested the page at its final offset
    and received records for it, which it drops; it is a run of the
    version with a byte budget, it ends paused with at least as many
    bytes as the limit, and the next run will ask for that page
    again. *)
Theorem limit_stop_discards_a_fetched_page :
  forall (v : Script) (env : Env) (f : FS) (s : Summary) (w' : World),
    run v env f = (Ok s, w') ->
    exit s = LimitHit ->
    let req := pageRequest 60000 (finalOffset s) in
    v = limited_js
    /\ outcome s = Paused
    /\ (exists B, sizeLimitBytes s = Some B /\ B <= finalBytes s)
    /\ In (Get req) (trace w')
    /\ exists t rows,
         rows <> [] /\ axios_get env t req = Resolved (DRows rows).
Proof.
  intros v env f s w' Hrun He req; subst req.
  destruct (run_trace v env f s w' Hrun)
    as (ts & (HF & _ & qs & last & _ & _ & Hlast & Htr & _) & Hv).
  destruct HF as ((_ & _ & Hfo & Hfb) & Ho & _ & _ & _ & _ & Hex).
  rewrite He in *; cbn [lastFetch outcomeOf] in *.
  destruct Hex as (Hlt & B & HB & HleB).
  assert (Hvl : v = limited_js).
  { destruct v; [rewrite Hv in HB by reflexivity; discriminate | reflexivity]. }
  subst v; cbn [timeoutOf] in *.
  rewrite (lt_ge_total _ _ Hlt) in Ho.
  rewrite Hfo, Hfb.
  destruct Hlast as ((k & _ & Hk) & tk & rows & Hrows & Htk).
  split; [reflexivity | split; [exact Ho | split; [eauto | split]]].
  - rewrite Htr; apply in_or_app; right; apply in_or_app; right.
    apply in_or_app; left; rewrite Hk.
    destruct k as [ | [ | k]]; left; reflexivity.
  - exists tk, rows; auto.
Qed.

Lemma witness_page_dropped_at_three_bytes :
  exists s w',
    run limited_js threeByteLimit pristine = (Ok s, w')
    /\ exit s = LimitHit
    /\ finalOffset s = 2
    /\ FILE_PATH (fs w') = Some "[{a},{b}"
    /\ let req := pageRequest 60000 (finalOffset s) in
       limited_js = limited_js
       /\ outcome s = Paused
       /\ (exists B, sizeLimitBytes s = Some B /\ B <= finalBytes s)
       /\ In (Get req) (trace w')
       /\ exists t rows,
            rows <> []
            /\ axios_get threeByteLimit t req = Resolved (DRows rows).
Proof.
  do 2 eexists; split; [vm_compute; reflexivity | ].
  do 3 (split; [reflexivity | ]).
  apply (limit_stop_discards_a_fetched_page limited_js threeByteLimit
           pristine);
    [vm_compute; reflexivity | reflexivity].
Defined.

(** ** What a resumed run trusts *)

(** X20: A resumed run never reads the output file: with a positive
    offset saved and an output file there, a run of either script
    starts at the saved offset, counts the bytes of the file, opens it
    for appending, and leaves its content followed by the chunks of
    this run, each record after a separator, and by the closing
    bracket if the run completes, whatever the content was.  So when
    the file holds more records than the state record counts, records
    are repeated. *)
Theorem resumed_run_appends_to_any_content :
  forall (v : Script) (env : Env) (f : FS) (c : string) (s : Summary)
         (w' : World),
    run v env f = (Ok s, w') ->
    FILE_PATH f = Some c ->
    0 < resumeOffset f ->
    startOffset s = resumeOffset f
    /\ startBytes s = N.of_nat (String.length c)
    /\ In (Open flag_a) (trace w')
    /\ ~ In (Open flag_w) (trace w')
    /\ exists its,
         Forall (fun it => page it <> []) its
         /\ FILE_PATH (fs w')
            = Some (c ++ chunksText false its ++ closing (outcome s))%string
         /\ finalOffset s
            = resumeOffset f + N.of_nat (length (recordsOf its)).
Proof.
  intros v env f c s w' Hrun Hfile Hpos.
  destruct (run_ok_facts _ _ _ _ _ Hrun) as (its & HF & _).
  pose proof (In_open_w _ _ _ _ _ HF) as Hw.
  destruct HF as ((Hso & Hsb & Hfo & _) & _ & Hfs & Htr & Hne & _).
  assert (Hstart : startOf v f = resumeOffset f).
  { destruct v; cbn [startOf]; [ | reflexivity].
    rewrite Hfile, andb_false_r; reflexivity. }
  rewrite Hstart in *.
  assert (E0 : (resumeOffset f =? 0) = false) by (apply N.eqb_neq; lia).
  assert (Hopen : openedFile f (resumeOffset f) = c)
    by (unfold openedFile; rewrite E0, Hfile; reflexivity).
  split; [exact Hso | split; [ | split; [ | split]]].
  - rewrite Hsb; cbn [startLocals l_downloadedBytes]; rewrite Hopen.
    reflexivity.
  - assert (Hin : In (Open flag_a) (storageEvents (trace w'))).
    { rewrite Htr; apply in_or_app; left; unfold openEvents.
      rewrite E0; left; reflexivity. }
    apply filter_In in Hin; apply Hin.
  - intros Hin; apply Hw in Hin; rewrite Hso in Hin; lia.
  - exists its; split; [exact Hne | split].
    + rewrite Hfs.
      set (g := afterFS _ _ _ its).
      assert (Hg : FILE_PATH g = Some (c ++ chunksText false its)%string).
      { subst g; erewrite afterFS_file by reflexivity.
        cbn [startLocals l_isFirstChunk]; rewrite Hopen, E0; reflexivity. }
      destruct (outcome s), v; cbn [closeFS closing FILE_PATH];
        rewrite Hg, ?append_nil_r, ?append_assoc; reflexivity.
    + rewrite Hfo, afterLocals_offset; reflexivity.
Qed.

Lemma witness_record_repeated :
  exists s w',
    run download_js plainEnv writtenNotSaved = (Ok s, w')
    /\ FILE_PATH writtenNotSaved = Some "[{a},{b},{c}"
    /\ 0 < resumeOffset writtenNotSaved
    /\ FILE_PATH (fs w') = Some "[{a},{b},{c},{c}]"
    /\ startOffset s = resumeOffset writtenNotSaved
    /\ startBytes s = N.of_nat (String.length "[{a},{b},{c}")
    /\ In (Open flag_a) (trace w')
    /\ ~ In (Open flag_w) (trace w')
    /\ exists its,
         Forall (fun it => page it <> []) its
         /\ FILE_PATH (fs w')
            = Some ("[{a},{b},{c}" ++ chunksText false its
                    ++ closing (outcome s))%string
         /\ finalOffset s
            = resumeOffset writtenNotSaved
              + N.of_nat (length (recordsOf its)).
Proof.
  do 2 eexists; split; [vm_compute; reflexivity | ].
  split; [reflexivity | split; [reflexivity | split; [reflexivity | ]]].
  apply (resumed_run_appends_to_any_content download_js plainEnv
           writtenNotSaved);
    [vm_compute; reflexivity | reflexivity | reflexivity].
Defined.
